(** * Area-converter content pipeline: label helpers, length validator,
      bounded repair loop and batch driver.

    The Python sources embedded here are
    [scripts/batch_generate_children_from_csv.py], [src/validation.py],
    [src/mappers.py] and the parts of [src/models.py] and
    [src/section_regen.py] they rely on.

    A Python [str] is a sequence of Unicode code points; it is modelled as
    a list of code points ([N]).  Literals are written as UTF-8 text and
    decoded with [u], so that they read as in the source. *)

From Stdlib Require Import List NArith ZArith Bool Lia Permutation FinFun.
From Stdlib Require Import Strings.String Strings.Ascii Numbers.DecimalString.
From Stdlib Require Import Numbers.DecimalN Numbers.DecimalPos.
From Stdlib Require Import Floats.SpecFloat.
Import ListNotations.

Set Implicit Arguments.

(** ** Python strings *)

Module PyStr.

Definition char := N.
Definition pystr := list char.

Open Scope N_scope.

(** UTF-8 decoding of a literal (well-formed input only is ever given). *)
Fixpoint utf8_decode (bs : list N) : pystr :=
  match bs with
  | [] => []
  | b0 :: t =>
      if b0 <? 128 then b0 :: utf8_decode t
      else if b0 <? 224 then
        match t with
        | b1 :: t1 => ((b0 - 192) * 64 + (b1 - 128)) :: utf8_decode t1
        | _ => []
        end
      else if b0 <? 240 then
        match t with
        | b1 :: b2 :: t2 =>
            ((b0 - 224) * 4096 + (b1 - 128) * 64 + (b2 - 128)) :: utf8_decode t2
        | _ => []
        end
      else
        match t with
        | b1 :: b2 :: b3 :: t3 =>
            ((b0 - 240) * 262144 + (b1 - 128) * 4096 + (b2 - 128) * 64 + (b3 - 128))
              :: utf8_decode t3
        | _ => []
        end
  end.

Definition u (s : string) : pystr :=
  utf8_decode (map N_of_ascii (list_ascii_of_string s)).

Arguments u s%_string.

Definition char_eqb (a b : char) : bool := a =? b.

Fixpoint str_eqb (a b : pystr) : bool :=
  match a, b with
  | [], [] => true
  | x :: a', y :: b' => char_eqb x y && str_eqb a' b'
  | _, _ => false
  end.

(** [Py_UNICODE_ISSPACE]: the predicate behind [str.strip()], [str.isspace]
    and the [\s] class of [re] on [str] patterns. *)
Definition is_space (c : char) : bool :=
  ((9 <=? c) && (c <=? 13)) || ((28 <=? c) && (c <=? 32))
  || (c =? 133) || (c =? 160) || (c =? 5760)
  || ((8192 <=? c) && (c <=? 8202))
  || (c =? 8232) || (c =? 8233) || (c =? 8239) || (c =? 8287) || (c =? 12288).

Definition SPACE : char := 32.

Fixpoint lstrip (s : pystr) : pystr :=
  match s with
  | c :: t => if is_space c then lstrip t else s
  | [] => []
  end.

Definition rstrip (s : pystr) : pystr := rev (lstrip (rev s)).

(** [s.strip()] *)
Definition strip (s : pystr) : pystr := rstrip (lstrip s).

(** [s.startswith(p)] *)
Fixpoint prefixb (p s : pystr) : bool :=
  match p, s with
  | [], _ => true
  | x :: p', y :: s' => char_eqb x y && prefixb p' s'
  | _ :: _, [] => false
  end.

(** [needle in s] *)
Fixpoint contains (needle s : pystr) : bool :=
  prefixb needle s
  || match s with
     | [] => false
     | _ :: t => contains needle t
     end.

(** [s.split(sep)] for a non-empty [sep]: the text is cut at every
    occurrence of [sep], scanning left to right without overlap; [skip]
    counts the characters of a separator still to be passed over and [cur]
    holds the current part, reversed. *)
Fixpoint split_go (sep : pystr) (skip : nat) (cur s : pystr) : list pystr :=
  match s with
  | [] => [rev cur]
  | c :: t =>
      match skip with
      | S k => split_go sep k cur t
      | O =>
          if prefixb sep s
          then rev cur :: split_go sep (pred (List.length sep)) [] t
          else split_go sep 0 (c :: cur) t
      end
  end.

Definition split (sep s : pystr) : list pystr := split_go sep 0 [] s.

(** [s.replace(a, b)] for single characters. *)
Definition replace_char (a b : char) (s : pystr) : pystr :=
  map (fun c => if char_eqb c a then b else c) s.

Definition is_ascii (c : char) : bool := c <? 128.
Definition is_upper_ascii (c : char) : bool := (65 <=? c) && (c <=? 90).
Definition is_lower_ascii (c : char) : bool := (97 <=? c) && (c <=? 122).
Definition is_digit (c : char) : bool := (48 <=? c) && (c <=? 57).
Definition is_alnum_ascii (c : char) : bool :=
  is_digit c || is_upper_ascii c || is_lower_ascii c.

Definition ascii_lower (c : char) : char := if is_upper_ascii c then c + 32 else c.
Definition ascii_upper (c : char) : char := if is_lower_ascii c then c - 32 else c.

(** [str(n)] for a non-negative integer. *)
Definition str_of_N (n : N) : pystr :=
  map N_of_ascii (list_ascii_of_string (NilZero.string_of_uint (N.to_uint n))).

End PyStr.

Import PyStr.

Open Scope N_scope.

(** ** [src/models.py]

    A section field holds what the collaborator returned for it: a string,
    or [None] when the JSON carried [null] (assignment to a model field is
    not validated).  A FAQ entry is a [dict]; each of its two keys may be
    absent. *)

Module Models.

(** A JSON value used as HTML: [None] is Python's [None]. *)
Definition html := option pystr.

Record faq_dict : Type := mk_faq {
  question : option html;      (* [None]: the key is absent *)
  answer_html : option html    (* [None]: the key is absent *)
}.

Record ChildPageOutput : Type := mk_child {
  seo_meta_title : html;
  seo_meta_description : html;
  h1_heading : html;
  why_convert_section_html : html;
  from_unit_section_html : html;
  to_unit_section_html : html;
  examples_section_html : html;
  technical_details_html : html;
  faqs : list faq_dict
}.

(** Assignment to one field of the (mutable) model object. *)
Definition set_why_convert_section_html (v : html) (c : ChildPageOutput) :=
  mk_child (seo_meta_title c) (seo_meta_description c) (h1_heading c)
    v (from_unit_section_html c) (to_unit_section_html c)
    (examples_section_html c) (technical_details_html c) (faqs c).

Definition set_from_unit_section_html (v : html) (c : ChildPageOutput) :=
  mk_child (seo_meta_title c) (seo_meta_description c) (h1_heading c)
    (why_convert_section_html c) v (to_unit_section_html c)
    (examples_section_html c) (technical_details_html c) (faqs c).

Definition set_to_unit_section_html (v : html) (c : ChildPageOutput) :=
  mk_child (seo_meta_title c) (seo_meta_description c) (h1_heading c)
    (why_convert_section_html c) (from_unit_section_html c) v
    (examples_section_html c) (technical_details_html c) (faqs c).

Definition set_examples_section_html (v : html) (c : ChildPageOutput) :=
  mk_child (seo_meta_title c) (seo_meta_description c) (h1_heading c)
    (why_convert_section_html c) (from_unit_section_html c)
    (to_unit_section_html c) v (technical_details_html c) (faqs c).

Definition set_technical_details_html (v : html) (c : ChildPageOutput) :=
  mk_child (seo_meta_title c) (seo_meta_description c) (h1_heading c)
    (why_convert_section_html c) (from_unit_section_html c)
    (to_unit_section_html c) (examples_section_html c) v (faqs c).

Definition set_faqs (v : list faq_dict) (c : ChildPageOutput) :=
  mk_child (seo_meta_title c) (seo_meta_description c) (h1_heading c)
    (why_convert_section_html c) (from_unit_section_html c)
    (to_unit_section_html c) (examples_section_html c)
    (technical_details_html c) v.

(** [SectionName] of [src/section_regen.py]. *)
Inductive SectionName : Type :=
  | why_convert | from_unit | to_unit | examples | technical | faq_block.

Definition SectionName_eqb (a b : SectionName) : bool :=
  match a, b with
  | why_convert, why_convert | from_unit, from_unit | to_unit, to_unit
  | examples, examples | technical, technical | faq_block, faq_block => true
  | _, _ => false
  end.

End Models.

Import Models.

(** ** [src/validation.py] *)

Module Validation.

Definition LT : char := 60.
Definition GT : char := 62.

(** Distance from the character after a [<] to the first [>] at or after
    it, that [>] included; [None] when there is none. *)
Fixpoint tag_close (t : pystr) : option nat :=
  match t with
  | [] => None
  | c :: t' => if char_eqb c GT then Some 1%nat else option_map S (tag_close t')
  end.

(** [re.sub(r"<[^>]+>", " ", html)]: a match starts at a [<] that is
    followed by one or more characters other than [>] and then a [>];
    [skip] counts the characters of a match still to be dropped. *)
Fixpoint sub_tags_go (skip : nat) (s : pystr) : pystr :=
  match s with
  | [] => []
  | c :: t =>
      match skip with
      | S k => sub_tags_go k t
      | O =>
          if char_eqb c LT then
            match tag_close t with
            | Some (S (S k)) => SPACE :: sub_tags_go (S (S k)) t
            | _ => c :: sub_tags_go 0 t
            end
          else c :: sub_tags_go 0 t
      end
  end.

Definition sub_tags (s : pystr) : pystr := sub_tags_go 0 s.

(** [re.sub(r"\s+", " ", text)]; [in_ws] tells that the previous character
    belonged to a whitespace run already replaced. *)
Fixpoint sub_ws_go (in_ws : bool) (s : pystr) : pystr :=
  match s with
  | [] => []
  | c :: t =>
      if is_space c
      then if in_ws then sub_ws_go true t else SPACE :: sub_ws_go true t
      else c :: sub_ws_go false t
  end.

Definition sub_ws (s : pystr) : pystr := sub_ws_go false s.

Definition html_word_count (h : html) : N :=
  match h with
  | None | Some [] => 0
  | Some s =>
      let text := sub_tags s in
      let text := strip (sub_ws text) in
      match text with
      | [] => 0
      | _ => N.of_nat (List.length (split [SPACE] text))
      end
  end.

(** [lo <= wc <= hi] *)
Definition between (lo wc hi : N) : bool := (lo <=? wc) && (wc <=? hi).

(** [faq.get("answer_html", "")] *)
Definition get_answer_html (faq : faq_dict) : html :=
  match answer_html faq with
  | Some v => v
  | None => Some []
  end.

Definition faq_issue (idx : nat) (wc_ans : N) : pystr :=
  u "faqs[" ++ str_of_N (N.of_nat idx) ++ u "].answer_html: " ++ str_of_N wc_ans
    ++ u " words (expected 90–140).".

(** The loop [for idx, faq in enumerate(child.faqs)], started at [idx]. *)
Fixpoint faq_loop (idx : nat) (l : list faq_dict) (issues : list pystr) : list pystr :=
  match l with
  | [] => issues
  | faq :: rest =>
      let wc_ans := html_word_count (get_answer_html faq) in
      let issues :=
        if negb (between 90 wc_ans 140)
        then issues ++ [faq_issue idx wc_ans]
        else issues in
      faq_loop (S idx) rest issues
  end.

Definition validate_child_lengths (child : ChildPageOutput) : list pystr :=
  let issues := [] in
  let wc_why := html_word_count (why_convert_section_html child) in
  let issues :=
    if negb (between 220 wc_why 260)
    then issues ++ [u "why_convert_section_html: " ++ str_of_N wc_why
                      ++ u " words (expected 220–260)."]
    else issues in
  let wc_from := html_word_count (from_unit_section_html child) in
  let issues :=
    if negb (between 230 wc_from 290)
    then issues ++ [u "from_unit_section_html: " ++ str_of_N wc_from
                      ++ u " words (expected 230–290)."]
    else issues in
  let wc_to := html_word_count (to_unit_section_html child) in
  let issues :=
    if negb (between 230 wc_to 290)
    then issues ++ [u "to_unit_section_html: " ++ str_of_N wc_to
                      ++ u " words (expected 230–290)."]
    else issues in
  let wc_examples := html_word_count (examples_section_html child) in
  let issues :=
    if negb (between 90 wc_examples 200)
    then issues ++ [u "examples_section_html: " ++ str_of_N wc_examples
                      ++ u " words (expected 90–200)."]
    else issues in
  let wc_tech := html_word_count (technical_details_html child) in
  let issues :=
    if negb (between 150 wc_tech 200)
    then issues ++ [u "technical_details_html: " ++ str_of_N wc_tech
                      ++ u " words (expected 150–200)."]
    else issues in
  faq_loop 0 (faqs child) issues.

End Validation.

Import Validation.

(** ** [scripts/batch_generate_children_from_csv.py]: label helpers *)

Module Labels.

Section CaseMapping.

(** [str.lower()] and [str.upper()] map the ASCII letters as below.  On a
    string holding any code point beyond ASCII they follow the Unicode case
    tables, which are left as parameters. *)
Variable unicode_lower : pystr -> pystr.
Variable unicode_upper : pystr -> pystr.

Definition lower (s : pystr) : pystr :=
  if forallb is_ascii s then map ascii_lower s else unicode_lower s.

Definition upper (s : pystr) : pystr :=
  if forallb is_ascii s then map ascii_upper s else unicode_upper s.

Definition SPECIAL_CODES : list (pystr * pystr) :=
  [ (u "Square Meter", u "SQ_M");
    (u "Square Meter ", u "SQ_M");
    (u "Square Meteres", u "SQ_M");
    (u "Square Meters", u "SQ_M");
    (u "Square Feet", u "SQ_FT");
    (u "Square Foot", u "SQ_FT");
    (u " Square Feet", u "SQ_FT");
    (u " Square Foot", u "SQ_FT");
    (u "Square Yard", u "SQ_YD");
    (u " Square Yard", u "SQ_YD");
    (u "Square Inch", u "SQ_IN");
    (u "Square Kilometer", u "SQ_KM");
    (u "Square Mile", u "SQ_MI");
    (u "Acre", u "ACRE");
    (u "Hectare", u "HECTARE") ].

(** A [dict] keeps its insertion order; [.items()] walks this list. *)
Definition REGION_TO_CITY : list (pystr * pystr) :=
  [ (u "Assam", u "Guwahati");
    (u "Bengal", u "Kolkata");
    (u "Bihar", u "Patna");
    (u "Jharkhand", u "Ranchi");
    (u "Tripura", u "Agartala");
    (u "Gujarat", u "Ahmedabad");
    (u "Rajasthan", u "Jaipur");
    (u "Punjab", u "Chandigarh");
    (u "Haryana", u "Gurugram");
    (u "HP", u "Shimla");
    (u "Himachal", u "Shimla");
    (u "Uttarakhand", u "Dehradun");
    (u "UP", u "Lucknow");
    (u "MP", u "Bhopal") ].

(** [d[k]] guarded by [k in d] *)
Fixpoint dict_get (d : list (pystr * pystr)) (k : pystr) : option pystr :=
  match d with
  | [] => None
  | (k', v) :: rest => if str_eqb k' k then Some v else dict_get rest k
  end.

Definition UNDERSCORE : char := 95.
Definition HYPHEN : char := 45.

(** [re.sub(r"[^0-9a-zA-Z]+", "_", clean)] *)
Fixpoint sub_nonalnum_go (in_run : bool) (s : pystr) : pystr :=
  match s with
  | [] => []
  | c :: t =>
      if is_alnum_ascii c then c :: sub_nonalnum_go false t
      else if in_run then sub_nonalnum_go true t
      else UNDERSCORE :: sub_nonalnum_go true t
  end.

Fixpoint lstrip_char (x : char) (s : pystr) : pystr :=
  match s with
  | c :: t => if char_eqb c x then lstrip_char x t else s
  | [] => []
  end.

(** [s.strip("_")] for a one-character argument *)
Definition strip_char (x : char) (s : pystr) : pystr :=
  rev (lstrip_char x (rev (lstrip_char x s))).

Definition normalize_unit_code (label : pystr) : pystr :=
  let clean := strip label in
  match dict_get SPECIAL_CODES clean with
  | Some code => code
  | None =>
      let base := sub_nonalnum_go false clean in
      let base := strip_char UNDERSCORE base in
      upper base
  end.

Definition EN_DASH : pystr := u "–".
Definition EM_DASH : pystr := u "—".
Definition HYPHEN_MINUS : pystr := u "-".

(** [[p.strip() for p in name.split(sep) if p.strip()]] *)
Definition region_parts (sep name : pystr) : list pystr :=
  map strip (filter (fun p => negb (str_eqb (strip p) [])) (split sep name)).

(** The [for sep in [...]] loop of [extract_region]. *)
Fixpoint extract_region_loop (seps : list pystr) (name : pystr) : option pystr :=
  match seps with
  | [] => None
  | sep :: rest =>
      if contains sep name then
        let parts := region_parts sep name in
        if (2 <=? List.length parts)%nat
        then Some (last parts [])
        else extract_region_loop rest name
      else extract_region_loop rest name
  end.

Definition extract_region (label : pystr) : option pystr :=
  let name := strip label in
  extract_region_loop [EN_DASH; EM_DASH; HYPHEN_MINUS] name.

(** The inner loop of [guess_city] over [REGION_TO_CITY.items()]. *)
Fixpoint guess_city_in (table : list (pystr * pystr)) (label : pystr) : option pystr :=
  match table with
  | [] => None
  | (region_key, city) :: rest =>
      if contains (lower region_key) (lower label)
      then Some city
      else guess_city_in rest label
  end.

(** The outer loop of [guess_city] over [candidates]. *)
Fixpoint guess_city_loop (candidates : list pystr) : option pystr :=
  match candidates with
  | [] => None
  | label :: rest =>
      match guess_city_in REGION_TO_CITY label with
      | Some city => Some city
      | None => guess_city_loop rest
      end
  end.

Definition guess_city (from_label to_label default_city : pystr) : pystr :=
  let candidates := [from_label; to_label] in
  match guess_city_loop candidates with
  | Some city => city
  | None => default_city
  end.

Definition build_slug (from_code to_code : pystr) : pystr :=
  let norm := fun c => replace_char UNDERSCORE HYPHEN (lower c) in
  norm from_code ++ u "-to-" ++ norm to_code.

End CaseMapping.

(** A Python [set] of section names: its distinct members, in the order
    they were first added. *)
Definition pyset := list SectionName.

Definition set_mem (x : SectionName) (s : pyset) : bool :=
  existsb (SectionName_eqb x) s.

(** [sections.add(x)] *)
Definition set_add (x : SectionName) (s : pyset) : pyset :=
  if set_mem x s then s else s ++ [x].

(** The [if]/[elif] chain applied to one message. *)
Definition section_of_issue (msg : pystr) : option SectionName :=
  if contains (u "why_convert_section_html") msg then Some why_convert
  else if contains (u "from_unit_section_html") msg then Some from_unit
  else if contains (u "to_unit_section_html") msg then Some to_unit
  else if contains (u "examples_section_html") msg then Some examples
  else if contains (u "technical_details_html") msg then Some technical
  else if contains (u "faqs[") msg then Some faq_block
  else None.

Fixpoint section_names_loop (issues : list pystr) (sections : pyset) : pyset :=
  match issues with
  | [] => sections
  | msg :: rest =>
      let sections :=
        match section_of_issue msg with
        | Some s => set_add s sections
        | None => sections
        end in
      section_names_loop rest sections
  end.

Definition section_names_from_issues (issues : list pystr) : pyset :=
  section_names_loop issues [].

End Labels.

Import Labels.

(** ** Effects

    The program talks to a text generator, reads the clock, writes preview
    files, prints, and upserts into a document store.  The generator and
    the clock are an external state [oracle] with transition functions
    (parameters of the development); everything the program emits is
    appended to a trace.  Exceptions are results. *)

Module Effects.

Inductive exn : Type :=
  | KeyError (key : pystr)
  | CollaboratorError          (* the call to the text generator raised *)
  | SystemExit (msg : pystr)
  | AttributeError             (* [.strip()] on a value that is not a [str] *)
  | ValueError                 (* [float(s)] on a text that is not a number *)
  | OverflowError              (* [float(n)] on an [int] too large for a float *)
  | TypeError.                 (* [float(None)] *)

Inductive result (A : Type) : Type :=
  | Ok (a : A)
  | Raise (e : exn).

Arguments Ok {A} a.
Arguments Raise {A} e.

Section Monad.

Variable world : Type.

Definition M (A : Type) : Type := world -> result A * world.

Definition ret {A} (a : A) : M A := fun w => (Ok a, w).

Definition raise {A} (e : exn) : M A := fun w => (Raise e, w).

Definition bind {A B} (c : M A) (k : A -> M B) : M B :=
  fun w =>
    match c w with
    | (Ok a, w') => k a w'
    | (Raise e, w') => (Raise e, w')
    end.

End Monad.

Arguments ret {world A} a.
Arguments raise {world A} e.
Arguments bind {world A B} c k.

End Effects.

Import Effects.

Declare Scope py_scope.
Delimit Scope py_scope with py.
Notation "x <- c1 ;; c2" := (bind c1 (fun x => c2))
  (at level 61, c1 at next level, right associativity) : py_scope.
Notation "c1 ;;; c2" := (bind c1 (fun _ => c2))
  (at level 61, right associativity) : py_scope.

(** ** [src/mappers.py] *)

Module Mappers.

Definition datetime := N.

Record seo_doc : Type := mk_seo {
  metaTitle : html;
  metaDescription : html;
  h1Heading : html;
  canonicalUrl : pystr
}.

Record why_convert_doc : Type := mk_why {
  why_sectionHeading : pystr;
  explanationHtml : html
}.

Record standalone_doc : Type := mk_standalone {
  unitCode : pystr;
  sectionHeading : pystr;
  descriptionHtml : html;
  sectionKey : pystr;
  sortOrder : N
}.

Record faq_doc : Type := mk_faq_doc {
  faq_question : html;
  answerHtml : html;
  isActive : bool;
  faq_sortOrder : N
}.

Record technical_doc : Type := mk_technical {
  technicalExplanationHtml : html;
  conversionTableRows : list unit;
  precisionNotesHtml : pystr
}.

Record page_settings : Type := mk_settings {
  noIndex : bool;
  includeInSitemap : bool;
  enableSchemaMarkup : bool;
  showBreadcrumbs : bool;
  pagePriority_tenths : N;       (* 0.7 *)
  changeFrequency : pystr
}.

Record mongo_doc : Type := mk_doc {
  parentSlug : pystr;
  slug : pystr;
  urlPath : pystr;
  fromUnitCode : pystr;
  toUnitCode : pystr;
  locale : pystr;
  siteCode : pystr;
  status : pystr;
  version : N;
  createdAt : datetime;
  updatedAt : datetime;
  lastUpdatedDisplayDate : datetime;
  seo : seo_doc;
  popularConversions : list unit;
  whyConvertSection : why_convert_doc;
  standaloneSections : list standalone_doc;
  doc_faqs : list faq_doc;
  examplesSection_contentHtml : html;
  technicalDetailsSection : technical_doc;
  pageSettings : page_settings
}.

(** The comprehension over [enumerate(ai.faqs)], started at [idx]:
    [faq["question"]] and [faq["answer_html"]] raise [KeyError] on an
    absent key. *)
Fixpoint build_faqs (idx : nat) (l : list faq_dict) : result (list faq_doc) :=
  match l with
  | [] => Ok []
  | faq :: rest =>
      match question faq with
      | None => Raise (KeyError (u "question"))
      | Some q =>
          match answer_html faq with
          | None => Raise (KeyError (u "answer_html"))
          | Some a =>
              match build_faqs (S idx) rest with
              | Ok docs => Ok (mk_faq_doc q a true (N.of_nat idx + 1) :: docs)
              | Raise e => Raise e
              end
          end
      end
  end.

(** [build_child_mongo_doc] with [status], [version] and
    [last_updated_display_date] at their defaults; [now] is the value of
    [datetime.utcnow()] read on entry. *)
Definition build_child_mongo_doc (now : datetime) (ai : ChildPageOutput)
    (parent_slug slug url_path from_unit_code to_unit_code
       from_unit_label to_unit_label locale site_code : pystr)
  : result mongo_doc :=
  let last_display := now in
  match build_faqs 0 (faqs ai) with
  | Raise e => Raise e
  | Ok faq_docs =>
      Ok {|
        parentSlug := parent_slug;
        slug := slug;
        urlPath := url_path;
        fromUnitCode := from_unit_code;
        toUnitCode := to_unit_code;
        locale := locale;
        siteCode := site_code;
        status := u "draft";
        version := 1;
        createdAt := now;
        updatedAt := now;
        lastUpdatedDisplayDate := last_display;
        seo := {|
          metaTitle := seo_meta_title ai;
          metaDescription := seo_meta_description ai;
          h1Heading := h1_heading ai;
          canonicalUrl := u "https://www.squareyards.com" ++ url_path |};
        popularConversions := [];
        whyConvertSection := {|
          why_sectionHeading :=
            u "Why convert " ++ from_unit_label ++ u " to " ++ to_unit_label ++ u "?";
          explanationHtml := why_convert_section_html ai |};
        standaloneSections := [
          {| unitCode := from_unit_code;
             sectionHeading := u "What is " ++ from_unit_label ++ u "?";
             descriptionHtml := from_unit_section_html ai;
             sectionKey := u "fromUnit";
             sortOrder := 1 |};
          {| unitCode := to_unit_code;
             sectionHeading := u "What is " ++ to_unit_label ++ u "?";
             descriptionHtml := to_unit_section_html ai;
             sectionKey := u "toUnit";
             sortOrder := 2 |} ];
        doc_faqs := faq_docs;
        examplesSection_contentHtml := examples_section_html ai;
        technicalDetailsSection := {|
          technicalExplanationHtml := technical_details_html ai;
          conversionTableRows := [];
          precisionNotesHtml := [] |};
        pageSettings := {|
          noIndex := false;
          includeInSitemap := true;
          enableSchemaMarkup := true;
          showBreadcrumbs := true;
          pagePriority_tenths := 7;
          changeFrequency := u "monthly" |}
      |}
  end.

End Mappers.

Import Mappers.

(** ** [scripts/batch_generate_children_from_csv.py]: the core batch logic *)

Module Batch.

(** The [payload] dict handed to [generate_child_content]. *)
Record payload : Type := mk_payload {
  p_from_unit_code : pystr;
  p_to_unit_code : pystr;
  p_from_unit_label : pystr;
  p_to_unit_label : pystr;
  p_factor_to_unit : spec_float;
  p_from_unit_region : pystr;
  p_to_unit_region : pystr;
  p_city_name : pystr;
  p_direction_note : pystr
}.

(** The keyword arguments of [regenerate_section] besides [section]. *)
Record regen_args : Type := mk_regen_args {
  r_from_unit_code : pystr;
  r_to_unit_code : pystr;
  r_from_unit_label : pystr;
  r_to_unit_label : pystr;
  r_factor_to_unit : spec_float;
  r_from_unit_region : pystr;
  r_to_unit_region : pystr;
  r_city_name : pystr
}.

(** The [dict] a section regeneration returns; [None] marks an absent key. *)
Record regen_dict : Type := mk_regen {
  regen_why_convert_section_html : option html;
  regen_from_unit_section_html : option html;
  regen_to_unit_section_html : option html;
  regen_examples_section_html : option html;
  regen_technical_details_html : option html;
  regen_faqs : option (list faq_dict)
}.

(** What [render_child_html_page] interpolates into its fixed template. *)
Record html_page : Type := mk_page {
  page_ai_output : ChildPageOutput;
  page_slug : pystr;
  page_from_label : pystr;
  page_to_label : pystr;
  page_factor : spec_float;
  page_locale : pystr;
  page_site_code : pystr;
  page_url_path : pystr
}.

(** What [df.at[i, col_label]] yields on a frame read by
    [pandas.read_csv], by the Python class of the value.  A column of
    whole numbers holds [numpy.int64] values and a column of truth values
    [numpy.bool_] values, neither of which is an instance of [int] or
    [float]; [numpy.float64] is a subclass of [float].  A column that
    holds some text holds [str] values, the [float] [nan] for its blanks
    and, when the file is read in several chunks, Python numbers. *)
Inductive cell : Type :=
  | CNone                       (* [None] *)
  | CFloat (f : spec_float)     (* a [float], [numpy.float64] included *)
  | CInt64 (z : Z)              (* a [numpy.int64] *)
  | CPyInt (z : Z)              (* an [int] *)
  | CBool_ (b : bool)           (* a [numpy.bool_] *)
  | CPyBool (b : bool)          (* a [bool], which is an [int] *)
  | CStr (s : pystr).           (* a [str] *)

(** An element of [df[row_label_col].tolist()]: a [str], or a value of
    another class (a number, a truth value, the [nan] of a blank) given by
    the text [str] makes of it. *)
Inductive label : Type :=
  | LStr (s : pystr)
  | LOther (text : pystr).

Inductive message : Type :=
  | MsgHtmlWritten (path : pystr)
  | MsgJson (doc : mongo_doc)          (* [json.dumps(mongo_doc, ...)] *)
  | MsgProcessing (n : Z) (from_label to_label : pystr) (factor : cell)
  | MsgStatusOk
  | MsgStatusIssues
  | MsgIssue (issue : pystr)
  | MsgSummary (processed successes failures : Z).

(** The upsert filter [{parentSlug, slug, locale, siteCode}]. *)
Definition upsert_key : Type := (pystr * pystr * pystr * pystr)%type.

Inductive event : Type :=
  | EvGenerate (p : payload)
  | EvRegenerate (section : SectionName) (a : regen_args)
  | EvMkdir (dir : pystr)
  | EvWriteText (path : pystr) (page : html_page)
  | EvPrint (m : message)
  | EvUpdateOne (key : upsert_key) (doc : mongo_doc).

Definition is_regenerate (s : SectionName) (e : event) : bool :=
  match e with
  | EvRegenerate s' _ => SectionName_eqb s s'
  | _ => false
  end.

Definition is_any_regenerate (e : event) : bool :=
  match e with
  | EvRegenerate _ _ => true
  | _ => false
  end.

Section World.

Variable unicode_lower : pystr -> pystr.
Variable unicode_upper : pystr -> pystr.

(** [float(s)] for a [str]: the number the text denotes, [None] when
    Python raises [ValueError]. *)
Variable float_of_str : pystr -> option spec_float.

(** The state of the outside world and its answers: [None] stands for a
    raised exception. *)
Variable oracle : Type.
Variable generate_child_content_ext :
  payload -> oracle -> option ChildPageOutput * oracle.
Variable regenerate_section_ext :
  SectionName -> regen_args -> oracle -> option regen_dict * oracle.
Variable utcnow_ext : oracle -> datetime * oracle.

(** Iteration order of a [set] of strings: some enumeration of its
    members, which depends on the per-process string hashing. *)
Variable set_iter : pyset -> list SectionName.

Record world : Type := mk_world {
  ext : oracle;
  trace : list event      (* oldest event first *)
}.

Definition emit (e : event) : M world unit :=
  fun w => (Ok tt, mk_world (ext w) (trace w ++ [e])).

Definition print (m : message) : M world unit := emit (EvPrint m).

Definition lift {A} (r : result A) : M world A :=
  match r with
  | Ok a => ret a
  | Raise e => raise e
  end.

Definition generate_child_content (p : payload) : M world ChildPageOutput :=
  fun w =>
    let '(r, o) := generate_child_content_ext p (ext w) in
    let w' := mk_world o (trace w ++ [EvGenerate p]) in
    match r with
    | Some c => (Ok c, w')
    | None => (Raise CollaboratorError, w')
    end.

Definition regenerate_section (section : SectionName) (a : regen_args)
  : M world regen_dict :=
  fun w =>
    let '(r, o) := regenerate_section_ext section a (ext w) in
    let w' := mk_world o (trace w ++ [EvRegenerate section a]) in
    match r with
    | Some d => (Ok d, w')
    | None => (Raise CollaboratorError, w')
    end.

Definition utcnow : M world datetime :=
  fun w =>
    let '(t, o) := utcnow_ext (ext w) in (Ok t, mk_world o (trace w)).

(** [regen[key]] *)
Definition getitem {A} (key : pystr) (v : option A) : M world A :=
  match v with
  | Some a => ret a
  | None => raise (KeyError key)
  end.

Open Scope py_scope.

(** The body of [for section in section_names]: one regeneration and the
    assignment of its result to the matching field. *)
Definition regen_one (a : regen_args) (section : SectionName)
    (ai_output : ChildPageOutput) : M world ChildPageOutput :=
  regen <- regenerate_section section a ;;
  match section with
  | why_convert =>
      v <- getitem (u "why_convert_section_html")
             (regen_why_convert_section_html regen) ;;
      ret (set_why_convert_section_html v ai_output)
  | from_unit =>
      v <- getitem (u "from_unit_section_html")
             (regen_from_unit_section_html regen) ;;
      ret (set_from_unit_section_html v ai_output)
  | to_unit =>
      v <- getitem (u "to_unit_section_html")
             (regen_to_unit_section_html regen) ;;
      ret (set_to_unit_section_html v ai_output)
  | examples =>
      v <- getitem (u "examples_section_html")
             (regen_examples_section_html regen) ;;
      ret (set_examples_section_html v ai_output)
  | technical =>
      v <- getitem (u "technical_details_html")
             (regen_technical_details_html regen) ;;
      ret (set_technical_details_html v ai_output)
  | faq_block =>
      v <- getitem (u "faqs") (regen_faqs regen) ;;
      ret (set_faqs v ai_output)
  end.

(** [for section in section_names: ...] over the order the set yields. *)
Fixpoint regen_sections (a : regen_args) (order : list SectionName)
    (ai_output : ChildPageOutput) : M world ChildPageOutput :=
  match order with
  | [] => ret ai_output
  | section :: rest =>
      ai_output <- regen_one a section ai_output ;;
      regen_sections a rest ai_output
  end.

(** One iteration of [for _ in range(max_fix_passes)] past its [break]
    test: regenerate the failing sections, then validate again. *)
Definition fix_pass (a : regen_args) (ai_output : ChildPageOutput)
    (issues : list pystr) : M world (ChildPageOutput * list pystr) :=
  let section_names := section_names_from_issues issues in
  ai_output <- regen_sections a (set_iter section_names) ai_output ;;
  let issues := validate_child_lengths ai_output in
  ret (ai_output, issues).

(** [for _ in range(max_fix_passes): if not issues: break; ...] with
    [passes] iterations left. *)
Fixpoint fix_loop (passes : nat) (a : regen_args) (ai_output : ChildPageOutput)
    (issues : list pystr) : M world (ChildPageOutput * list pystr) :=
  match passes with
  | O => ret (ai_output, issues)
  | S k =>
      match issues with
      | [] => ret (ai_output, issues)
      | _ :: _ =>
          r <- fix_pass a ai_output issues ;;
          fix_loop k a (fst r) (snd r)
      end
  end.

(** The validate-and-repair part of [process_pair]: the first validation
    and the block under [if issues and auto_fix_lengths]. *)
Definition repair (a : regen_args) (auto_fix_lengths : bool) (max_fix_passes : Z)
    (ai_output : ChildPageOutput) : M world (ChildPageOutput * list pystr) :=
  let issues := validate_child_lengths ai_output in
  match issues with
  | _ :: _ =>
      if auto_fix_lengths
      then fix_loop (Z.to_nat max_fix_passes) a ai_output issues
      else ret (ai_output, issues)
  | [] => ret (ai_output, issues)
  end.

(** Command-line settings that [process_pair] and [main] consult. *)
Record settings : Type := mk_settings_cli {
  default_city : pystr;
  default_locale : pystr;
  site_code : pystr;
  limit_pairs : Z;
  auto_fix_lengths : bool;
  max_fix_passes : Z;
  preview_only : bool;
  html_out_dir : option pystr
}.

Definition direction_note (from_label to_label : pystr) : pystr :=
  u "This page is specifically about converting FROM " ++ from_label
    ++ u " TO " ++ to_label
    ++ u ". Make the content clearly directional and do not write generic text that would equally fit the reverse ("
    ++ to_label ++ u " to " ++ from_label ++ u ").".

(** [extract_region(label) or "Pan-India"]: an empty string is falsy too. *)
Definition region_or_pan_india (label : pystr) : pystr :=
  match extract_region label with
  | Some (c :: r) => c :: r
  | _ => u "Pan-India"
  end.

(** The rest of [process_pair] once validation and repair are over: build
    the document, write the optional HTML preview, then print or upsert. *)
Definition persist (from_code to_code from_label to_label : pystr)
    (factor : spec_float) (args : settings)
    (ai_output : ChildPageOutput) (issues : list pystr)
  : M world (bool * list pystr) :=
  let slug := build_slug unicode_lower from_code to_code in
  let url_path := u "/area-convertor/" ++ slug in
  now <- utcnow ;;
  mongo_doc <- lift (build_child_mongo_doc now ai_output (u "area-convertor") slug
                       url_path from_code to_code from_label to_label
                       (default_locale args) (site_code args)) ;;
  match html_out_dir args with
   | Some dir =>
       emit (EvMkdir dir) ;;;
       let html_str := mk_page ai_output slug from_label to_label factor
                         (default_locale args) (site_code args) url_path in
       let html_path := dir ++ u "/" ++ slug ++ u ".html" in
       emit (EvWriteText html_path html_str) ;;;
       print (MsgHtmlWritten html_path)
   | None => ret tt
   end ;;;
  (if preview_only args
   then print (MsgJson mongo_doc)
   else emit (EvUpdateOne (parentSlug mongo_doc, Mappers.slug mongo_doc,
                             locale mongo_doc, siteCode mongo_doc) mongo_doc)) ;;;
  let success := match issues with [] => true | _ => false end in
  ret (success, issues).

(** The arguments [process_pair] derives from the two labels. *)
Definition pair_payload (row_label col_label : pystr) (factor : spec_float)
    (args : settings) : payload :=
  let from_label := strip row_label in
  let to_label := strip col_label in
  let from_code := normalize_unit_code unicode_upper from_label in
  let to_code := normalize_unit_code unicode_upper to_label in
  let from_region := region_or_pan_india from_label in
  let to_region := region_or_pan_india to_label in
  let city_name := guess_city unicode_lower from_label to_label (default_city args) in
  mk_payload from_code to_code from_label to_label factor
    from_region to_region city_name (direction_note from_label to_label).

(** The keyword arguments every [regenerate_section] call of a pair gets. *)
Definition pair_regen_args (p : payload) : regen_args :=
  mk_regen_args (p_from_unit_code p) (p_to_unit_code p) (p_from_unit_label p)
    (p_to_unit_label p) (p_factor_to_unit p) (p_from_unit_region p)
    (p_to_unit_region p) (p_city_name p).

Definition process_pair (row_label col_label : pystr) (factor : spec_float)
    (args : settings) : M world (bool * list pystr) :=
  let payload := pair_payload row_label col_label factor args in
  ai_output <- generate_child_content payload ;;
  r <- repair (pair_regen_args payload) (auto_fix_lengths args)
         (max_fix_passes args) ai_output ;;
  persist (p_from_unit_code payload) (p_to_unit_code payload)
    (p_from_unit_label payload) (p_to_unit_label payload) factor args
    (fst r) (snd r).

(** The matrix read from the CSV: the header without its first column
    (column names are [str]), and each row's label with its cells. *)
Record matrix : Type := mk_matrix {
  col_labels : list pystr;
  rows : list (label * list cell)
}.

Record counters : Type := mk_counters {
  processed : Z;
  successes : Z;
  failures : Z
}.

(** [math.isnan(f)] *)
Definition isnan (f : spec_float) : bool :=
  match f with S754_nan => true | _ => false end.

(** [f == 0] for a float: either zero. *)
Definition float_is_zero (f : spec_float) : bool :=
  match f with S754_zero _ => true | _ => false end.

(** [factor is None or (isinstance(factor, float) and math.isnan(factor))] *)
Definition is_blank (factor : cell) : bool :=
  match factor with
  | CNone => true
  | CFloat f => isnan f
  | _ => false
  end.

(** [isinstance(factor, (int, float)) and factor == 0] *)
Definition is_zero (factor : cell) : bool :=
  match factor with
  | CFloat f => float_is_zero f
  | CPyInt z => (z =? 0)%Z
  | CPyBool b => negb b
  | CNone | CInt64 _ | CBool_ _ | CStr _ => false
  end.

(** [str(row_label)] *)
Definition str_of_label (row_label : label) : pystr :=
  match row_label with
  | LStr s => s
  | LOther text => text
  end.

(** [row_label.strip()] *)
Definition label_strip (row_label : label) : result pystr :=
  match row_label with
  | LStr s => Ok (strip s)
  | LOther _ => Raise AttributeError
  end.

(** A cell that [main] skips: blank or zero factor, or a self-pair. *)
Definition skipped (row_label : label) (col_label : pystr) (factor : cell) : bool :=
  is_blank factor || is_zero factor
  || str_eqb (strip (str_of_label row_label)) (strip col_label).

(** The float nearest to a whole number, ties to even. *)
Definition float_of_Z (z : Z) : spec_float := binary_normalize 53 1024 z 0 false.

(** [float(factor)] *)
Definition float_of_cell (factor : cell) : result spec_float :=
  match factor with
  | CNone => Raise TypeError
  | CFloat f => Ok f
  | CInt64 z => Ok (float_of_Z z)
  | CPyInt z =>
      match float_of_Z z with
      | S754_infinity _ => Raise OverflowError
      | f => Ok f
      end
  | CBool_ b | CPyBool b => Ok (float_of_Z (if b then 1 else 0))
  | CStr s =>
      match float_of_str s with
      | Some f => Ok f
      | None => Raise ValueError
      end
  end.

(** Truthiness of [args.limit_pairs]. *)
Definition limit_on (args : settings) : bool := negb (limit_pairs args =? 0)%Z.

Fixpoint print_issues (issues : list pystr) : M world unit :=
  match issues with
  | [] => ret tt
  | issue :: rest => print (MsgIssue issue) ;;; print_issues rest
  end.

(** [for col_label in col_labels: ...] for one row; [break] returns.  The
    header line is formatted before [float(factor)] is evaluated for the
    call of [process_pair]. *)
Fixpoint row_loop (args : settings) (row_label : label)
    (cells : list (pystr * cell)) (st : counters) : M world counters :=
  match cells with
  | [] => ret st
  | (col_label, factor) :: rest =>
      if is_blank factor then row_loop args row_label rest st
      else if is_zero factor then row_loop args row_label rest st
      else if str_eqb (strip (str_of_label row_label)) (strip col_label)
      then row_loop args row_label rest st
      else
        let processed := (processed st + 1)%Z in
        if limit_on args && (limit_pairs args <? processed)%Z
        then ret (mk_counters processed (successes st) (failures st))
        else
          from_label <- lift (label_strip row_label) ;;
          print (MsgProcessing processed from_label (strip col_label) factor) ;;;
          factor_float <- lift (float_of_cell factor) ;;
          r <- process_pair (str_of_label row_label) col_label factor_float args ;;
          if fst r then
            print MsgStatusOk ;;;
            row_loop args row_label rest
              (mk_counters processed (successes st + 1)%Z (failures st))
          else
            print MsgStatusIssues ;;;
            print_issues (snd r) ;;;
            row_loop args row_label rest
              (mk_counters processed (successes st) (failures st + 1)%Z)
  end.

(** [for i, row_label in enumerate(row_labels): ...] *)
Fixpoint table_loop (args : settings) (cols : list pystr)
    (rs : list (label * list cell)) (st : counters) : M world counters :=
  match rs with
  | [] => ret st
  | (row_label, cells) :: rest =>
      st <- row_loop args row_label (combine cols cells) st ;;
      if limit_on args && (limit_pairs args <=? processed st)%Z
      then ret st
      else table_loop args cols rest st
  end.

(** [main]; [df] is [None] when the CSV file does not exist.  The final
    counters are returned besides being printed. *)
Definition main (args : settings) (csv_path : pystr) (df : option matrix)
  : M world counters :=
  match df with
  | None => raise (SystemExit (u "CSV not found at: " ++ csv_path))
  | Some df =>
      st <- table_loop args (col_labels df) (rows df) (mk_counters 0 0 0) ;;
      print (MsgSummary (processed st) (successes st) (failures st)) ;;;
      ret st
  end.

End World.

End Batch.

Import Batch.

(** ** [src/models.py] and [src/mappers.py]: the landing page *)

Module Landing.

(** An entry of [highlight_blocks]: a [dict]; each key may be absent. *)
Record block_dict : Type := mk_block {
  heading : option html;        (* [None]: the key is absent *)
  subheading : option html      (* [None]: the key is absent *)
}.

Record LandingPageOutput : Type := mk_landing {
  landing_seo_meta_title : html;
  landing_seo_meta_description : html;
  landing_h1_heading : html;
  description_section_html : html;
  highlight_blocks : list block_dict;
  major_units_copy_html : html;
  formulas_section_html : html;
  landing_faqs : list faq_dict
}.

Record highlight_doc : Type := mk_highlight {
  blockKey : pystr;
  isVisible : bool;
  block_heading : html;
  block_subheading : html;
  block_sortOrder : N
}.

Record description_doc : Type := mk_description {
  description_sectionHeading : pystr;
  sectionSubheading : pystr;
  mainDescriptionHtml : html;
  highlightBlocks : list highlight_doc
}.

Record formulas_doc : Type := mk_formulas {
  showFormulasSection : bool;
  sectionTitle : pystr;
  sectionDescription : html;
  formulaExamples : list unit
}.

Record landing_doc : Type := mk_landing_doc {
  landing_slug : pystr;
  pageType : pystr;
  landing_locale : pystr;
  landing_siteCode : pystr;
  landing_status : pystr;
  landing_version : Z;
  landing_createdAt : datetime;
  landing_updatedAt : datetime;
  landing_seo : seo_doc;
  landing_popularConversions : list unit;
  descriptionSection : description_doc;
  majorUnits : list unit;
  formulasSection : formulas_doc;
  landing_doc_faqs : list faq_doc
}.

(** The comprehension over [enumerate(ai.highlight_blocks)], started at
    [idx]: [block["heading"]] and [block["subheading"]] raise [KeyError]
    on an absent key. *)
Fixpoint build_blocks (idx : nat) (l : list block_dict) : result (list highlight_doc) :=
  match l with
  | [] => Ok []
  | block :: rest =>
      match heading block with
      | None => Raise (KeyError (u "heading"))
      | Some h =>
          match subheading block with
          | None => Raise (KeyError (u "subheading"))
          | Some s =>
              match build_blocks (S idx) rest with
              | Ok docs =>
                  Ok (mk_highlight (u "BLOCK_" ++ str_of_N (N.of_nat idx + 1)) true h s
                        (N.of_nat idx + 1) :: docs)
              | Raise e => Raise e
              end
          end
      end
  end.

(** [build_landing_mongo_doc]; [now] is the value of [datetime.utcnow()]
    read on entry.  The keyword arguments default to ["area-convertor"],
    ["en-IN"], ["sqy-india-web"], ["draft"] and [1].  The entries of the
    dict literal are evaluated in order: the highlight blocks before the
    FAQ entries. *)
Definition build_landing_mongo_doc (now : datetime) (ai : LandingPageOutput)
    (slug locale site_code status : pystr) (version : Z) : result landing_doc :=
  match build_blocks 0 (highlight_blocks ai) with
  | Raise e => Raise e
  | Ok block_docs =>
      match build_faqs 0 (landing_faqs ai) with
      | Raise e => Raise e
      | Ok faq_docs =>
          Ok {|
            landing_slug := slug;
            pageType := u "landing";
            landing_locale := locale;
            landing_siteCode := site_code;
            landing_status := status;
            landing_version := version;
            landing_createdAt := now;
            landing_updatedAt := now;
            landing_seo := {|
              metaTitle := landing_seo_meta_title ai;
              metaDescription := landing_seo_meta_description ai;
              h1Heading := landing_h1_heading ai;
              canonicalUrl := u "https://www.squareyards.com/" ++ slug |};
            landing_popularConversions := [];
            descriptionSection := {|
              description_sectionHeading := u "About Our Area Converter Tool";
              sectionSubheading :=
                u "Quick and accurate area conversions for Indian real estate";
              mainDescriptionHtml := description_section_html ai;
              highlightBlocks := block_docs |};
            majorUnits := [];
            formulasSection := {|
              showFormulasSection := true;
              sectionTitle := u "Common Area Conversion Formulas";
              sectionDescription := formulas_section_html ai;
              formulaExamples := [] |};
            landing_doc_faqs := faq_docs
          |}
      end
  end.

End Landing.

Import Landing.

(** ** [src/generator.py] *)

Module Generator.

(** [s.replace(old, new)] for a non-empty [old]: every occurrence of
    [old], scanning left to right without overlap, gives way to [new];
    [skip] counts the characters of an occurrence still to be passed
    over. *)
Fixpoint replace_go (old new : pystr) (skip : nat) (s : pystr) : pystr :=
  match s with
  | [] => []
  | c :: t =>
      match skip with
      | S k => replace_go old new k t
      | O =>
          if prefixb old s
          then new ++ replace_go old new (pred (List.length old)) t
          else c :: replace_go old new 0 t
      end
  end.

Definition replace_str (old new s : pystr) : pystr := replace_go old new 0 s.

(** [x or default] for an optional string: [None] and the empty string
    are falsy. *)
Definition or_default (x : option pystr) (default : pystr) : pystr :=
  match x with
  | Some (c :: r) => c :: r
  | _ => default
  end.

(** [ChildPageInput] of [src/models.py], without its constant
    [page_type]. *)
Record ChildPageInput : Type := mk_child_input {
  in_from_unit_code : pystr;
  in_to_unit_code : pystr;
  in_from_unit_label : pystr;
  in_to_unit_label : pystr;
  in_factor_to_unit : option spec_float;
  in_from_unit_region : option pystr;
  in_to_unit_region : option pystr;
  in_city_name : option pystr;
  in_direction_note : option pystr
}.

Section Rendering.

(** [str(x)] for a float. *)
Variable float_str : spec_float -> pystr.

Definition render_child_prompt (template : pystr) (child_input : ChildPageInput)
  : pystr :=
  let text := template in
  let text := replace_str (u "{{from_unit_code}}") (in_from_unit_code child_input) text in
  let text := replace_str (u "{{from_unit_label}}") (in_from_unit_label child_input) text in
  let text := replace_str (u "{{to_unit_code}}") (in_to_unit_code child_input) text in
  let text := replace_str (u "{{to_unit_label}}") (in_to_unit_label child_input) text in
  let text :=
    replace_str (u "{{factor_to_unit}}")
      (match in_factor_to_unit child_input with
       | Some x => float_str x
       | None => u "N/A"
       end) text in
  let text :=
    replace_str (u "{{from_unit_region}}")
      (or_default (in_from_unit_region child_input) (u "Pan-India")) text in
  let text :=
    replace_str (u "{{to_unit_region}}")
      (or_default (in_to_unit_region child_input) (u "Pan-India")) text in
  let text :=
    replace_str (u "{{city_name}}")
      (or_default (in_city_name child_input) (u "a major Indian city")) text in
  let text :=
    replace_str (u "{{direction_note}}")
      (or_default (in_direction_note child_input) []) text in
  text.

End Rendering.

(** *** The command line of the module *)

Inductive page_type : Type := type_landing | type_child.     (* [--type] *)
Inductive output_mode : Type := mode_raw | mode_mongo.       (* [--mode] *)

Record generator_args : Type := mk_generator_args {
  arg_type : page_type;
  arg_mode : output_mode;
  arg_from_unit_code : option pystr;
  arg_to_unit_code : option pystr;
  arg_from_unit_label : option pystr;
  arg_to_unit_label : option pystr;
  arg_factor_to_unit : option spec_float;
  arg_from_unit_region : option pystr;
  arg_to_unit_region : option pystr;
  arg_city_name : option pystr;
  arg_validate_lengths : bool;
  arg_strict_lengths : bool
}.

(** What the module prints. *)
Inductive printed : Type :=
  | PrintLanding (p : LandingPageOutput)     (* [ai_output.model_dump_json(...)] *)
  | PrintLandingDoc (d : landing_doc)        (* [json.dumps(mongo_doc, ...)] *)
  | PrintChild (p : ChildPageOutput)
  | PrintChildDoc (d : mongo_doc)
  | PrintText (s : pystr).

(** [sep.join(parts)] *)
Fixpoint join (sep : pystr) (parts : list pystr) : pystr :=
  match parts with
  | [] => []
  | [p] => p
  | p :: rest => p ++ sep ++ join sep rest
  end.

Definition NEWLINE : pystr := [10].

(** Truthiness of an optional string argument. *)
Definition given (x : option pystr) : bool :=
  match x with
  | Some (_ :: _) => true
  | _ => false
  end.

Section CommandLine.

Variable unicode_lower : pystr -> pystr.

(** The outside world: [generate_landing_content] on the empty dict, and
    [generate_child_content] once its payload is read as a
    [ChildPageInput] (the prompt file, the call to the model and the
    parsing of its answer are the collaborator's); [None] stands for a
    raised exception. *)
Variable oracle : Type.
Variable generate_landing_content_ext : oracle -> option LandingPageOutput * oracle.
Variable generate_child_input_ext :
  ChildPageInput -> oracle -> option ChildPageOutput * oracle.
Variable utcnow_ext : oracle -> datetime * oracle.

(** The state of the world and what was printed so far. *)
Record console : Type := mk_console {
  console_ext : oracle;
  console_out : list printed      (* oldest first *)
}.

Definition say (p : printed) : M console unit :=
  fun w => (Ok tt, mk_console (console_ext w) (console_out w ++ [p])).

Definition generate_landing_content : M console LandingPageOutput :=
  fun w =>
    let '(r, o) := generate_landing_content_ext (console_ext w) in
    let w' := mk_console o (console_out w) in
    match r with
    | Some p => (Ok p, w')
    | None => (Raise CollaboratorError, w')
    end.

Definition generate_child_input (p : ChildPageInput) : M console ChildPageOutput :=
  fun w =>
    let '(r, o) := generate_child_input_ext p (console_ext w) in
    let w' := mk_console o (console_out w) in
    match r with
    | Some c => (Ok c, w')
    | None => (Raise CollaboratorError, w')
    end.

Definition console_utcnow : M console datetime :=
  fun w =>
    let '(t, o) := utcnow_ext (console_ext w) in (Ok t, mk_console o (console_out w)).

Definition console_lift {A} (r : result A) : M console A :=
  match r with
  | Ok a => ret a
  | Raise e => raise e
  end.

Open Scope py_scope.

(** The part of the child branch that follows the generation: the
    optional length validation, then the output. *)
Definition child_output (args : generator_args)
    (from_unit_code to_unit_code from_unit_label to_unit_label : pystr)
    (ai_output : ChildPageOutput) : M console unit :=
  (if arg_validate_lengths args || arg_strict_lengths args then
     let issues := validate_child_lengths ai_output in
     match issues with
     | [] => ret tt
     | _ :: _ =>
         let msg := join NEWLINE (u "Length validation issues:" :: issues) in
         if arg_strict_lengths args
         then raise (SystemExit msg)
         else say (PrintText msg)
     end
   else ret tt) ;;;
  match arg_mode args with
  | mode_raw => say (PrintChild ai_output)
  | mode_mongo =>
      let slug :=
        replace_char UNDERSCORE HYPHEN (lower unicode_lower from_unit_code)
          ++ u "-to-"
          ++ replace_char UNDERSCORE HYPHEN (lower unicode_lower to_unit_code) in
      let url_path := u "/area-convertor/" ++ slug in
      now <- console_utcnow ;;
      mongo_doc <- console_lift
                     (build_child_mongo_doc now ai_output (u "area-convertor") slug
                        url_path from_unit_code to_unit_code from_unit_label
                        to_unit_label (u "en-IN") (u "sqy-india-web")) ;;
      say (PrintChildDoc mongo_doc)
  end.

(** The block under [if __name__ == '__main__']: the landing branch,
    and the child branch with its test of the four required arguments
    (after which each of them is a non-empty string). *)
Definition generator_main (args : generator_args) : M console unit :=
  match arg_type args with
  | type_landing =>
      ai_output <- generate_landing_content ;;
      match arg_mode args with
      | mode_raw => say (PrintLanding ai_output)
      | mode_mongo =>
          now <- console_utcnow ;;
          mongo_doc <- console_lift
                         (build_landing_mongo_doc now ai_output (u "area-convertor")
                            (u "en-IN") (u "sqy-india-web") (u "draft") 1) ;;
          say (PrintLandingDoc mongo_doc)
      end
  | type_child =>
      if given (arg_from_unit_code args) && given (arg_to_unit_code args)
         && given (arg_from_unit_label args) && given (arg_to_unit_label args)
      then
        let from_unit_code := or_default (arg_from_unit_code args) [] in
        let to_unit_code := or_default (arg_to_unit_code args) [] in
        let from_unit_label := or_default (arg_from_unit_label args) [] in
        let to_unit_label := or_default (arg_to_unit_label args) [] in
        let payload :=
          mk_child_input from_unit_code to_unit_code from_unit_label to_unit_label
            (arg_factor_to_unit args) (arg_from_unit_region args)
            (arg_to_unit_region args) (arg_city_name args)
            (Some (direction_note from_unit_label to_unit_label)) in
        ai_output <- generate_child_input payload ;;
        child_output args from_unit_code to_unit_code from_unit_label to_unit_label
          ai_output
      else
        raise (SystemExit
                 (u "For child type, you must provide from/to unit codes and labels."))
  end.

End CommandLine.

End Generator.

Import Generator.

(** ** [src/section_regen.py] *)

Module SectionRegen.

(** The text of a section name. *)
Definition section_text (section : SectionName) : pystr :=
  match section with
  | why_convert => u "why_convert"
  | from_unit => u "from_unit"
  | to_unit => u "to_unit"
  | examples => u "examples"
  | technical => u "technical"
  | faq_block => u "faq_block"
  end.

Definition section_instruction_map (section : SectionName) : pystr :=
  match section with
  | why_convert =>
      u "Regenerate the WHY CONVERT section html, respecting the 220–260 word constraint."
  | from_unit =>
      u "Regenerate the FROM UNIT section html ('What is FROM'), 230–290 words, with history and usage domains."
  | to_unit =>
      u "Regenerate the TO UNIT section html ('What is TO'), 230–290 words, with history and usage domains."
  | examples =>
      u "Regenerate the EXAMPLES section html, 90–200 words, with 3–5 practical conversions."
  | technical =>
      u "Regenerate the TECHNICAL DETAILS section html, 150–200 words, with a clear explanation."
  | faq_block =>
      u "Regenerate the entire FAQ block as an array of 4–5 FAQs (question + answer_html), each answer 90–140 words."
  end.

Definition DQUOTE : pystr := [34].

(** One line of the output format: [- If section = "s": key "k"]. *)
Definition format_line (s k : pystr) : pystr :=
  u "- If section = " ++ DQUOTE ++ s ++ DQUOTE ++ u ": key " ++ DQUOTE ++ k ++ DQUOTE.

Section Prompt.

(** [str(x)] for a float. *)
Variable float_str : spec_float -> pystr.

(** [build_section_regen_prompt]; [base_context] is the text of the
    child prompt file, which [load_base_child_prompt] reads. *)
Definition build_section_regen_prompt (base_context : pystr) (section : SectionName)
    (from_unit_code to_unit_code from_unit_label to_unit_label : pystr)
    (factor_to_unit : option spec_float)
    (from_unit_region to_unit_region city_name : option pystr) : pystr :=
  let directional_note :=
    u "This is a SECTION REGENERATION request. "
    ++ u "You must ONLY regenerate the section '" ++ section_text section
    ++ u "' for a page that converts "
    ++ u "FROM " ++ from_unit_label ++ u " TO " ++ to_unit_label ++ u ". "
    ++ u "Do not change the direction and do not generate the full JSON. "
    ++ u "Return ONLY a JSON object with a single key matching the section." in
  let section_note := section_instruction_map section in
  let factor_str :=
    match factor_to_unit with
    | None => u "N/A"
    | Some x => float_str x
    end in
  let from_region := or_default from_unit_region (u "Pan-India") in
  let to_region := or_default to_unit_region (u "Pan-India") in
  let city := or_default city_name (u "a major Indian city") in
  strip
    (NEWLINE ++ base_context ++ NEWLINE
     ++ NEWLINE ++ directional_note ++ NEWLINE
     ++ NEWLINE ++ u "Use the following context:" ++ NEWLINE
     ++ u "- FROM unit code: " ++ from_unit_code ++ NEWLINE
     ++ u "- FROM unit label: " ++ from_unit_label ++ NEWLINE
     ++ u "- FROM unit region: " ++ from_region ++ NEWLINE
     ++ u "- TO unit code: " ++ to_unit_code ++ NEWLINE
     ++ u "- TO unit label: " ++ to_unit_label ++ NEWLINE
     ++ u "- TO unit region: " ++ to_region ++ NEWLINE
     ++ u "- Approximate factor (1 FROM ≈ X TO): " ++ factor_str ++ NEWLINE
     ++ u "- Primary city context: " ++ city ++ NEWLINE
     ++ NEWLINE ++ section_note ++ NEWLINE
     ++ NEWLINE ++ u "Output format:" ++ NEWLINE
     ++ u "Return a single JSON object with:" ++ NEWLINE
     ++ format_line (u "why_convert") (u "why_convert_section_html") ++ NEWLINE
     ++ format_line (u "from_unit") (u "from_unit_section_html") ++ NEWLINE
     ++ format_line (u "to_unit") (u "to_unit_section_html") ++ NEWLINE
     ++ format_line (u "examples") (u "examples_section_html") ++ NEWLINE
     ++ format_line (u "technical") (u "technical_details_html") ++ NEWLINE
     ++ format_line (u "faq_block") (u "faqs")
     ++ u " (array of objects with question and answer_html)" ++ NEWLINE
     ++ NEWLINE ++ u "Do NOT wrap the JSON in backticks." ++ NEWLINE
     ++ u "    ").

End Prompt.

End SectionRegen.

Import SectionRegen.

(** ** Vocabulary of the properties

    The validator inspects six kinds of places: the five HTML sections and
    every FAQ answer.  The definitions of this module name them, with the
    word-count range the specification gives for each, so that properties
    of [validate_child_lengths] and of the repair loop can be stated place
    by place. *)

Module Slots.

Inductive slot : Type :=
  | SWhy | SFrom | STo | SExamples | STechnical
  | SFaq (idx : nat).

(** The range stated for each place: why-convert 220-260, from-unit and
    to-unit 230-290, examples 90-200, technical 150-200, a FAQ answer
    90-140. *)
Definition slot_range (k : slot) : N * N :=
  match k with
  | SWhy => (220, 260)
  | SFrom => (230, 290)
  | STo => (230, 290)
  | SExamples => (90, 200)
  | STechnical => (150, 200)
  | SFaq _ => (90, 140)
  end.

Definition in_range (k : slot) (wc : N) : bool :=
  (fst (slot_range k) <=? wc) && (wc <=? snd (slot_range k)).

(** The HTML found at a place; [None] when the FAQ list is too short. *)
Definition slot_html (c : ChildPageOutput) (k : slot) : option html :=
  match k with
  | SWhy => Some (why_convert_section_html c)
  | SFrom => Some (from_unit_section_html c)
  | STo => Some (to_unit_section_html c)
  | SExamples => Some (examples_section_html c)
  | STechnical => Some (technical_details_html c)
  | SFaq i => option_map get_answer_html (nth_error (faqs c) i)
  end.

Definition slot_count (c : ChildPageOutput) (k : slot) : N :=
  match slot_html c k with
  | Some h => html_word_count h
  | None => 0
  end.

(** The issue message about a place holding [wc] words. *)
Definition slot_issue (k : slot) (wc : N) : pystr :=
  match k with
  | SWhy => u "why_convert_section_html: " ++ str_of_N wc
              ++ u " words (expected 220–260)."
  | SFrom => u "from_unit_section_html: " ++ str_of_N wc
               ++ u " words (expected 230–290)."
  | STo => u "to_unit_section_html: " ++ str_of_N wc
             ++ u " words (expected 230–290)."
  | SExamples => u "examples_section_html: " ++ str_of_N wc
                   ++ u " words (expected 90–200)."
  | STechnical => u "technical_details_html: " ++ str_of_N wc
                    ++ u " words (expected 150–200)."
  | SFaq i => faq_issue i wc
  end.

(** The unit of regeneration a place belongs to. *)
Definition slot_section (k : slot) : SectionName :=
  match k with
  | SWhy => why_convert
  | SFrom => from_unit
  | STo => to_unit
  | SExamples => examples
  | STechnical => technical
  | SFaq _ => faq_block
  end.

(** Replace the answer of the FAQ entry at position [i]. *)
Fixpoint set_answer (i : nat) (v : html) (l : list faq_dict) : list faq_dict :=
  match l, i with
  | [], _ => []
  | faq :: rest, O => mk_faq (question faq) (Some v) :: rest
  | faq :: rest, S j => faq :: set_answer j v rest
  end.

(** Replace the HTML at one place, leaving every other place as it is. *)
Definition set_slot (k : slot) (v : html) (c : ChildPageOutput) : ChildPageOutput :=
  match k with
  | SWhy => set_why_convert_section_html v c
  | SFrom => set_from_unit_section_html v c
  | STo => set_to_unit_section_html v c
  | SExamples => set_examples_section_html v c
  | STechnical => set_technical_details_html v c
  | SFaq i => set_faqs (set_answer i v (faqs c)) c
  end.

Definition html_slots : list slot := [SWhy; SFrom; STo; SExamples; STechnical].

(** Every place of a page, in the order the validator visits them. *)
Definition slots (c : ChildPageOutput) : list slot :=
  html_slots ++ map SFaq (seq 0 (List.length (faqs c))).

(** The place exists and its word count is outside its range. *)
Definition slot_fails (c : ChildPageOutput) (k : slot) : bool :=
  match slot_html c k with
  | Some h => negb (in_range k (html_word_count h))
  | None => false
  end.

Definition failing_slots (c : ChildPageOutput) : list slot :=
  filter (slot_fails c) (slots c).

(** The explicit order the specification asks for. *)
Definition fixed_order : list SectionName :=
  [why_convert; from_unit; to_unit; examples; technical; faq_block].

(** The members of a set of section names, listed in [fixed_order]. *)
Definition in_fixed_order (s : pyset) : list SectionName :=
  filter (fun x => set_mem x s) fixed_order.

(** The positions of the FAQ answers of a list that are out of range. *)
Definition failing_faq_answers (l : list faq_dict) : list nat :=
  filter (fun i =>
            match nth_error l i with
            | Some faq => negb (in_range (SFaq i) (html_word_count (get_answer_html faq)))
            | None => false
            end)
         (seq 0 (List.length l)).

(** The places of page [c] that fail and belong to section [s]. *)
Definition failing_in (s : SectionName) (c : ChildPageOutput) : list slot :=
  filter (fun k => SectionName_eqb (slot_section k) s) (failing_slots c).

(** Section [s] is the one section of page [c] that is out of range:
    some place fails, and every place that fails belongs to [s]. *)
Definition only_section_fails (s : SectionName) (c : ChildPageOutput) : Prop :=
  failing_slots c <> [] /\ forall k, In k (failing_slots c) -> slot_section k = s.

(** A regeneration response for section [s] that leaves the section out
    of range: it carries the key of [s], and the HTML under it is again
    out of range; for a FAQ block, at least one answer is. *)
Definition leaves_out_of_range (s : SectionName) (d : regen_dict) : Prop :=
  match s with
  | why_convert => exists v, regen_why_convert_section_html d = Some v
                             /\ in_range SWhy (html_word_count v) = false
  | from_unit => exists v, regen_from_unit_section_html d = Some v
                           /\ in_range SFrom (html_word_count v) = false
  | to_unit => exists v, regen_to_unit_section_html d = Some v
                         /\ in_range STo (html_word_count v) = false
  | examples => exists v, regen_examples_section_html d = Some v
                          /\ in_range SExamples (html_word_count v) = false
  | technical => exists v, regen_technical_details_html d = Some v
                           /\ in_range STechnical (html_word_count v) = false
  | faq_block => exists l, regen_faqs d = Some l /\ failing_faq_answers l <> []
  end.

(** The sections regenerated along a trace, oldest first. *)
Fixpoint regenerated (t : list event) : list SectionName :=
  match t with
  | [] => []
  | EvRegenerate s _ :: rest => s :: regenerated rest
  | _ :: rest => regenerated rest
  end.

(** How many times section [s] was regenerated along a trace. *)
Definition regen_calls (s : SectionName) (t : list event) : nat :=
  List.length (filter (SectionName_eqb s) (regenerated t)).

(** The issue the validator raises about place [k] of page [c]. *)
Definition issue_at (c : ChildPageOutput) (k : slot) : pystr :=
  slot_issue k (slot_count c k).

(** A non-empty text without any decimal digit. *)
Definition plain (s : pystr) : bool :=
  match s with
  | [] => false
  | _ => forallb (fun c => negb (is_digit c)) s
  end.

(** A non-empty run of decimal digits. *)
Definition digits (s : pystr) : bool :=
  match s with
  | [] => false
  | _ => forallb is_digit s
  end.

(** The number of cells of one row, given with their column labels, that
    [main] does not skip. *)
Definition cells_eligible (row_label : label) (cells : list (pystr * cell)) : Z :=
  Z.of_nat (List.length
              (filter (fun cell => negb (skipped row_label (fst cell) (snd cell))) cells)).

(** The number of cells of a row that [main] does not skip. *)
Definition eligible_in_row (cols : list pystr) (row : label * list cell) : Z :=
  cells_eligible (fst row) (combine cols (snd row)).

Fixpoint eligible (cols : list pystr) (rs : list (label * list cell)) : Z :=
  match rs with
  | [] => 0%Z
  | row :: rest => (eligible_in_row cols row + eligible cols rest)%Z
  end.

(** The documents handed to the store or, in preview mode, printed along
    a trace. *)
Fixpoint persisted (t : list event) : list mongo_doc :=
  match t with
  | [] => []
  | EvUpdateOne _ doc :: rest => doc :: persisted rest
  | EvPrint (MsgJson doc) :: rest => doc :: persisted rest
  | _ :: rest => persisted rest
  end.

(** How many times the content generator was called along a trace, which
    is how many times [process_pair] was entered. *)
Fixpoint generate_calls (t : list event) : Z :=
  match t with
  | [] => 0%Z
  | EvGenerate _ :: rest => (1 + generate_calls rest)%Z
  | _ :: rest => generate_calls rest
  end.

(** What one separator yields on a stripped label: the last of the
    non-blank parts it cuts the label into, provided it occurs in the label
    and there are at least two such parts. *)
Definition region_by (sep name : pystr) : option pystr :=
  if contains sep name
  then if (2 <=? List.length (region_parts sep name))%nat
       then Some (last (region_parts sep name) [])
       else None
  else None.

(** The region token of a table entry occurs in the label, letter case
    apart. *)
Definition region_matches (unicode_lower : pystr -> pystr) (label : pystr)
    (entry : pystr * pystr) : bool :=
  contains (lower unicode_lower (fst entry)) (lower unicode_lower label).

End Slots.

Import Slots.

(** ** Concrete pages, collaborators and matrices

    Used to run the definitions above on explicit inputs.  The outside
    world is a counter of the calls made so far. *)

Module Fixtures.

(** A paragraph of [n] words. *)
Definition words (n : nat) : html :=
  Some (u "<p>" ++ List.concat (repeat (u "w ") n) ++ u "</p>").

Definition faq_of (n : nat) : faq_dict :=
  mk_faq (Some (Some (u "How many?"))) (Some (words n)).

(** A page every place of which is within its range. *)
Definition page_ok : ChildPageOutput :=
  mk_child (Some (u "title")) (Some (u "description")) (Some (u "heading"))
    (words 240) (words 250) (words 250) (words 100) (words 160) [faq_of 100].

(** The same page with a why-convert section of five words. *)
Definition page_short_why : ChildPageOutput :=
  set_why_convert_section_html (words 5) page_ok.

(** The same page with a short why-convert section and a short FAQ answer. *)
Definition page_two_short : ChildPageOutput :=
  set_faqs [faq_of 3] page_short_why.

(** A page whose only FAQ entry has no [answer_html] key. *)
Definition page_faq_without_answer : ChildPageOutput :=
  set_faqs [mk_faq (Some (Some (u "How many?"))) None] page_ok.

(** Stands for the Unicode case tables, never consulted on ASCII labels. *)
Definition no_case (s : pystr) : pystr := s.

(** Stands for [float] on texts, and rejects them all; never consulted on
    a matrix without text cells. *)
Definition no_float (s : pystr) : option spec_float := None.

(** The page with one FAQ answer of three words, its only failing place. *)
Definition page_short_faq : ChildPageOutput := set_faqs [faq_of 3] page_ok.

Definition gen_const (c : ChildPageOutput) (p : payload) (o : nat)
  : option ChildPageOutput * nat := (Some c, S o).

(** A regenerator that always answers with three words per section. *)
Definition regen_short (s : SectionName) (a : regen_args) (o : nat)
  : option regen_dict * nat :=
  (Some (mk_regen (Some (words 3)) (Some (words 3)) (Some (words 3))
           (Some (words 3)) (Some (words 3)) (Some [faq_of 3])), S o).

(** A regenerator whose FAQ block is one entry without [answer_html]. *)
Definition regen_without_answer (s : SectionName) (a : regen_args) (o : nat)
  : option regen_dict * nat :=
  (Some (mk_regen None None None None None
           (Some [mk_faq (Some (Some (u "How many?"))) None])), S o).

(** A regenerator whose FAQ block holds two answers of three words. *)
Definition regen_two_short_answers (s : SectionName) (a : regen_args) (o : nat)
  : option regen_dict * nat :=
  (Some (mk_regen None None None None None (Some [faq_of 3; faq_of 3])), S o).

Definition clock (o : nat) : datetime * nat := (N.of_nat o, o).

(** Iteration orders a set may show. *)
Definition insertion_order (s : pyset) : list SectionName := s.
Definition reverse_order (s : pyset) : list SectionName := rev s.

Definition cli (limit : Z) (auto_fix : bool) (passes : Z) : settings :=
  mk_settings_cli (u "Mumbai") (u "en-IN") (u "sqy-india-web")
    limit auto_fix passes false None.

Definition some_args : regen_args :=
  mk_regen_args (u "BIGHA_ASSAM") (u "ACRE") (u "Bigha - Assam") (u "Acre")
    (S754_finite false 1 0) (u "Assam") (u "Pan-India") (u "Guwahati").

Definition w0 : world nat := mk_world 0%nat [].

Definition one : spec_float := S754_finite false 1 0.

(** Two units, every factor filled in: the two self-pairs are skipped and
    two pairs remain, one in each row. *)
Definition matrix_2x2 : matrix :=
  mk_matrix [u "Acre"; u "Hectare"]
    [(LStr (u "Acre"), [CFloat one; CFloat one]);
     (LStr (u "Hectare"), [CFloat one; CFloat one])].

(** Two rows of three columns: each row holds two pairs that are not
    skipped. *)
Definition matrix_2x3 : matrix :=
  mk_matrix [u "Acre"; u "Hectare"; u "Bigha"]
    [(LStr (u "Acre"), [CFloat one; CFloat one; CFloat one]);
     (LStr (u "Hectare"), [CFloat one; CFloat one; CFloat one])].

(** Two columns of whole numbers, read as [numpy.int64]: the zeros are
    not instances of [int] or [float] and are not skipped. *)
Definition matrix_whole_numbers : matrix :=
  mk_matrix [u "Acre"; u "Hectare"]
    [(LStr (u "Acre"), [CInt64 1; CInt64 0]);
     (LStr (u "Hectare"), [CInt64 0; CInt64 1])].

(** A column that holds a text. *)
Definition matrix_with_text : matrix :=
  mk_matrix [u "Acre"; u "Hectare"]
    [(LStr (u "Acre"), [CStr (u "1"); CStr (u "about 2.5")])].

End Fixtures.

(** ** Vocabulary of the label and word-count properties *)

Module Notions.

(** A character of a unit code: a digit, an upper-case ASCII letter or
    the underscore. *)
Definition code_char (c : char) : bool :=
  is_digit c || is_upper_ascii c || char_eqb c UNDERSCORE.

(** A character of a slug: a digit, a lower-case ASCII letter or the
    hyphen. *)
Definition slug_char (c : char) : bool :=
  is_digit c || is_lower_ascii c || char_eqb c HYPHEN.

(** A unit code as [normalize_unit_code] writes them: code characters
    only, no underscore at either end and no two underscores in a row. *)
Definition well_formed_code (s : pystr) : bool :=
  forallb code_char s
  && negb (prefixb [UNDERSCORE] s)
  && negb (prefixb [UNDERSCORE] (rev s))
  && negb (contains [UNDERSCORE; UNDERSCORE] s).

(** A key of a table that [strip] leaves as it is. *)
Definition unpadded (entry : pystr * pystr) : bool :=
  str_eqb (strip (fst entry)) (fst entry).

(** The number of words of a text: its maximal runs of characters that
    are not whitespace; [in_word] tells that the previous character
    belonged to a word. *)
Fixpoint word_runs_go (in_word : bool) (s : pystr) : nat :=
  match s with
  | [] => 0
  | c :: t =>
      if is_space c then word_runs_go false t
      else (if in_word then 0 else 1) + word_runs_go true t
  end.

Definition word_runs (s : pystr) : nat := word_runs_go false s.

(** A FAQ entry that carries both of its keys. *)
Definition complete (faq : faq_dict) : bool :=
  match question faq, answer_html faq with
  | Some _, Some _ => true
  | _, _ => false
  end.

(** The page a stored document was made from, read back from its fields. *)
Definition page_of_doc (doc : mongo_doc) : ChildPageOutput :=
  let standalone :=
    match standaloneSections doc with
    | [f; t] => (descriptionHtml f, descriptionHtml t)
    | _ => (None, None)
    end in
  mk_child (metaTitle (seo doc)) (metaDescription (seo doc)) (h1Heading (seo doc))
    (explanationHtml (whyConvertSection doc))
    (fst standalone) (snd standalone)
    (examplesSection_contentHtml doc)
    (technicalExplanationHtml (technicalDetailsSection doc))
    (map (fun d => mk_faq (Some (faq_question d)) (Some (answerHtml d))) (doc_faqs doc)).

(** A regeneration response that repairs place [k], the only failing
    one: it carries the key of [k]'s section and the HTML under it is
    within range (for a FAQ block, every answer is). *)
Definition repaired (k : slot) (d : regen_dict) : Prop :=
  match k with
  | SWhy => exists v, regen_why_convert_section_html d = Some v
                      /\ in_range k (html_word_count v) = true
  | SFrom => exists v, regen_from_unit_section_html d = Some v
                       /\ in_range k (html_word_count v) = true
  | STo => exists v, regen_to_unit_section_html d = Some v
                     /\ in_range k (html_word_count v) = true
  | SExamples => exists v, regen_examples_section_html d = Some v
                           /\ in_range k (html_word_count v) = true
  | STechnical => exists v, regen_technical_details_html d = Some v
                            /\ in_range k (html_word_count v) = true
  | SFaq _ => exists l, regen_faqs d = Some l /\ failing_faq_answers l = []
  end.

(** Kinds of events. *)
Definition is_store_write (e : event) : bool :=
  match e with EvUpdateOne _ _ => true | _ => false end.

Definition is_json_print (e : event) : bool :=
  match e with EvPrint (MsgJson _) => true | _ => false end.

Definition is_file_write (e : event) : bool :=
  match e with
  | EvMkdir _ | EvWriteText _ _ | EvPrint (MsgHtmlWritten _) => true
  | _ => false
  end.

Definition is_summary (e : event) : bool :=
  match e with EvPrint (MsgSummary _ _ _) => true | _ => false end.

(** What the settings allow a batch to do before its summary: write to
    the store unless in preview mode, print documents in preview mode
    only, write preview files only into a given directory, regenerate
    sections only when auto-fix is on with at least one pass. *)
Definition permitted (args : settings) (e : event) : bool :=
  match e with
  | EvGenerate _ => true
  | EvRegenerate _ _ => auto_fix_lengths args && (0 <? max_fix_passes args)%Z
  | EvMkdir _ | EvWriteText _ _ | EvPrint (MsgHtmlWritten _) =>
      match html_out_dir args with Some _ => true | None => false end
  | EvPrint (MsgJson _) => preview_only args
  | EvUpdateOne _ _ => negb (preview_only args)
  | EvPrint (MsgSummary _ _ _) => false
  | EvPrint _ => true
  end.

(** Every event a computation adds to the trace, whatever its outcome,
    satisfies [P]; nothing already in the trace is touched. *)
Definition emits {oracle A : Type} (P : event -> bool) (c : M (world oracle) A) : Prop :=
  forall w, exists evs, trace (snd (c w)) = trace w ++ evs /\ forallb P evs = true.

(** A highlight block that carries both of its keys. *)
Definition complete_block (block : block_dict) : bool :=
  match heading block, subheading block with
  | Some _, Some _ => true
  | _, _ => false
  end.

(** A printed child page, or document of one, that the validator
    accepts; a printed text is a validation message. *)
Definition valid_print (p : printed) : bool :=
  match p with
  | PrintChild c =>
      match validate_child_lengths c with [] => true | _ => false end
  | PrintChildDoc d =>
      match validate_child_lengths (page_of_doc d) with [] => true | _ => false end
  | PrintText _ => false
  | PrintLanding _ | PrintLandingDoc _ => true
  end.

Definition LBRACE : char := 123.
Definition RBRACE : char := 125.

(** A character other than the two braces. *)
Definition not_brace (c : char) : bool :=
  negb (char_eqb c LBRACE) && negb (char_eqb c RBRACE).

(** The placeholder of a name, as the prompt templates write it:
    the name between two pairs of braces. *)
Definition placeholder (name : pystr) : pystr := u "{{" ++ name ++ u "}}".

(** The placeholders of the child prompt with the text each one gives
    way to, in the order [render_child_prompt] handles them. *)
Definition placeholders (float_str : spec_float -> pystr) (i : ChildPageInput)
  : list (pystr * pystr) :=
  [ (u "from_unit_code", in_from_unit_code i);
    (u "from_unit_label", in_from_unit_label i);
    (u "to_unit_code", in_to_unit_code i);
    (u "to_unit_label", in_to_unit_label i);
    (u "factor_to_unit",
      match in_factor_to_unit i with Some x => float_str x | None => u "N/A" end);
    (u "from_unit_region", or_default (in_from_unit_region i) (u "Pan-India"));
    (u "to_unit_region", or_default (in_to_unit_region i) (u "Pan-India"));
    (u "city_name", or_default (in_city_name i) (u "a major Indian city"));
    (u "direction_note", or_default (in_direction_note i) []) ].

(** A payload as a batch hands them to the generator: two stripped
    labels that differ, two well-formed unit codes and two regions that
    are not empty. *)
Definition proper_payload (p : payload) : bool :=
  negb (str_eqb (p_from_unit_label p) (p_to_unit_label p))
  && str_eqb (strip (p_from_unit_label p)) (p_from_unit_label p)
  && str_eqb (strip (p_to_unit_label p)) (p_to_unit_label p)
  && well_formed_code (p_from_unit_code p) && well_formed_code (p_to_unit_code p)
  && negb (str_eqb (p_from_unit_region p) [])
  && negb (str_eqb (p_to_unit_region p) []).

(** A factor that is neither blank nor zero. *)
Definition proper_factor (f : spec_float) : bool :=
  negb (isnan f) && negb (float_is_zero f).

Definition generates_proper_factor (e : event) : bool :=
  match e with
  | EvGenerate p => proper_factor (p_factor_to_unit p)
  | _ => true
  end.

Definition is_generate (e : event) : bool :=
  match e with EvGenerate _ => true | _ => false end.

(** A cell of class [float], as every cell of a [float64] column is. *)
Definition is_float_cell (c : cell) : bool :=
  match c with CFloat _ => true | _ => false end.

(** Every cell of the matrix, row by row. *)
Definition all_cells (df : matrix) : list cell := List.concat (map snd (rows df)).

Definition generates_proper (e : event) : bool :=
  match e with
  | EvGenerate p => proper_payload p
  | _ => true
  end.

(** A computation that raises raises an exception that satisfies [R]. *)
Definition raises {oracle A : Type} (R : exn -> bool) (c : M (world oracle) A) : Prop :=
  forall w e, fst (c w) = Raise e -> R e = true.

(** The pairs of a row that reach the generator give a call that
    satisfies [P]. *)
Definition row_generates (unicode_lower unicode_upper : pystr -> pystr)
    (float_of_str : pystr -> option spec_float) (args : settings)
    (P : event -> bool) (row_label : label) (cells : list (pystr * cell)) : Prop :=
  forall col_label factor f,
    In (col_label, factor) cells ->
    skipped row_label col_label factor = false ->
    float_of_cell float_of_str factor = Ok f ->
    P (EvGenerate (pair_payload unicode_lower unicode_upper (str_of_label row_label)
                     col_label f args)) = true.

(** A cell [float] rejects: a text that is not a number, or an [int]
    beyond the floats. *)
Definition rejected_text (float_of_str : pystr -> option spec_float) (c : cell) : bool :=
  match c with
  | CStr s => match float_of_str s with None => true | Some _ => false end
  | _ => false
  end.

Definition too_large (c : cell) : bool :=
  match c with
  | CPyInt z => match float_of_Z z with S754_infinity _ => true | _ => false end
  | _ => false
  end.

Definition not_str (row_label : label) : bool :=
  match row_label with LStr _ => false | LOther _ => true end.

(** The keys the batch code indexes directly: those of a regenerated
    section in the regenerator's answer, and those of a FAQ entry. *)
Definition indexed_keys : list pystr :=
  [ u "why_convert_section_html"; u "from_unit_section_html";
    u "to_unit_section_html"; u "examples_section_html";
    u "technical_details_html"; u "faqs"; u "question"; u "answer_html" ].

(** The exceptions a batch over matrix [df] can end with once its CSV
    file is read: a failed call to a collaborator, a key missing from an
    answer, a cell that [float] rejects, a row label that is not a [str]. *)
Definition batch_error (float_of_str : pystr -> option spec_float) (df : matrix)
    (e : exn) : bool :=
  match e with
  | CollaboratorError => true
  | KeyError key => existsb (str_eqb key) indexed_keys
  | ValueError => existsb (rejected_text float_of_str) (all_cells df)
  | OverflowError => existsb too_large (all_cells df)
  | AttributeError => existsb not_str (map fst (rows df))
  | TypeError => false
  | SystemExit _ => false
  end.

(** How many pairs a trace reports as clean, and how many with issues
    left. *)
Fixpoint reported_clean (t : list event) : Z :=
  match t with
  | [] => 0%Z
  | EvPrint MsgStatusOk :: rest => (1 + reported_clean rest)%Z
  | _ :: rest => reported_clean rest
  end.

Fixpoint reported_flawed (t : list event) : Z :=
  match t with
  | [] => 0%Z
  | EvPrint MsgStatusIssues :: rest => (1 + reported_flawed rest)%Z
  | _ :: rest => reported_flawed rest
  end.

(** An event other than a status line of the batch driver. *)
Definition not_status (e : event) : bool :=
  match e with
  | EvPrint MsgStatusOk | EvPrint MsgStatusIssues => false
  | _ => true
  end.

(** What [process_pair] does with the document once built: print it in
    preview mode, else upsert it under its key. *)
Definition store_event (args : settings) (doc : mongo_doc) : event :=
  if preview_only args
  then EvPrint (MsgJson doc)
  else EvUpdateOne (parentSlug doc, Mappers.slug doc, locale doc, siteCode doc) doc.

(** The number a leading run of decimal digits denotes, after [acc], and
    the text that follows the run. *)
Fixpoint read_digits (acc : N) (s : pystr) : N * pystr :=
  match s with
  | c :: t => if is_digit c then read_digits (10 * acc + (c - 48)) t else (acc, s)
  | [] => (acc, [])
  end.

(** The word range a text states at its start: [lo–hi word...], with
    [lo] and [hi] runs of digits. *)
Definition range_at (s : pystr) : option (N * N) :=
  let '(lo, r1) := read_digits 0 s in
  if prefixb (u "–") r1 then
    let r2 := skipn 1 r1 in
    match r2 with
    | d :: _ =>
        if is_digit d then
          let '(hi, r3) := read_digits 0 r2 in
          if prefixb (u " word") r3 then Some (lo, hi) else None
        else None
    | [] => None
    end
  else None.

(** The word ranges a text states, in order: one for every run of digits
    that opens a text of the form [lo–hi word...]; [in_digits] tells that
    the previous character was a digit. *)
Fixpoint word_ranges_go (in_digits : bool) (s : pystr) : list (N * N) :=
  match s with
  | [] => []
  | c :: t =>
      if is_digit c then
        (if in_digits then []
         else match range_at s with Some r => [r] | None => [] end)
        ++ word_ranges_go true t
      else word_ranges_go false t
  end.

Definition word_ranges (s : pystr) : list (N * N) := word_ranges_go false s.

(** The place of page [c] holds a number of words outside the range, or
    ranges, the regeneration instruction of its section states. *)
Definition outside_instruction (c : ChildPageOutput) (k : slot) : bool :=
  match slot_html c k with
  | Some h =>
      negb (forallb (fun r => (fst r <=? html_word_count h) && (html_word_count h <=? snd r))
              (word_ranges (section_instruction_map (slot_section k))))
  | None => false
  end.

End Notions.

Import Notions.

(** ** Further collaborators *)

Module Samples.

(** A regenerator whose every answer is within range. *)
Definition regen_good (s : SectionName) (a : regen_args) (o : nat)
  : option regen_dict * nat :=
  (Some (mk_regen (Some (Fixtures.words 240)) (Some (Fixtures.words 250))
           (Some (Fixtures.words 250)) (Some (Fixtures.words 100))
           (Some (Fixtures.words 160)) (Some [Fixtures.faq_of 100])), S o).

(** A content generator for the command line of [src/generator.py] that
    answers with page [c]. *)
Definition gen_input_const (c : ChildPageOutput) (p : ChildPageInput) (o : nat)
  : option ChildPageOutput * nat := (Some c, S o).

(** A landing generator that fails. *)
Definition gen_landing_none (o : nat) : option LandingPageOutput * nat := (None, o).

(** [--type child --mode mongo --strict_lengths] with the four required
    arguments. *)
Definition strict_args : generator_args :=
  mk_generator_args type_child mode_mongo (Some (u "BIGHA")) (Some (u "ACRE"))
    (Some (u "Bigha")) (Some (u "Acre")) (Some Fixtures.one) None None None false true.

Definition console0 : console nat := mk_console 0%nat [].

(** A child input whose optional fields are all absent. *)
Definition bare_input : ChildPageInput :=
  mk_child_input (u "BIGHA") (u "ACRE") (u "Bigha") (u "Acre") None None None None None.

(** A landing page with two complete highlight blocks and one FAQ entry. *)
Definition landing_two_blocks : LandingPageOutput :=
  mk_landing (Some (u "title")) (Some (u "description")) (Some (u "heading"))
    (Fixtures.words 50)
    [ mk_block (Some (Some (u "Fast"))) (Some (Some (u "Instant results")));
      mk_block (Some (Some (u "Exact"))) (Some (Some (u "Standard factors"))) ]
    (Fixtures.words 50) (Fixtures.words 50) [Fixtures.faq_of 100].

End Samples.

(** * Properties *)

Unset Implicit Arguments.

Arguments u : simpl never.
Arguments str_of_N : simpl never.
Arguments html_word_count : simpl never.

Lemma faq_loop_app (l : list faq_dict) : forall idx issues,
  faq_loop idx l issues = issues ++ faq_loop idx l [].
Proof.
  induction l as [|faq rest IH]; intros idx issues; simpl.
  - now rewrite app_nil_r.
  - destruct (negb _); simpl.
    + rewrite (IH _ (issues ++ _)), (IH _ [_]), <- app_assoc. reflexivity.
    + apply IH.
Qed.

Lemma faq_loop_slots (c : ChildPageOutput) (l : list faq_dict) : forall idx,
  (forall j, (j < List.length l)%nat -> nth_error (faqs c) (idx + j) = nth_error l j) ->
  faq_loop idx l [] =
  map (fun k => slot_issue k (slot_count c k))
      (filter (slot_fails c) (map SFaq (seq idx (List.length l)))).
Proof.
  induction l as [|faq rest IH]; intros idx H; [reflexivity|].
  assert (H0 : nth_error (faqs c) idx = Some faq).
  { specialize (H 0%nat). rewrite Nat.add_0_r in H. apply H. simpl. lia. }
  assert (Hrest : faq_loop (S idx) rest [] =
     map (fun k => slot_issue k (slot_count c k))
       (filter (slot_fails c) (map SFaq (seq (S idx) (List.length rest))))).
  { apply IH. intros j Hj. specialize (H (S j)).
    rewrite Nat.add_succ_r in H. simpl. apply H. simpl. lia. }
  cbn [faq_loop List.length seq map filter].
  assert (Hf : slot_fails c (SFaq idx)
               = negb (between 90 (html_word_count (get_answer_html faq)) 140)).
  { unfold slot_fails, slot_html. rewrite H0. reflexivity. }
  assert (Hc : slot_count c (SFaq idx) = html_word_count (get_answer_html faq)).
  { unfold slot_count, slot_html. rewrite H0. reflexivity. }
  rewrite Hf.
  destruct (negb _).
  - rewrite faq_loop_app, Hrest. cbn [map app]. rewrite Hc. reflexivity.
  - apply Hrest.
Qed.

Lemma slot_fails_html (c : ChildPageOutput) (k : slot) (h : html) :
  slot_html c k = Some h ->
  slot_fails c k = negb (in_range k (html_word_count h))
  /\ slot_count c k = html_word_count h.
Proof. intros H. unfold slot_fails, slot_count. rewrite H. split; reflexivity. Qed.

Opaque u str_of_N html_word_count.

Lemma validate_failing (c : ChildPageOutput) :
  validate_child_lengths c =
  map (fun k => slot_issue k (slot_count c k)) (failing_slots c).
Proof.
  unfold validate_child_lengths, failing_slots, slots, html_slots.
  rewrite filter_app, map_app, faq_loop_app.
  rewrite <- (faq_loop_slots c (faqs c) 0) by (intros; reflexivity).
  f_equal.
  cbn [filter].
  change (slot_fails c SWhy)
    with (negb (between 220 (html_word_count (why_convert_section_html c)) 260)).
  change (slot_fails c SFrom)
    with (negb (between 230 (html_word_count (from_unit_section_html c)) 290)).
  change (slot_fails c STo)
    with (negb (between 230 (html_word_count (to_unit_section_html c)) 290)).
  change (slot_fails c SExamples)
    with (negb (between 90 (html_word_count (examples_section_html c)) 200)).
  change (slot_fails c STechnical)
    with (negb (between 150 (html_word_count (technical_details_html c)) 200)).
  set (b1 := negb (between 220 (html_word_count (why_convert_section_html c)) 260)).
  set (b2 := negb (between 230 (html_word_count (from_unit_section_html c)) 290)).
  set (b3 := negb (between 230 (html_word_count (to_unit_section_html c)) 290)).
  set (b4 := negb (between 90 (html_word_count (examples_section_html c)) 200)).
  set (b5 := negb (between 150 (html_word_count (technical_details_html c)) 200)).
  destruct b1, b2, b3, b4, b5; cbn [map app]; reflexivity.
Qed.

Transparent u str_of_N html_word_count.

Lemma slot_eq_dec (a b : slot) : {a = b} + {a <> b}.
Proof. decide equality. apply Nat.eq_dec. Defined.

Lemma slots_NoDup (c : ChildPageOutput) : NoDup (slots c).
Proof.
  unfold slots, html_slots.
  assert (Hf : NoDup (map SFaq (seq 0 (List.length (faqs c))))).
  { apply Injective_map_NoDup; [intros a b H; now inversion H | apply seq_NoDup]. }
  assert (Hn : forall k, In k (map SFaq (seq 0 (List.length (faqs c)))) ->
               exists i, k = SFaq i).
  { intros k Hk. apply in_map_iff in Hk. destruct Hk as [i [<- _]]. now exists i. }
  repeat (apply NoDup_cons; [cbn [app In]; intros H;
    repeat (destruct H as [H|H]; [discriminate|]);
    apply Hn in H; destruct H as [i H]; discriminate|]).
  exact Hf.
Qed.

Lemma slot_in_slots (c : ChildPageOutput) (k : slot) (h : html) :
  slot_html c k = Some h -> In k (slots c).
Proof.
  unfold slots, html_slots. destruct k; cbn [app In]; auto 6.
  intros H. do 5 right. apply in_map, in_seq. split; [lia|]. cbn.
  unfold slot_html in H. destruct (nth_error (faqs c) idx) eqn:E; [|discriminate].
  apply nth_error_Some. congruence.
Qed.

Lemma slots_in_slot (c : ChildPageOutput) (k : slot) :
  In k (slots c) -> exists h, slot_html c k = Some h.
Proof.
  unfold slots, html_slots. cbn [app In]. intros H.
  repeat (destruct H as [<-|H]; [eexists; reflexivity|]).
  apply in_map_iff in H. destruct H as [i [<- H]]. apply in_seq in H.
  unfold slot_html. destruct (nth_error (faqs c) i) eqn:E.
  - eexists; reflexivity.
  - apply nth_error_None in E. lia.
Qed.

Lemma set_answer_length (i : nat) (v : html) (l : list faq_dict) :
  List.length (set_answer i v l) = List.length l.
Proof.
  revert i; induction l as [|f l IH]; intros [|i]; cbn; auto.
Qed.

Lemma set_answer_same (v : html) (l : list faq_dict) : forall i f,
  nth_error l i = Some f ->
  nth_error (set_answer i v l) i = Some (mk_faq (question f) (Some v)).
Proof.
  induction l as [|g l IH]; intros [|i] f H; cbn in *; try discriminate.
  - now inversion H.
  - now apply IH.
Qed.

Lemma set_answer_other (v : html) (l : list faq_dict) : forall i j,
  i <> j -> nth_error (set_answer i v l) j = nth_error l j.
Proof.
  induction l as [|g l IH]; intros [|i] [|j] H; cbn; auto; try congruence.
Qed.

Lemma slots_set_slot (k : slot) (v : html) (c : ChildPageOutput) :
  slots (set_slot k v c) = slots c.
Proof.
  unfold slots. destruct k; cbn [set_slot]; try reflexivity.
  cbn [faqs set_faqs]. now rewrite set_answer_length.
Qed.

Lemma set_slot_same (k : slot) (v h : html) (c : ChildPageOutput) :
  slot_html c k = Some h -> slot_html (set_slot k v c) k = Some v.
Proof.
  destruct k; try reflexivity. cbn [slot_html set_slot set_faqs faqs].
  destruct (nth_error (faqs c) idx) eqn:E; [|discriminate]. intros _.
  erewrite set_answer_same by exact E. reflexivity.
Qed.

Lemma set_slot_other (k k' : slot) (v : html) (c : ChildPageOutput) :
  k' <> k -> slot_html (set_slot k v c) k' = slot_html c k'.
Proof.
  intros H. destruct k, k'; try reflexivity; try congruence.
  cbn [slot_html set_slot set_faqs faqs].
  rewrite set_answer_other; [reflexivity | congruence].
Qed.

Lemma issues_agree (c c' : ChildPageOutput) (l : list slot) :
  (forall k, In k l -> slot_html c' k = slot_html c k) ->
  map (issue_at c') (filter (slot_fails c') l) = map (issue_at c) (filter (slot_fails c) l).
Proof.
  induction l as [|k l IH]; intros H; [reflexivity|].
  assert (Hk : slot_html c' k = slot_html c k) by (apply H; now left).
  assert (Hl : forall k', In k' l -> slot_html c' k' = slot_html c k')
    by (intros; apply H; now right).
  cbn [filter].
  replace (slot_fails c' k) with (slot_fails c k)
    by (unfold slot_fails; now rewrite Hk).
  destruct (slot_fails c k); cbn [map]; rewrite (IH Hl); [|reflexivity].
  f_equal. unfold issue_at, slot_count. now rewrite Hk.
Qed.

Lemma validate_issue_at (c : ChildPageOutput) :
  validate_child_lengths c = map (issue_at c) (failing_slots c).
Proof. apply validate_failing. Qed.

Lemma flip_slot (c : ChildPageOutput) (k : slot) (h v : html) :
  slot_html c k = Some h ->
  in_range k (html_word_count h) = true ->
  in_range k (html_word_count v) = false ->
  exists l1 l2,
    validate_child_lengths c = l1 ++ l2 /\
    validate_child_lengths (set_slot k v c)
      = l1 ++ slot_issue k (html_word_count v) :: l2.
Proof.
  intros Hk Hin Hout.
  destruct (in_split _ _ (slot_in_slots c k h Hk)) as [s1 [s2 Hs]].
  pose proof (slots_NoDup c) as ND. rewrite Hs in ND.
  apply NoDup_remove_2 in ND.
  assert (H1 : forall k', In k' s1 -> slot_html (set_slot k v c) k' = slot_html c k').
  { intros k' Hk'. apply set_slot_other. intros ->. apply ND, in_or_app. now left. }
  assert (H2 : forall k', In k' s2 -> slot_html (set_slot k v c) k' = slot_html c k').
  { intros k' Hk'. apply set_slot_other. intros ->. apply ND, in_or_app. now right. }
  exists (map (issue_at c) (filter (slot_fails c) s1)),
         (map (issue_at c) (filter (slot_fails c) s2)).
  assert (Hf1 : slot_fails c k = false) by (unfold slot_fails; now rewrite Hk, Hin).
  assert (Hf2 : slot_fails (set_slot k v c) k = true)
    by (unfold slot_fails; now rewrite (set_slot_same k v h c Hk), Hout).
  rewrite !validate_issue_at. unfold failing_slots.
  rewrite slots_set_slot, Hs, !filter_app, !map_app. cbn [filter].
  rewrite Hf1, Hf2. cbn [map].
  rewrite (@issues_agree c (set_slot k v c) s1 H1), (@issues_agree c (set_slot k v c) s2 H2).
  split; [reflexivity|].
  unfold issue_at at 2, slot_count. now rewrite (set_slot_same k v h c Hk).
Qed.

Lemma filter_none {A} (f : A -> bool) (l : list A) :
  (forall x, In x l -> f x = false) -> filter f l = [].
Proof.
  induction l as [|a l IH]; intros H; [reflexivity|]. cbn [filter].
  rewrite (H a (or_introl eq_refl)). apply IH. intros x Hx. apply H. now right.
Qed.

Lemma validate_empty_iff (c : ChildPageOutput) :
  validate_child_lengths c = [] <->
  forall k h, slot_html c k = Some h -> in_range k (html_word_count h) = true.
Proof.
  rewrite validate_issue_at. unfold failing_slots. split.
  - intros H k h Hk. apply map_eq_nil in H.
    destruct (in_range k (html_word_count h)) eqn:E; [reflexivity|].
    assert (Hin : In k (filter (slot_fails c) (slots c))).
    { apply filter_In. split; [eapply slot_in_slots; eauto|].
      unfold slot_fails. now rewrite Hk, E. }
    rewrite H in Hin. destruct Hin.
  - intros H. rewrite filter_none; [reflexivity|].
    intros k Hk. destruct (slots_in_slot c k Hk) as [h Hh].
    unfold slot_fails. now rewrite Hh, (H k h Hh).
Qed.

(** *** Substring tests on messages that embed numbers *)

Lemma uint_digits (d : Decimal.uint) :
  forallb is_digit (map N_of_ascii (list_ascii_of_string (NilEmpty.string_of_uint d))) = true.
Proof. induction d; cbn; auto. Qed.

Lemma str_of_N_digits (n : N) : digits (str_of_N n) = true.
Proof.
  unfold str_of_N, NilZero.string_of_uint.
  destruct (N.to_uint n) as [|d|d|d|d|d|d|d|d|d|d]; [reflexivity|..];
    match goal with
    | |- digits (map _ (list_ascii_of_string (NilEmpty.string_of_uint ?e))) = true =>
        pose proof (uint_digits e) as H
    end;
    cbn [NilEmpty.string_of_uint list_ascii_of_string map] in *;
    exact H.
Qed.

Lemma prefixb_before_digit (x : char) (r : pystr) :
  is_digit x = true ->
  forall a needle, forallb (fun c => negb (is_digit c)) needle = true ->
  prefixb needle (a ++ x :: r) = prefixb needle a.
Proof.
  intros Hx. induction a as [|b a IH]; intros [|y needle] Hn; try reflexivity.
  - cbn in *. apply andb_prop in Hn. destruct Hn as [Hy _].
    unfold char_eqb. destruct (N.eqb_spec y x) as [->|]; [|reflexivity].
    rewrite Hx in Hy. discriminate.
  - cbn in *. apply andb_prop in Hn. destruct Hn as [_ Hn].
    now rewrite IH.
Qed.

Lemma contains_skip_digits (needle : pystr) (r : pystr) :
  plain needle = true ->
  forall d, forallb is_digit d = true -> contains needle (d ++ r) = contains needle r.
Proof.
  intros Hn. induction d as [|x d IH]; intros Hd; [reflexivity|].
  cbn in Hd. apply andb_prop in Hd. destruct Hd as [Hx Hd].
  cbn [app contains]. rewrite (IH Hd).
  destruct needle as [|y needle]; [discriminate|].
  cbn in Hn. apply andb_prop in Hn. destruct Hn as [Hy _].
  cbn [prefixb]. unfold char_eqb. destruct (N.eqb_spec y x) as [->|]; [|reflexivity].
  rewrite Hx in Hy. discriminate.
Qed.

Lemma contains_around_digits (needle a d r : pystr) :
  plain needle = true -> digits d = true ->
  contains needle (a ++ d ++ r) = contains needle a || contains needle r.
Proof.
  intros Hn Hd.
  assert (Hn' : forallb (fun c => negb (is_digit c)) needle = true)
    by (destruct needle; [discriminate | exact Hn]).
  destruct d as [|x d]; [discriminate|].
  assert (Hd' : forallb is_digit (x :: d) = true) by exact Hd.
  assert (Hx : is_digit x = true) by (cbn in Hd'; now apply andb_prop in Hd').
  induction a as [|b a IH].
  - change ([] ++ (x :: d) ++ r) with ((x :: d) ++ r).
    rewrite (contains_skip_digits needle r Hn (x :: d) Hd').
    destruct needle; [discriminate | reflexivity].
  - change ((b :: a) ++ (x :: d) ++ r) with (b :: (a ++ x :: (d ++ r))).
    cbn [contains]. change (a ++ x :: d ++ r) with (a ++ (x :: d) ++ r). rewrite IH.
    change (b :: a ++ (x :: d) ++ r) with ((b :: a) ++ x :: (d ++ r)).
    rewrite (prefixb_before_digit x (d ++ r) Hx (b :: a) needle Hn').
    now rewrite orb_assoc.
Qed.

Lemma section_of_slot_issue (k : slot) (n : N) :
  section_of_issue (slot_issue k n) = Some (slot_section k).
Proof.
  destruct k; unfold section_of_issue, slot_issue, faq_issue;
    rewrite !contains_around_digits by (apply str_of_N_digits || (vm_compute; reflexivity));
    vm_compute; reflexivity.
Qed.

(** *** Sets of section names *)

Lemma SectionName_eqb_eq (a b : SectionName) : SectionName_eqb a b = true <-> a = b.
Proof. destruct a, b; cbn; split; intros H; try reflexivity; discriminate. Qed.

Lemma set_mem_In (x : SectionName) (s : pyset) : set_mem x s = true <-> In x s.
Proof.
  unfold set_mem. rewrite existsb_exists. split.
  - intros [y [Hy E]]. apply SectionName_eqb_eq in E. now subst.
  - intros H. exists x. split; [exact H | now apply SectionName_eqb_eq].
Qed.

Lemma set_add_NoDup (x : SectionName) (s : pyset) : NoDup s -> NoDup (set_add x s).
Proof.
  intros H. unfold set_add. destruct (set_mem x s) eqn:E; [exact H|].
  apply NoDup_app; [exact H | repeat constructor; intros [] | ].
  intros y Hy [<-|[]]. apply set_mem_In in Hy. congruence.
Qed.

Lemma set_add_In (x y : SectionName) (s : pyset) :
  In y (set_add x s) <-> y = x \/ In y s.
Proof.
  unfold set_add. destruct (set_mem x s) eqn:E.
  - apply set_mem_In in E. split; [auto | intros [->|H]; auto].
  - rewrite in_app_iff. cbn. intuition.
Qed.

Lemma section_names_loop_NoDup (issues : list pystr) : forall s,
  NoDup s -> NoDup (section_names_loop issues s).
Proof.
  induction issues as [|msg rest IH]; intros s H; [exact H|].
  cbn [section_names_loop]. apply IH.
  destruct (section_of_issue msg); [now apply set_add_NoDup | exact H].
Qed.

Lemma section_names_NoDup (issues : list pystr) :
  NoDup (section_names_from_issues issues).
Proof. apply section_names_loop_NoDup. constructor. Qed.

Lemma section_names_loop_In (x : SectionName) (issues : list pystr) : forall s,
  In x (section_names_loop issues s) <->
  In x s \/ exists msg, In msg issues /\ section_of_issue msg = Some x.
Proof.
  induction issues as [|msg rest IH]; intros s; cbn [section_names_loop].
  - split; [auto | intros [H|[m [[] _]]]; exact H].
  - rewrite IH. destruct (section_of_issue msg) as [y|] eqn:E.
    + rewrite set_add_In. split.
      * intros [[->|H]|[m [Hm Em]]]; [right; exists msg; cbn; auto | auto |
          right; exists m; cbn; auto].
      * intros [H|[m [[<-|Hm] Em]]]; [auto | left; left; congruence |
          right; exists m; auto].
    + split.
      * intros [H|[m [Hm Em]]]; [auto | right; exists m; cbn; auto].
      * intros [H|[m [[<-|Hm] Em]]]; [auto | congruence | right; exists m; auto].
Qed.

Lemma section_names_In (x : SectionName) (issues : list pystr) :
  In x (section_names_from_issues issues) <->
  exists msg, In msg issues /\ section_of_issue msg = Some x.
Proof.
  unfold section_names_from_issues. rewrite section_names_loop_In.
  split; [intros [[]|H]; exact H | auto].
Qed.

(** A duplicate-free list all of whose members are [x] and which is not
    empty is [[x]]. *)
Lemma NoDup_all_same (x : SectionName) (l : pyset) :
  NoDup l -> l <> [] -> (forall y, In y l -> y = x) -> l = [x].
Proof.
  intros ND Hne Hall. destruct l as [|a [|b l]]; [congruence| |].
  - now rewrite (Hall a (or_introl eq_refl)).
  - exfalso. inversion ND as [|? ? Hn _]; subst. apply Hn. left.
    rewrite (Hall a), (Hall b); cbn; auto.
Qed.

Lemma section_names_of_slots (c : ChildPageOutput) (ks : list slot) (s : SectionName) :
  ks <> [] -> (forall k, In k ks -> slot_section k = s) ->
  section_names_from_issues (map (issue_at c) ks) = [s].
Proof.
  intros Hne Hall. apply NoDup_all_same.
  - apply section_names_NoDup.
  - destruct ks as [|k ks]; [congruence|]. intros E.
    assert (H : In (slot_section k) (section_names_from_issues (map (issue_at c) (k :: ks)))).
    { apply section_names_In. exists (issue_at c k). split; [now left|].
      apply section_of_slot_issue. }
    rewrite E in H. destruct H.
  - intros y Hy. apply section_names_In in Hy. destruct Hy as [msg [Hm Em]].
    apply in_map_iff in Hm. destruct Hm as [k [<- Hk]].
    unfold issue_at in Em. rewrite section_of_slot_issue in Em.
    inversion Em. now rewrite <- (Hall k Hk).
Qed.

Lemma faq_issues_one_section (l : list (nat * N)) :
  l <> [] ->
  section_names_from_issues (map (fun p => faq_issue (fst p) (snd p)) l) = [faq_block].
Proof.
  intros Hne. apply NoDup_all_same.
  - apply section_names_NoDup.
  - destruct l as [|p l]; [congruence|]. intros E.
    assert (H : In faq_block (section_names_from_issues
                  (map (fun p => faq_issue (fst p) (snd p)) (p :: l)))).
    { apply section_names_In. exists (faq_issue (fst p) (snd p)). split; [now left|].
      apply (section_of_slot_issue (SFaq (fst p))). }
    rewrite E in H. destruct H.
  - intros y Hy. apply section_names_In in Hy. destruct Hy as [msg [Hm Em]].
    apply in_map_iff in Hm. destruct Hm as [p [<- _]].
    change (faq_issue (fst p) (snd p)) with (slot_issue (SFaq (fst p)) (snd p)) in Em.
    rewrite section_of_slot_issue in Em. now inversion Em.
Qed.

(** *** The repair loop *)

Section RepairLoop.

Variable oracle : Type.
Variable regenerate_section_ext :
  SectionName -> regen_args -> oracle -> option regen_dict * oracle.
Variable set_iter : pyset -> list SectionName.


Lemma regenerated_app (t1 t2 : list event) :
  regenerated (t1 ++ t2) = regenerated t1 ++ regenerated t2.
Proof.
  induction t1 as [|e t1 IH]; [reflexivity|].
  destruct e; cbn [app regenerated]; rewrite IH; reflexivity.
Qed.

Lemma regenerated_calls (a : regen_args) (l : list SectionName) :
  regenerated (map (fun s => EvRegenerate s a) l) = l.
Proof. induction l as [|s l IH]; cbn; [|rewrite IH]; reflexivity. Qed.

(** Whatever it returns, one regeneration adds exactly its own call to the
    trace. *)
Lemma regen_one_trace (a : regen_args) (s : SectionName) (c : ChildPageOutput)
    (w : world oracle) :
  trace (snd (regen_one regenerate_section_ext a s c w)) = trace w ++ [EvRegenerate s a].
Proof.
  unfold Batch.regen_one, bind, regenerate_section.
  destruct (regenerate_section_ext s a (ext w)) as [[d|] o]; [|reflexivity].
  destruct s; cbn;
    match goal with
    | |- context [getitem _ ?v] => destruct v; reflexivity
    end.
Qed.

Lemma regen_sections_trace (a : regen_args) (order : list SectionName) :
  forall (c : ChildPageOutput) (w : world oracle),
  exists m, (m <= List.length order)%nat /\
    trace (snd (regen_sections regenerate_section_ext a order c w))
      = trace w ++ map (fun s => EvRegenerate s a) (firstn m order) /\
    (forall c', fst (regen_sections regenerate_section_ext a order c w) = Ok c' -> m = List.length order).
Proof.
  induction order as [|s order IH]; intros c w.
  - exists 0%nat. cbn. rewrite app_nil_r. auto.
  - cbn [Batch.regen_sections]. unfold bind.
    pose proof (regen_one_trace a s c w) as H1.
    destruct (regen_one regenerate_section_ext a s c w) as [[c1|e] w1]; cbn [snd] in H1.
    + destruct (IH c1 w1) as [m [Hm [Ht Hok]]].
      exists (S m). split; [cbn; lia|]. split.
      * rewrite Ht, H1, <- app_assoc. reflexivity.
      * intros c' Hc'. cbn. f_equal. eapply Hok; eauto.
    + exists 1%nat. split; [cbn; lia|]. split.
      * cbn [snd firstn map]. exact H1.
      * intros c' Hc'. discriminate.
Qed.

(** On content the validator accepts, the repair block does nothing. *)
Lemma repair_valid (a : regen_args) (auto_fix : bool) (max_passes : Z)
    (c : ChildPageOutput) (w : world oracle) :
  validate_child_lengths c = [] ->
  repair regenerate_section_ext set_iter a auto_fix max_passes c w = (Ok (c, []), w).
Proof. intros H. unfold repair. rewrite H. reflexivity. Qed.

Lemma failing_faq_part (c : ChildPageOutput) :
  filter (slot_fails c) (map SFaq (seq 0 (List.length (faqs c))))
  = map SFaq (failing_faq_answers (faqs c)).
Proof.
  unfold failing_faq_answers.
  generalize (seq 0 (List.length (faqs c))) as l.
  induction l as [|i l IH]; [reflexivity|]. cbn [map filter].
  unfold slot_fails at 1, slot_html.
  destruct (nth_error (faqs c) i) as [f|]; cbn [option_map];
    [destruct (negb _)|]; cbn [map]; now rewrite IH.
Qed.

Lemma failing_html_part (l : list faq_dict) (c : ChildPageOutput) :
  filter (slot_fails (set_faqs l c)) html_slots = filter (slot_fails c) html_slots.
Proof. reflexivity. Qed.

Lemma failing_slots_split (c : ChildPageOutput) :
  failing_slots c
  = filter (slot_fails c) html_slots ++ map SFaq (failing_faq_answers (faqs c)).
Proof. unfold failing_slots, slots. now rewrite filter_app, failing_faq_part. Qed.

Lemma only_faq_fails (c : ChildPageOutput) (i : nat) :
  failing_slots c = [SFaq i] -> filter (slot_fails c) html_slots = [].
Proof.
  rewrite failing_slots_split. intros H.
  destruct (filter (slot_fails c) html_slots) as [|k l] eqn:E; [reflexivity|].
  assert (Hk : In k html_slots).
  { eapply proj1. apply filter_In. rewrite E. now left. }
  inversion H; subst. cbn in Hk. intuition discriminate.
Qed.

Lemma failing_slots_set_slot (k : slot) (v : html) (c : ChildPageOutput) :
  slot_fails c k = true -> in_range k (html_word_count v) = false ->
  failing_slots (set_slot k v c) = failing_slots c.
Proof.
  intros Hf Hv. unfold failing_slots. rewrite slots_set_slot.
  apply filter_ext_in. intros k' Hk'.
  destruct (slot_eq_dec k' k) as [->|Hne].
  - rewrite Hf. destruct (slots_in_slot c k Hk') as [h Hh].
    unfold slot_fails. now rewrite (set_slot_same k v h c Hh), Hv.
  - unfold slot_fails. now rewrite set_slot_other.
Qed.

Lemma only_failing_fails (c : ChildPageOutput) (k : slot) :
  failing_slots c = [k] -> slot_fails c k = true.
Proof.
  intros H. assert (Hin : In k (failing_slots c)) by (rewrite H; now left).
  apply filter_In in Hin. apply Hin.
Qed.

Lemma validate_only (c : ChildPageOutput) (k : slot) :
  failing_slots c = [k] ->
  validate_child_lengths c = [slot_issue k (slot_count c k)]
  /\ in_range k (slot_count c k) = false.
Proof.
  intros H. rewrite validate_issue_at, H. split; [reflexivity|].
  pose proof (only_failing_fails c k H) as Hf. unfold slot_fails in Hf.
  unfold slot_count. destruct (slot_html c k); [|discriminate].
  now apply negb_true_iff.
Qed.

Lemma html_part_in_failing (c : ChildPageOutput) (k : slot) :
  In k (filter (slot_fails c) html_slots) -> In k (failing_slots c).
Proof. intros H. rewrite failing_slots_split. apply in_or_app. now left. Qed.

(** When only section [s] fails and [s] is one of the five HTML
    sections, exactly one place fails. *)
Lemma only_section_fails_html (s : SectionName) (c : ChildPageOutput) :
  only_section_fails s c -> s <> faq_block ->
  exists k, failing_slots c = [k] /\ slot_section k = s.
Proof.
  intros [Hne Hall] Hs. rewrite failing_slots_split in *.
  destruct (failing_faq_answers (faqs c)) as [|i l].
  - rewrite app_nil_r in *. unfold html_slots in *. cbn [filter] in *.
    destruct (slot_fails c SWhy), (slot_fails c SFrom), (slot_fails c STo),
      (slot_fails c SExamples), (slot_fails c STechnical);
      try (now contradiction Hne);
      try (eexists; split; [reflexivity | apply Hall; now left]);
      exfalso;
      repeat match goal with
      | H : forall k, In k (?x :: ?y :: ?r) -> _ |- _ =>
          pose proof (H x (or_introl eq_refl));
          pose proof (H y (or_intror (or_introl eq_refl))); clear H
      end; cbn [slot_section] in *; congruence.
  - exfalso. apply Hs. symmetry. apply (Hall (SFaq i)).
    apply in_or_app. right. now left.
Qed.

(** When only the FAQ block fails, no HTML section does. *)
Lemma only_faq_block_fails (c : ChildPageOutput) :
  only_section_fails faq_block c -> filter (slot_fails c) html_slots = [].
Proof.
  intros [_ Hall].
  destruct (filter (slot_fails c) html_slots) as [|k l] eqn:E; [reflexivity|].
  assert (Hk : In k (filter (slot_fails c) html_slots)) by (rewrite E; now left).
  pose proof (Hall k (html_part_in_failing c k Hk)) as Hs.
  apply filter_In in Hk as [Hk _]. cbn in Hk.
  repeat (destruct Hk as [<-|Hk]; [discriminate Hs|]). destruct Hk.
Qed.

(** Regenerating the only failing section with a response that leaves it
    out of range. *)
Lemma regen_one_leaves (a : regen_args) (s : SectionName) (c : ChildPageOutput)
    (w : world oracle) (d : regen_dict) (o : oracle) :
  only_section_fails s c ->
  regenerate_section_ext s a (ext w) = (Some d, o) ->
  leaves_out_of_range s d ->
  exists c',
    regen_one regenerate_section_ext a s c w
      = (Ok c', mk_world o (trace w ++ [EvRegenerate s a]))
    /\ only_section_fails s c'.
Proof.
  intros Hc Hd Hs.
  unfold regen_one, bind, regenerate_section. rewrite Hd.
  destruct s; cbn [leaves_out_of_range] in Hs;
    destruct Hs as [v [Hv Hr]]; rewrite Hv; cbn [getitem ret].
  1-5: destruct (only_section_fails_html _ c Hc ltac:(discriminate)) as [k [Hk Hks]];
       destruct k; try discriminate Hks;
       pose proof (only_failing_fails c _ Hk) as Hf.
  - exists (set_slot SWhy v c). split; [reflexivity|].
    unfold only_section_fails. now rewrite failing_slots_set_slot.
  - exists (set_slot SFrom v c). split; [reflexivity|].
    unfold only_section_fails. now rewrite failing_slots_set_slot.
  - exists (set_slot STo v c). split; [reflexivity|].
    unfold only_section_fails. now rewrite failing_slots_set_slot.
  - exists (set_slot SExamples v c). split; [reflexivity|].
    unfold only_section_fails. now rewrite failing_slots_set_slot.
  - exists (set_slot STechnical v c). split; [reflexivity|].
    unfold only_section_fails. now rewrite failing_slots_set_slot.
  - exists (set_faqs v c). split; [reflexivity|].
    unfold only_section_fails.
    rewrite failing_slots_split, failing_html_part, (only_faq_block_fails c Hc).
    cbn [faqs set_faqs app]. split.
    + destruct (failing_faq_answers v); [now contradiction Hr | discriminate].
    + intros k Hk. apply in_map_iff in Hk as [i [<- _]]. reflexivity.
Qed.

Section PersistentFailure.

Variable a : regen_args.
Variable s : SectionName.
Hypothesis set_iter_perm : forall names, NoDup names -> Permutation (set_iter names) names.
Hypothesis never_fixed : forall o, exists d o',
  regenerate_section_ext s a o = (Some d, o') /\ leaves_out_of_range s d.

Lemma set_iter_single (x : SectionName) : set_iter [x] = [x].
Proof.
  apply Permutation_length_1_inv, Permutation_sym, set_iter_perm.
  repeat constructor. intros [].
Qed.

Lemma fix_pass_leaves (c : ChildPageOutput) (w : world oracle) :
  only_section_fails s c ->
  exists c' o,
    fix_pass regenerate_section_ext set_iter a c (validate_child_lengths c) w
      = (Ok (c', validate_child_lengths c'),
         mk_world o (trace w ++ [EvRegenerate s a]))
    /\ only_section_fails s c'.
Proof.
  intros Hc. destruct (never_fixed (ext w)) as [d [o [Hd Hs]]].
  destruct (regen_one_leaves a s c w d o Hc Hd Hs) as [c' [Hr Hc']].
  exists c', o. split; [|exact Hc'].
  unfold fix_pass. rewrite validate_issue_at at 1.
  rewrite (section_names_of_slots c (failing_slots c) s (proj1 Hc) (proj2 Hc)).
  rewrite set_iter_single. cbn [regen_sections]. unfold bind at 1 2.
  rewrite Hr. reflexivity.
Qed.

Lemma fix_loop_leaves (n : nat) : forall (c : ChildPageOutput) (w : world oracle),
  only_section_fails s c ->
  exists c' o,
    fix_loop regenerate_section_ext set_iter n a c (validate_child_lengths c) w
      = (Ok (c', validate_child_lengths c'),
         mk_world o (trace w ++ repeat (EvRegenerate s a) n))
    /\ only_section_fails s c'.
Proof.
  induction n as [|n IH]; intros c w Hc.
  - exists c, (ext w). cbn [fix_loop repeat]. rewrite app_nil_r.
    destruct w; split; [reflexivity | exact Hc].
  - cbn [fix_loop].
    destruct (fix_pass_leaves c w Hc) as [c1 [o1 [H1 Hc1]]].
    assert (Hv : validate_child_lengths c <> []).
    { rewrite validate_issue_at. destruct Hc as [Hne _].
      destruct (failing_slots c); [now contradiction Hne | discriminate]. }
    destruct (validate_child_lengths c) as [|x l] eqn:E; [now contradiction Hv|].
    unfold bind. rewrite H1. cbn [fst snd].
    destruct (IH c1 (mk_world o1 (trace w ++ [EvRegenerate s a])) Hc1)
      as [c2 [o2 [H2 Hc2]]].
    exists c2, o2. split; [|exact Hc2]. rewrite H2. cbn [trace repeat].
    now rewrite <- app_assoc.
Qed.

End PersistentFailure.

Lemma regen_calls_repeat (s s' : SectionName) (a : regen_args) (t : list event) (n : nat) :
  regen_calls s' (t ++ repeat (EvRegenerate s a) n)
  = (regen_calls s' t + if SectionName_eqb s' s then n else 0)%nat.
Proof.
  unfold regen_calls. rewrite regenerated_app, filter_app, length_app. f_equal.
  induction n as [|n IH]; cbn [repeat regenerated filter].
  - now destruct (SectionName_eqb s' s).
  - destruct (SectionName_eqb s' s); cbn [List.length]; now rewrite IH.
Qed.

End RepairLoop.

(** *** Persisting a pair *)

Lemma persist_regenerated (unicode_lower : pystr -> pystr) (oracle : Type)
    (utcnow_ext : oracle -> datetime * oracle)
    (from_code to_code from_label to_label : pystr) (factor : spec_float)
    (args : settings) (c : ChildPageOutput) (issues : list pystr) (w : world oracle) :
  regenerated (trace (snd (persist unicode_lower utcnow_ext from_code to_code
                             from_label to_label factor args c issues w)))
  = regenerated (trace w).
Proof.
  unfold persist, print. unfold bind, utcnow, lift, emit, ret, raise.
  destruct (utcnow_ext (ext w)) as [now o].
  destruct (build_child_mongo_doc _ _ _ _ _ _ _ _ _ _ _) as [doc|e]; [|reflexivity].
  destruct (html_out_dir args), (preview_only args); cbn [trace snd ext];
    rewrite ?regenerated_app; cbn [regenerated]; now rewrite ?app_nil_r.
Qed.

(** C2: on a page for which the validator returns no issue, the
    validate-and-repair block of [process_pair] returns the page unchanged
    with an empty issue list and leaves the world as it was, whatever the
    auto-fix flag and the pass budget; [process_pair] then goes straight
    from generation to persisting that same page, and the regenerator is
    not called at all. *)
Theorem repair_skips_valid_content
    (unicode_lower unicode_upper : pystr -> pystr) (oracle : Type)
    (generate_child_content_ext : payload -> oracle -> option ChildPageOutput * oracle)
    (regenerate_section_ext :
       SectionName -> regen_args -> oracle -> option regen_dict * oracle)
    (utcnow_ext : oracle -> datetime * oracle)
    (set_iter : pyset -> list SectionName)
    (row_label col_label : pystr) (factor : spec_float) (args : settings)
    (c : ChildPageOutput) (o : oracle) (w : world oracle) :
  let p := pair_payload unicode_lower unicode_upper row_label col_label factor args in
  generate_child_content_ext p (ext w) = (Some c, o) ->
  validate_child_lengths c = [] ->
  (forall a auto_fix passes w1,
      repair regenerate_section_ext set_iter a auto_fix passes c w1 = (Ok (c, []), w1))
  /\ process_pair unicode_lower unicode_upper generate_child_content_ext
       regenerate_section_ext utcnow_ext set_iter row_label col_label factor args w
     = persist unicode_lower utcnow_ext (p_from_unit_code p) (p_to_unit_code p)
         (p_from_unit_label p) (p_to_unit_label p) factor args c []
         (mk_world o (trace w ++ [EvGenerate p]))
  /\ regenerated
       (trace (snd (process_pair unicode_lower unicode_upper generate_child_content_ext
                      regenerate_section_ext utcnow_ext set_iter
                      row_label col_label factor args w)))
     = regenerated (trace w).
Proof.
  intros p Hgen Hvalid.
  assert (Hrepair : forall a auto_fix passes w1,
    repair regenerate_section_ext set_iter a auto_fix passes c w1 = (Ok (c, []), w1)).
  { intros. now apply repair_valid. }
  assert (Hpp : process_pair unicode_lower unicode_upper generate_child_content_ext
       regenerate_section_ext utcnow_ext set_iter row_label col_label factor args w
     = persist unicode_lower utcnow_ext (p_from_unit_code p) (p_to_unit_code p)
         (p_from_unit_label p) (p_to_unit_label p) factor args c []
         (mk_world o (trace w ++ [EvGenerate p]))).
  { unfold process_pair. fold p. unfold bind at 1, generate_child_content.
    rewrite Hgen. unfold bind. rewrite Hrepair. reflexivity. }
  split; [exact Hrepair|]. split; [exact Hpp|].
  rewrite Hpp, persist_regenerated. cbn [trace].
  rewrite regenerated_app. cbn [regenerated]. now rewrite app_nil_r.
Qed.

Lemma repair_skips_valid_content_witness :
  regenerated
    (trace (snd (process_pair Fixtures.no_case Fixtures.no_case
                   (Fixtures.gen_const Fixtures.page_ok) Fixtures.regen_short
                   Fixtures.clock Fixtures.insertion_order
                   (u "Bigha - Assam") (u "Acre") Fixtures.one
                   (Fixtures.cli 0 true 2) Fixtures.w0)))
  = regenerated (trace Fixtures.w0).
Proof.
  refine (proj2 (proj2 (repair_skips_valid_content
    Fixtures.no_case Fixtures.no_case nat (Fixtures.gen_const Fixtures.page_ok)
    Fixtures.regen_short Fixtures.clock Fixtures.insertion_order
    (u "Bigha - Assam") (u "Acre") Fixtures.one (Fixtures.cli 0 true 2)
    Fixtures.page_ok 1%nat Fixtures.w0 _ _))).
  - reflexivity.
  - vm_compute. reflexivity.
Defined.

(** C3 (counterexample): the page has one FAQ answer of three words and
    is otherwise within range, so that the FAQ block is the one section
    out of range; every answer of the regenerator, a FAQ block of two
    answers of three words, leaves it out of range.  After two passes,
    each of which regenerates the block once, two issues remain, not
    one. *)
Lemma never_fixed_faq_block_leaves_two_issues :
  let c := Fixtures.page_short_faq in
  let out := repair Fixtures.regen_two_short_answers Fixtures.insertion_order
               Fixtures.some_args true 2 c Fixtures.w0 in
  failing_slots c = [SFaq 0]
  /\ (forall o, exists d o',
        Fixtures.regen_two_short_answers faq_block Fixtures.some_args o = (Some d, o')
        /\ leaves_out_of_range faq_block d)
  /\ (exists c', fst out = Ok (c', [faq_issue 0 3; faq_issue 1 3]))
  /\ regenerated (trace (snd out)) = [faq_block; faq_block].
Proof.
  cbv zeta. split; [vm_compute; reflexivity|]. split.
  - intros o. eexists. exists (S o). split; [reflexivity|].
    eexists. split; [reflexivity|]. vm_compute. discriminate.
  - split; [eexists; vm_compute; reflexivity | vm_compute; reflexivity].
Qed.

(** C3 (amended): let one section [s] of a page be out of range, the
    others being within range, and let every answer of the regenerator
    for [s] leave [s] out of range.  Then the repair block with auto-fix
    enabled returns normally: it runs [max_fix_passes] passes (none when
    that number is negative), each of which calls the regenerator once,
    for [s], and it ends with [s] still the one section out of range.
    The issues left are those of the places of [s] that fail on the final
    page: exactly one when [s] is one of the five HTML sections, and one
    for every FAQ answer out of range, at least one, when [s] is the FAQ
    block. *)
Theorem repair_stops_when_never_fixed
    (oracle : Type)
    (regenerate_section_ext :
       SectionName -> regen_args -> oracle -> option regen_dict * oracle)
    (set_iter : pyset -> list SectionName)
    (a : regen_args) (s : SectionName) (max_fix_passes : Z)
    (c : ChildPageOutput) (w : world oracle) :
  (forall names, NoDup names -> Permutation (set_iter names) names) ->
  only_section_fails s c ->
  (forall o, exists d o',
      regenerate_section_ext s a o = (Some d, o') /\ leaves_out_of_range s d) ->
  exists c' w',
    repair regenerate_section_ext set_iter a true max_fix_passes c w
      = (Ok (c', validate_child_lengths c'), w')
    /\ trace w' = trace w ++ repeat (EvRegenerate s a) (Z.to_nat max_fix_passes)
    /\ (forall s', regen_calls s' (trace w')
                   <= regen_calls s' (trace w) + Z.to_nat max_fix_passes)%nat
    /\ regen_calls s (trace w') = (regen_calls s (trace w) + Z.to_nat max_fix_passes)%nat
    /\ only_section_fails s c'
    /\ validate_child_lengths c' = map (issue_at c') (failing_slots c')
    /\ (s <> faq_block ->
        exists k, slot_section k = s
          /\ validate_child_lengths c' = [slot_issue k (slot_count c' k)]
          /\ in_range k (slot_count c' k) = false)
    /\ (s = faq_block ->
        failing_slots c' = map SFaq (failing_faq_answers (faqs c'))
        /\ failing_faq_answers (faqs c') <> []).
Proof.
  intros Hiter Hc Hnever.
  destruct (fix_loop_leaves oracle regenerate_section_ext set_iter a s
              Hiter Hnever (Z.to_nat max_fix_passes) c w Hc) as [c' [o [Hloop Hc']]].
  exists c', (mk_world o (trace w ++
     repeat (EvRegenerate s a) (Z.to_nat max_fix_passes))).
  split; [|split; [reflexivity|split; [|split; [|split; [exact Hc'|split;
    [apply validate_issue_at|split]]]]]].
  - unfold repair. rewrite <- Hloop.
    assert (Hv : validate_child_lengths c <> []).
    { rewrite validate_issue_at. destruct Hc as [Hne _].
      destruct (failing_slots c); [now contradiction Hne | discriminate]. }
    destruct (validate_child_lengths c) eqn:E; [now contradiction Hv | reflexivity].
  - intros s'. cbn [trace]. rewrite regen_calls_repeat.
    destruct (SectionName_eqb s' s); lia.
  - cbn [trace]. rewrite regen_calls_repeat.
    now rewrite (proj2 (SectionName_eqb_eq s s) eq_refl).
  - intros Hs. destruct (only_section_fails_html s c' Hc' Hs) as [k [Hk Hks]].
    exists k. split; [exact Hks|]. exact (validate_only c' k Hk).
  - intros ->. pose proof (only_faq_block_fails c' Hc') as Hh.
    destruct Hc' as [Hne _]. rewrite failing_slots_split, Hh in *.
    split; [reflexivity|].
    destruct (failing_faq_answers (faqs c')); [now contradiction Hne | discriminate].
Qed.

Lemma repair_stops_when_never_fixed_witness :
  exists c' w',
    repair Fixtures.regen_two_short_answers Fixtures.reverse_order Fixtures.some_args
      true 2 Fixtures.page_short_faq Fixtures.w0
      = (Ok (c', validate_child_lengths c'), w')
    /\ regen_calls faq_block (trace w')
       = (regen_calls faq_block (trace Fixtures.w0) + Z.to_nat 2)%nat
    /\ failing_faq_answers (faqs c') <> [].
Proof.
  destruct (repair_stops_when_never_fixed nat Fixtures.regen_two_short_answers
              Fixtures.reverse_order Fixtures.some_args faq_block 2
              Fixtures.page_short_faq Fixtures.w0)
    as [c' [w' [H1 [_ [_ [H4 [_ [_ [_ H8]]]]]]]]].
  - intros names _. apply Permutation_sym, Permutation_rev.
  - split; [vm_compute; discriminate|].
    intros k Hk. vm_compute in Hk. destruct Hk as [<-|[]]. reflexivity.
  - intros o. eexists. exists (S o). split; [reflexivity|].
    eexists. split; [reflexivity|]. vm_compute. discriminate.
  - exists c', w'. split; [exact H1|]. split; [exact H4|]. exact (proj2 (H8 eq_refl)).
Defined.

(** *** One pass *)

Lemma count_in_NoDup (s : SectionName) (l : list SectionName) :
  NoDup l ->
  List.length (filter (SectionName_eqb s) l) = if set_mem s l then 1%nat else 0%nat.
Proof.
  induction 1 as [|x l Hx ND IH]; [reflexivity|].
  cbn [filter set_mem existsb]. fold (set_mem s l).
  destruct (SectionName_eqb s x) eqn:E; cbn [orb List.length].
  - apply SectionName_eqb_eq in E. subst x. rewrite IH.
    destruct (set_mem s l) eqn:M; [|reflexivity].
    apply set_mem_In in M. contradiction.
  - exact IH.
Qed.

Lemma fix_pass_calls (oracle : Type)
    (regenerate_section_ext :
       SectionName -> regen_args -> oracle -> option regen_dict * oracle)
    (set_iter : pyset -> list SectionName)
    (a : regen_args) (c : ChildPageOutput) (issues : list pystr) (w : world oracle) :
  let order := set_iter (section_names_from_issues issues) in
  let out := fix_pass regenerate_section_ext set_iter a c issues w in
  exists m, (m <= List.length order)%nat /\
    regenerated (trace (snd out)) = regenerated (trace w) ++ firstn m order /\
    (forall r, fst out = Ok r -> m = List.length order).
Proof.
  intros order out. subst out. unfold fix_pass, bind. fold order.
  destruct (regen_sections_trace oracle regenerate_section_ext a order c w)
    as [m [Hm [Ht Hok]]].
  exists m. split; [exact Hm|].
  destruct (regen_sections regenerate_section_ext a order c w) as [[c'|e] w'];
    cbn [fst snd ret] in *; (split;
      [rewrite Ht, regenerated_app, regenerated_calls; reflexivity|]).
  - intros r _. now apply (Hok c').
  - intros r Hr. discriminate.
Qed.

Lemma section_names_of_validation (c : ChildPageOutput) (s : SectionName) :
  In s (section_names_from_issues (validate_child_lengths c))
  <-> exists k, In k (failing_slots c) /\ slot_section k = s.
Proof.
  rewrite section_names_In, validate_issue_at. split.
  - intros [msg [Hin Hs]]. apply in_map_iff in Hin as [k [<- Hk]].
    unfold issue_at in Hs. rewrite section_of_slot_issue in Hs.
    exists k. split; [exact Hk | congruence].
  - intros [k [Hk <-]]. exists (issue_at c k). split; [now apply in_map|].
    apply section_of_slot_issue.
Qed.

Lemma failing_in_nonempty (s : SectionName) (c : ChildPageOutput) :
  failing_in s c <> [] <-> exists k, In k (failing_slots c) /\ slot_section k = s.
Proof.
  unfold failing_in. split.
  - intros H. destruct (filter _ (failing_slots c)) as [|k l] eqn:E; [now contradiction H|].
    assert (Hk : In k (filter (fun k => SectionName_eqb (slot_section k) s)
                         (failing_slots c))) by (rewrite E; now left).
    apply filter_In in Hk as [Hk Hs]. exists k. split; [exact Hk|].
    now apply SectionName_eqb_eq.
  - intros [k [Hk Hs]] E.
    assert (Hin : In k (filter (fun k => SectionName_eqb (slot_section k) s)
                          (failing_slots c))).
    { apply filter_In. split; [exact Hk | now apply SectionName_eqb_eq]. }
    rewrite E in Hin. exact Hin.
Qed.

(** C4: the set of section names derived from an issue list has no
    duplicates, and any non-empty list of FAQ-answer issues gives the
    single name [faq_block].  In one pass, whatever order the set is
    iterated in, no section is regenerated more than once; when the pass
    completes, every section of the set has been regenerated exactly once
    and no other section has.  On the issues the validator returns for
    the page, the set holds exactly the sections with a place that fails,
    so that a pass that completes has regenerated each failing section
    exactly once and no section that is within range. *)
Theorem pass_regenerates_each_section_once
    (oracle : Type)
    (regenerate_section_ext :
       SectionName -> regen_args -> oracle -> option regen_dict * oracle)
    (set_iter : pyset -> list SectionName)
    (a : regen_args) (c : ChildPageOutput) (issues : list pystr) (w : world oracle) :
  (forall s, NoDup s -> Permutation (set_iter s) s) ->
  let names := section_names_from_issues issues in
  let out := fix_pass regenerate_section_ext set_iter a c issues w in
  let failing := section_names_from_issues (validate_child_lengths c) in
  let pass := fix_pass regenerate_section_ext set_iter a c (validate_child_lengths c) w in
  NoDup names
  /\ (forall l : list (nat * N), l <> [] ->
        section_names_from_issues (map (fun p => faq_issue (fst p) (snd p)) l)
        = [faq_block])
  /\ (forall s, regen_calls s (trace (snd out)) <= regen_calls s (trace w) + 1)%nat
  /\ (forall r, fst out = Ok r ->
      forall s, regen_calls s (trace (snd out))
                = (regen_calls s (trace w) + if set_mem s names then 1 else 0)%nat)
  /\ (forall s, In s failing <-> failing_in s c <> [])
  /\ (forall r, fst pass = Ok r ->
      forall s, regen_calls s (trace (snd pass))
                = (regen_calls s (trace w)
                   + match failing_in s c with [] => 0 | _ :: _ => 1 end)%nat).
Proof.
  intros Hiter names out failing pass.
  assert (General : forall issues,
    let names := section_names_from_issues issues in
    let out := fix_pass regenerate_section_ext set_iter a c issues w in
    (forall s, regen_calls s (trace (snd out)) <= regen_calls s (trace w) + 1)%nat
    /\ (forall r, fst out = Ok r ->
        forall s, regen_calls s (trace (snd out))
                  = (regen_calls s (trace w) + if set_mem s names then 1 else 0)%nat)).
  { clear issues names out. intros issues names out.
    pose proof (section_names_NoDup issues) as ND. fold names in ND.
    pose proof (Hiter names ND) as Hperm.
    assert (NDo : NoDup (set_iter names))
      by (eapply Permutation_NoDup; [apply Permutation_sym; exact Hperm | exact ND]).
    destruct (fix_pass_calls oracle regenerate_section_ext set_iter a c issues w)
      as [m [Hm [Ht Hok]]]. fold names out in Hm, Ht, Hok.
    split.
    - intros s. unfold regen_calls. rewrite Ht, filter_app, length_app.
      apply Nat.add_le_mono_l. rewrite count_in_NoDup.
      + destruct (set_mem s _); lia.
      + rewrite <- (firstn_skipn m (set_iter names)) in NDo.
        now apply NoDup_app_remove_r in NDo.
    - intros r Hr s. unfold regen_calls. rewrite Ht, filter_app, length_app. f_equal.
      rewrite (Hok r Hr), firstn_all, (count_in_NoDup s _ NDo).
      destruct (set_mem s (set_iter names)) eqn:E1, (set_mem s names) eqn:E2;
        try reflexivity; exfalso.
      + apply set_mem_In in E1. apply (Permutation_in _ Hperm) in E1.
        apply set_mem_In in E1. congruence.
      + apply set_mem_In in E2. apply (Permutation_in _ (Permutation_sym Hperm)) in E2.
        apply set_mem_In in E2. congruence. }
  assert (Hfail : forall s, In s failing <-> failing_in s c <> []).
  { intros s. unfold failing. rewrite section_names_of_validation.
    symmetry. apply failing_in_nonempty. }
  split; [apply section_names_NoDup|]. split; [exact faq_issues_one_section|].
  split; [exact (proj1 (General issues))|]. split; [exact (proj2 (General issues))|].
  split; [exact Hfail|].
  intros r Hr s. unfold pass in *.
  rewrite (proj2 (General (validate_child_lengths c)) r Hr s). f_equal.
  fold failing. destruct (set_mem s failing) eqn:E.
  - apply set_mem_In, Hfail in E. destruct (failing_in s c); [now contradiction E | reflexivity].
  - destruct (failing_in s c) as [|k l] eqn:Ef; [reflexivity|]. exfalso.
    assert (Hin : In s failing) by (apply Hfail; rewrite Ef; discriminate).
    apply set_mem_In in Hin. congruence.
Qed.

Lemma pass_regenerates_each_section_once_witness :
  let pass := fix_pass Fixtures.regen_short Fixtures.reverse_order
                Fixtures.some_args Fixtures.page_two_short
                (validate_child_lengths Fixtures.page_two_short) Fixtures.w0 in
  regen_calls why_convert (trace (snd pass)) = 1%nat
  /\ regen_calls faq_block (trace (snd pass)) = 1%nat
  /\ regen_calls examples (trace (snd pass)) = 0%nat.
Proof.
  cbv zeta.
  assert (Hiter : forall s, NoDup s -> Permutation (Fixtures.reverse_order s) s)
    by (intros s _; apply Permutation_sym, Permutation_rev).
  destruct (pass_regenerates_each_section_once nat
              Fixtures.regen_short Fixtures.reverse_order Fixtures.some_args
              Fixtures.page_two_short (validate_child_lengths Fixtures.page_two_short)
              Fixtures.w0 Hiter) as [_ [_ [_ [_ [_ H]]]]].
  assert (Hr : exists r, fst (fix_pass Fixtures.regen_short Fixtures.reverse_order
                 Fixtures.some_args Fixtures.page_two_short
                 (validate_child_lengths Fixtures.page_two_short) Fixtures.w0) = Ok r)
    by (eexists; vm_compute; reflexivity).
  destruct Hr as [r Hr].
  rewrite !(H r Hr). repeat split; vm_compute; reflexivity.
Defined.

Lemma in_fixed_order_perm (l : pyset) : NoDup l -> Permutation l (in_fixed_order l).
Proof.
  intros ND. apply NoDup_Permutation; [exact ND| |].
  - apply NoDup_filter. unfold fixed_order.
    repeat (constructor; [cbn; intuition discriminate|]). constructor.
  - intros x. unfold in_fixed_order. rewrite filter_In, set_mem_In.
    split; [|tauto]. intros H. split; [|exact H].
    destruct x; cbn; tauto.
Qed.

(** C6 (counterexample): with a set that iterates in the reverse of its
    insertion order, a pass over a page whose why-convert section and FAQ
    answer both fail regenerates [faq_block] before [why_convert], which is
    not the stated order. *)
Lemma regeneration_order_is_not_fixed :
  (forall s, NoDup s -> Permutation (Fixtures.reverse_order s) s)
  /\ regenerated
       (trace (snd (fix_pass Fixtures.regen_short Fixtures.reverse_order
                      Fixtures.some_args Fixtures.page_two_short
                      (validate_child_lengths Fixtures.page_two_short) Fixtures.w0)))
     = [faq_block; why_convert]
  /\ in_fixed_order
       (section_names_from_issues (validate_child_lengths Fixtures.page_two_short))
     = [why_convert; faq_block].
Proof.
  split; [intros s _; apply Permutation_sym, Permutation_rev|].
  split; vm_compute; reflexivity.
Qed.

(** C6 (amended): the sections that fail in one pass are regenerated in
    the order in which the set of their names is iterated, which the code
    does not fix; in every such order the regenerated sections are a
    rearrangement of the failing sections listed as why_convert,
    from_unit, to_unit, examples, technical, faq_block. *)
Theorem pass_order_is_set_iteration_order
    (oracle : Type)
    (regenerate_section_ext :
       SectionName -> regen_args -> oracle -> option regen_dict * oracle)
    (set_iter : pyset -> list SectionName)
    (a : regen_args) (c : ChildPageOutput) (issues : list pystr) (w : world oracle)
    (r : ChildPageOutput * list pystr) :
  (forall s, NoDup s -> Permutation (set_iter s) s) ->
  let names := section_names_from_issues issues in
  let out := fix_pass regenerate_section_ext set_iter a c issues w in
  fst out = Ok r ->
  regenerated (trace (snd out)) = regenerated (trace w) ++ set_iter names
  /\ Permutation (set_iter names) (in_fixed_order names).
Proof.
  intros Hiter names out Hr.
  pose proof (section_names_NoDup issues) as ND. fold names in ND.
  destruct (fix_pass_calls oracle regenerate_section_ext set_iter a c issues w)
    as [m [Hm [Ht Hok]]]. fold names out in Hm, Ht, Hok.
  split.
  - now rewrite Ht, (Hok r Hr), firstn_all.
  - etransitivity; [apply Hiter, ND | now apply in_fixed_order_perm].
Qed.

Lemma pass_order_is_set_iteration_order_witness :
  exists r,
    fst (fix_pass Fixtures.regen_short Fixtures.reverse_order Fixtures.some_args
           Fixtures.page_two_short
           (validate_child_lengths Fixtures.page_two_short) Fixtures.w0) = Ok r
    /\ Permutation
         (Fixtures.reverse_order
            (section_names_from_issues
               (validate_child_lengths Fixtures.page_two_short)))
         (in_fixed_order
            (section_names_from_issues
               (validate_child_lengths Fixtures.page_two_short))).
Proof.
  eexists. split; [vm_compute; reflexivity|].
  refine (proj2 (pass_order_is_set_iteration_order nat Fixtures.regen_short
    Fixtures.reverse_order Fixtures.some_args Fixtures.page_two_short
    (validate_child_lengths Fixtures.page_two_short) Fixtures.w0 _ _ _)).
  - intros s _. apply Permutation_sym, Permutation_rev.
  - vm_compute. reflexivity.
Defined.

(** C5: [validate_child_lengths] returns the empty list exactly when the
    word count of every place of the page (the five sections and each FAQ
    answer) lies in the range stated for it; and replacing the HTML of one
    in-range place by HTML whose word count is out of range adds the issue
    of that place, once, and changes nothing else in the list. *)
Theorem validate_child_lengths_ranges (c : ChildPageOutput) :
  (validate_child_lengths c = [] <->
   forall k h, slot_html c k = Some h -> in_range k (html_word_count h) = true)
  /\ forall k h v,
       slot_html c k = Some h ->
       in_range k (html_word_count h) = true ->
       in_range k (html_word_count v) = false ->
       exists l1 l2,
         validate_child_lengths c = l1 ++ l2 /\
         validate_child_lengths (set_slot k v c)
           = l1 ++ slot_issue k (html_word_count v) :: l2.
Proof.
  split; [apply validate_empty_iff | intros k h v; apply flip_slot].
Qed.

Lemma validate_child_lengths_ranges_witness :
  exists l1 l2,
    validate_child_lengths Fixtures.page_ok = l1 ++ l2 /\
    validate_child_lengths (set_slot (SFaq 0) (Fixtures.words 3) Fixtures.page_ok)
      = l1 ++ slot_issue (SFaq 0) (html_word_count (Fixtures.words 3)) :: l2.
Proof.
  apply (proj2 (validate_child_lengths_ranges Fixtures.page_ok)
           (SFaq 0) (Fixtures.words 100) (Fixtures.words 3));
    vm_compute; reflexivity.
Defined.

Lemma zero_out_of_range (k : slot) : in_range k 0 = false.
Proof. destruct k; reflexivity. Qed.

(** C9: the word counter returns 0 on [None] and on the empty string, and
    an absent [answer_html] key is read as the empty string; the validator
    (a total function) then reports every such place as holding 0 words. *)
Theorem blank_html_counts_zero (c : ChildPageOutput) (k : slot) (h : html) :
  slot_html c k = Some h ->
  h = None \/ h = Some [] ->
  html_word_count h = 0
  /\ (forall faq, answer_html faq = None -> get_answer_html faq = Some [])
  /\ In (slot_issue k 0) (validate_child_lengths c).
Proof.
  intros Hk Hh.
  assert (H0 : html_word_count h = 0) by (destruct Hh as [->| ->]; reflexivity).
  split; [exact H0|]. split.
  - intros faq Hf. unfold get_answer_html. now rewrite Hf.
  - rewrite validate_issue_at.
    replace (slot_issue k 0) with (issue_at c k)
      by (unfold issue_at, slot_count; now rewrite Hk, H0).
    apply in_map, filter_In. split; [eapply slot_in_slots; eauto|].
    unfold slot_fails. now rewrite Hk, H0, zero_out_of_range.
Qed.

Lemma blank_html_counts_zero_witness :
  html_word_count (Some [])  = 0
  /\ (forall faq, answer_html faq = None -> get_answer_html faq = Some [])
  /\ In (slot_issue (SFaq 0) 0)
        (validate_child_lengths Fixtures.page_faq_without_answer).
Proof.
  apply (blank_html_counts_zero Fixtures.page_faq_without_answer (SFaq 0) (Some []));
    [reflexivity | right; reflexivity].
Defined.

(** *** Label helpers *)

Lemma extract_region_loop_step (sep : pystr) (rest : list pystr) (name : pystr) :
  extract_region_loop (sep :: rest) name =
  match region_by sep name with
  | Some r => Some r
  | None => extract_region_loop rest name
  end.
Proof.
  cbn [extract_region_loop]. unfold region_by.
  destruct (contains sep name); [|reflexivity].
  destruct (2 <=? List.length (region_parts sep name))%nat; reflexivity.
Qed.

Lemma extract_region_loop_some (name r : pystr) (seps : list pystr) :
  extract_region_loop seps name = Some r <->
  exists pre sep post,
    seps = pre ++ sep :: post /\ region_by sep name = Some r /\
    forall s, In s pre -> region_by s name = None.
Proof.
  induction seps as [|sep rest IH].
  - split; [discriminate|]. intros [pre [s [post [H _]]]].
    destruct pre; discriminate.
  - rewrite extract_region_loop_step. destruct (region_by sep name) as [r0|] eqn:E.
    + split.
      * intros H. exists [], sep, rest. repeat split; [congruence | intros s []].
      * intros [pre [s [post [Hs [Hr Hpre]]]]]. destruct pre as [|p pre].
        -- cbn in Hs. inversion Hs; subst. congruence.
        -- cbn in Hs. inversion Hs; subst. rewrite (Hpre p (or_introl eq_refl)) in E.
           discriminate.
    + rewrite IH. split.
      * intros [pre [s [post [Hs [Hr Hpre]]]]]. exists (sep :: pre), s, post.
        repeat split; [now rewrite Hs | exact Hr |].
        intros s' [<-|Hs']; [exact E | now apply Hpre].
      * intros [pre [s [post [Hs [Hr Hpre]]]]]. destruct pre as [|p pre].
        -- cbn in Hs. inversion Hs; subst. congruence.
        -- cbn in Hs. inversion Hs; subst. exists pre, s, post.
           repeat split; [exact Hr | intros s' Hs'; apply Hpre; now right].
Qed.

Lemma extract_region_loop_none (name : pystr) (seps : list pystr) :
  extract_region_loop seps name = None <->
  forall s, In s seps -> region_by s name = None.
Proof.
  induction seps as [|sep rest IH].
  - split; [intros _ s [] | reflexivity].
  - rewrite extract_region_loop_step. destruct (region_by sep name) as [r0|] eqn:E.
    + split; [discriminate|]. intros H. rewrite (H sep (or_introl eq_refl)) in E.
      discriminate.
    + rewrite IH. split.
      * intros H s [<-|Hs]; [exact E | now apply H].
      * intros H s Hs. apply H. now right.
Qed.

Lemma str_eqb_nil (s : pystr) : str_eqb s [] = true <-> s = [].
Proof. destruct s; cbn; split; intros H; congruence. Qed.

Lemma last_in {A} (l : list A) (d : A) : l <> [] -> In (last l d) l.
Proof.
  induction l as [|a [|b l] IH]; intros H; [congruence | now left |].
  right. apply IH. discriminate.
Qed.

Lemma region_by_nonempty (sep name r : pystr) :
  region_by sep name = Some r -> r <> [] /\ contains sep name = true.
Proof.
  unfold region_by. destruct (contains sep name); [|discriminate].
  destruct (2 <=? List.length (region_parts sep name))%nat eqn:E; [|discriminate].
  intros H. inversion H as [Hr]. split; [|reflexivity].
  assert (Hin : In (last (region_parts sep name) []) (region_parts sep name)).
  { apply last_in. intros Hnil. rewrite Hnil in E. discriminate. }
  unfold region_parts in Hin at 2. apply in_map_iff in Hin.
  destruct Hin as [p [Hp Hf]]. apply filter_In in Hf. destruct Hf as [_ Hf].
  rewrite <- Hp. intros Hnil. apply str_eqb_nil in Hnil. rewrite Hnil in Hf.
  discriminate.
Qed.

(** C1 (counterexample): the label "Pan-India" holds a hyphen, which cuts
    it into "Pan" and "India", so the result is "India" and not [None];
    and a label with both long dashes is cut at the en dash, not at the em
    dash. *)
Lemma extract_region_pan_india :
  extract_region (u "Pan-India") = Some (u "India")
  /\ extract_region (u "Pan-India") <> None
  /\ extract_region (u "Bigha—Kachha–Assam") = Some (u "Assam").
Proof.
  split; [vm_compute; reflexivity|]. split; [vm_compute; discriminate|].
  vm_compute; reflexivity.
Qed.

(** C1 (amended): [extract_region] strips the label and tries the en
    dash, the em dash and the hyphen in that order; the result is what the
    first of them that occurs in the label and cuts it into at least two
    non-blank parts yields, namely the last such part, stripped and never
    empty; it is [None] exactly when none of the three does.  So
    "Bigha-Uttarakhand-II" gives "II", "Pan-India" gives "India", and a
    label without any of the separators gives [None]. *)
Theorem extract_region_first_separator (label : pystr) :
  let name := strip label in
  let seps := [EN_DASH; EM_DASH; HYPHEN_MINUS] in
  (forall r, extract_region label = Some r <->
     exists pre sep post,
       seps = pre ++ sep :: post /\ region_by sep name = Some r /\
       forall s, In s pre -> region_by s name = None)
  /\ (extract_region label = None <-> forall s, In s seps -> region_by s name = None)
  /\ (forall sep r, region_by sep name = Some r -> r <> [] /\ contains sep name = true)
  /\ ((forall s, In s seps -> contains s name = false) -> extract_region label = None)
  /\ extract_region (u "Bigha-Uttarakhand-II") = Some (u "II")
  /\ extract_region (u "Pan-India") = Some (u "India")
  /\ extract_region (u "Acre") = None.
Proof.
  intros name seps. unfold extract_region. fold name. fold seps.
  split; [intros r; apply extract_region_loop_some|].
  split; [apply extract_region_loop_none|].
  split; [intros sep r; apply region_by_nonempty|].
  split.
  - intros H. apply extract_region_loop_none. intros s Hs.
    unfold region_by. now rewrite (H s Hs).
  - split; [vm_compute; reflexivity|]. split; vm_compute; reflexivity.
Qed.

Lemma extract_region_first_separator_witness :
  extract_region (u " Dhur – Bihar ") = Some (u "Bihar").
Proof.
  apply (proj1 (extract_region_first_separator (u " Dhur – Bihar ")) (u "Bihar")).
  exists [], EN_DASH, [EM_DASH; HYPHEN_MINUS].
  split; [reflexivity|]. split; [vm_compute; reflexivity | intros s []].
Defined.

Lemma guess_city_in_first (unicode_lower : pystr -> pystr) (label : pystr)
    (pre : list (pystr * pystr)) (k city : pystr) (post : list (pystr * pystr)) :
  region_matches unicode_lower label (k, city) = true ->
  (forall e, In e pre -> region_matches unicode_lower label e = false) ->
  guess_city_in unicode_lower (pre ++ (k, city) :: post) label = Some city.
Proof.
  intros Hk. induction pre as [|[k0 c0] pre IH]; intros Hpre; cbn [app guess_city_in].
  - unfold region_matches in Hk. cbn [fst] in Hk. now rewrite Hk.
  - pose proof (Hpre (k0, c0) (or_introl eq_refl)) as H0.
    unfold region_matches in H0. cbn [fst] in H0. rewrite H0.
    apply IH. intros e He. apply Hpre. now right.
Qed.

Lemma guess_city_in_none (unicode_lower : pystr -> pystr) (label : pystr)
    (table : list (pystr * pystr)) :
  (forall e, In e table -> region_matches unicode_lower label e = false) ->
  guess_city_in unicode_lower table label = None.
Proof.
  induction table as [|[k0 c0] table IH]; intros H; [reflexivity|].
  cbn [guess_city_in].
  pose proof (H (k0, c0) (or_introl eq_refl)) as H0.
  unfold region_matches in H0. cbn [fst] in H0. rewrite H0.
  apply IH. intros e He. apply H. now right.
Qed.

(** C7: [guess_city] looks for the region tokens of the table in the from
    label and then in the to label, letter case apart: the city of the
    first table entry (in declaration order) whose token occurs in the from
    label is returned; failing any, the city of the first entry whose token
    occurs in the to label; failing that too, the default city.  For
    "Bigha - Assam" and "Acre" the answer is "Guwahati". *)
Theorem guess_city_first_match (unicode_lower : pystr -> pystr)
    (from_label to_label default_city : pystr) :
  let hit := region_matches unicode_lower in
  let city_found := guess_city unicode_lower from_label to_label default_city in
  (forall pre k city post,
      REGION_TO_CITY = pre ++ (k, city) :: post ->
      hit from_label (k, city) = true ->
      (forall e, In e pre -> hit from_label e = false) ->
      city_found = city)
  /\ (forall pre k city post,
      REGION_TO_CITY = pre ++ (k, city) :: post ->
      (forall e, In e REGION_TO_CITY -> hit from_label e = false) ->
      hit to_label (k, city) = true ->
      (forall e, In e pre -> hit to_label e = false) ->
      city_found = city)
  /\ ((forall e, In e REGION_TO_CITY ->
         hit from_label e = false /\ hit to_label e = false) ->
      city_found = default_city)
  /\ guess_city unicode_lower (u "Bigha - Assam") (u "Acre") default_city
     = u "Guwahati".
Proof.
  intros hit city_found. subst hit city_found. unfold guess_city.
  cbn [guess_city_loop]. split; [|split; [|split]].
  - intros pre k city post Ht Hk Hpre. rewrite Ht.
    now rewrite (guess_city_in_first unicode_lower from_label pre k city post Hk Hpre).
  - intros pre k city post Ht Hfrom Hk Hpre.
    rewrite (guess_city_in_none unicode_lower from_label REGION_TO_CITY Hfrom).
    rewrite Ht.
    now rewrite (guess_city_in_first unicode_lower to_label pre k city post Hk Hpre).
  - intros H.
    rewrite (guess_city_in_none unicode_lower from_label REGION_TO_CITY
               (fun e He => proj1 (H e He))).
    now rewrite (guess_city_in_none unicode_lower to_label REGION_TO_CITY
               (fun e He => proj2 (H e He))).
  - vm_compute. reflexivity.
Qed.

Lemma guess_city_first_match_witness :
  guess_city Fixtures.no_case (u "Acre") (u "Dhur-BIHAR") (u "Mumbai") = u "Patna".
Proof.
  refine (proj1 (proj2 (guess_city_first_match Fixtures.no_case
            (u "Acre") (u "Dhur-BIHAR") (u "Mumbai")))
          [(u "Assam", u "Guwahati"); (u "Bengal", u "Kolkata")]
          (u "Bihar") (u "Patna") _ _ _ _ _).
  - reflexivity.
  - intros e He. vm_compute in He.
    repeat (destruct He as [<-|He]; [vm_compute; reflexivity|]). destruct He.
  - vm_compute. reflexivity.
  - intros e He.
    repeat (destruct He as [<-|He]; [vm_compute; reflexivity|]). destruct He.
Defined.

(** Closes a counting goal from the three facts the induction gives. *)
Ltac close_counts H1 H2 H3 :=
  split; [lia|]; split; intros ?;
  [ destruct H2 as [? ?]; [lia | split; lia]
  | destruct H3 as [? ?]; [lia | split; lia] ].

(** *** Calls to the generator along a trace *)

Lemma generate_calls_app (t1 t2 : list event) :
  generate_calls (t1 ++ t2) = (generate_calls t1 + generate_calls t2)%Z.
Proof.
  induction t1 as [|e t1 IH]; [reflexivity|].
  destruct e; cbn [app generate_calls]; rewrite IH; lia.
Qed.

Lemma generate_calls_regen (a : regen_args) (l : list SectionName) :
  generate_calls (map (fun s => EvRegenerate s a) l) = 0%Z.
Proof. induction l as [|s l IH]; [reflexivity | exact IH]. Qed.

Section Driver.

Variable unicode_lower : pystr -> pystr.
Variable unicode_upper : pystr -> pystr.
Variable float_of_str : pystr -> option spec_float.
Variable oracle : Type.
Variable generate_child_content_ext :
  payload -> oracle -> option ChildPageOutput * oracle.
Variable regenerate_section_ext :
  SectionName -> regen_args -> oracle -> option regen_dict * oracle.
Variable utcnow_ext : oracle -> datetime * oracle.
Variable set_iter : pyset -> list SectionName.

Lemma fix_pass_generate (a : regen_args) (c : ChildPageOutput) (issues : list pystr)
    (w : world oracle) :
  generate_calls (trace (snd (fix_pass regenerate_section_ext set_iter a c issues w)))
  = generate_calls (trace w).
Proof.
  unfold fix_pass, bind.
  destruct (regen_sections_trace oracle regenerate_section_ext a
              (set_iter (section_names_from_issues issues)) c w) as [m [_ [Ht _]]].
  destruct (regen_sections regenerate_section_ext a _ c w) as [[c'|e] w'];
    cbn [snd ret] in *; rewrite Ht, generate_calls_app, generate_calls_regen; lia.
Qed.

Lemma fix_loop_generate (a : regen_args) (n : nat) :
  forall (c : ChildPageOutput) (issues : list pystr) (w : world oracle),
  generate_calls (trace (snd (fix_loop regenerate_section_ext set_iter n a c issues w)))
  = generate_calls (trace w).
Proof.
  induction n as [|n IH]; intros c issues w; [reflexivity|].
  cbn [fix_loop]. destruct issues as [|i issues]; [reflexivity|].
  unfold bind. pose proof (fix_pass_generate a c (i :: issues) w) as H.
  destruct (fix_pass regenerate_section_ext set_iter a c (i :: issues) w)
    as [[r|e] w1]; cbn [snd] in *; [|exact H].
  now rewrite IH.
Qed.

Lemma repair_generate (a : regen_args) (auto_fix : bool) (passes : Z)
    (c : ChildPageOutput) (w : world oracle) :
  generate_calls (trace (snd (repair regenerate_section_ext set_iter a auto_fix
                                passes c w)))
  = generate_calls (trace w).
Proof.
  unfold repair. destruct (validate_child_lengths c); [reflexivity|].
  destruct auto_fix; [apply fix_loop_generate | reflexivity].
Qed.

Lemma persist_generate (from_code to_code from_label to_label : pystr)
    (factor : spec_float) (args : settings) (c : ChildPageOutput)
    (issues : list pystr) (w : world oracle) :
  generate_calls (trace (snd (persist unicode_lower utcnow_ext from_code to_code
                                from_label to_label factor args c issues w)))
  = generate_calls (trace w).
Proof.
  unfold persist, print. unfold bind, utcnow, lift, emit, ret, raise.
  destruct (utcnow_ext (ext w)) as [now o].
  destruct (build_child_mongo_doc _ _ _ _ _ _ _ _ _ _ _) as [doc|e]; [|reflexivity].
  destruct (html_out_dir args), (preview_only args); cbn [trace snd ext];
    rewrite ?generate_calls_app; cbn [generate_calls]; lia.
Qed.

(** Entering [process_pair] calls the generator exactly once, whatever
    happens next. *)
Lemma process_pair_generate (row_label col_label : pystr) (factor : spec_float)
    (args : settings) (w : world oracle) :
  generate_calls
    (trace (snd (process_pair unicode_lower unicode_upper generate_child_content_ext
                   regenerate_section_ext utcnow_ext set_iter
                   row_label col_label factor args w)))
  = (generate_calls (trace w) + 1)%Z.
Proof.
  unfold process_pair. unfold bind at 1, generate_child_content.
  destruct (generate_child_content_ext _ (ext w)) as [[c|] o]; cbn [snd trace].
  - unfold bind.
    match goal with
    | |- context [repair ?r ?s ?a ?f ?p c ?w1] =>
        pose proof (repair_generate a f p c w1) as H;
        destruct (repair r s a f p c w1) as [[x|e] w2]
    end; cbn [snd trace] in *.
    + rewrite persist_generate, H, generate_calls_app. reflexivity.
    + rewrite H, generate_calls_app. reflexivity.
  - rewrite generate_calls_app. reflexivity.
Qed.

Lemma print_issues_ok (issues : list pystr) : forall w : world oracle,
  fst (print_issues issues w) = Ok tt
  /\ generate_calls (trace (snd (print_issues issues w))) = generate_calls (trace w).
Proof.
  induction issues as [|i issues IH]; intros w; [split; reflexivity|].
  cbn [print_issues]. unfold bind, print, emit.
  destruct (IH (mk_world (ext w) (trace w ++ [EvPrint (MsgIssue i)]))) as [H1 H2].
  split; [exact H1|]. rewrite H2. cbn [trace].
  rewrite generate_calls_app. cbn. lia.
Qed.

Lemma cells_eligible_nonneg (row_label : label) (cells : list (pystr * cell)) :
  (0 <= cells_eligible row_label cells)%Z.
Proof. unfold cells_eligible. lia. Qed.

Lemma eligible_nonneg (cols : list pystr) (rs : list (label * list cell)) :
  (0 <= eligible cols rs)%Z.
Proof.
  induction rs as [|r rs IH]; cbn [eligible]; [lia|].
  unfold eligible_in_row, cells_eligible. lia.
Qed.

Lemma eligible_app (cols : list pystr) (r1 r2 : list (label * list cell)) :
  eligible cols (r1 ++ r2) = (eligible cols r1 + eligible cols r2)%Z.
Proof. induction r1 as [|r r1 IH]; cbn [app eligible]; [|rewrite IH]; lia. Qed.

Lemma cells_eligible_cons (row_label : label) (col_label : pystr) (factor : cell)
    (rest : list (pystr * cell)) :
  cells_eligible row_label ((col_label, factor) :: rest)
  = ((if skipped row_label col_label factor then 0 else 1)
     + cells_eligible row_label rest)%Z.
Proof.
  unfold cells_eligible. cbn [filter fst snd].
  destruct (skipped row_label col_label factor); cbn [negb List.length]; lia.
Qed.

Lemma row_loop_skip (args : settings) (row_label : label) (col_label : pystr)
    (factor : cell) (rest : list (pystr * cell)) (st : counters) (w : world oracle) :
  skipped row_label col_label factor = true ->
  row_loop unicode_lower unicode_upper float_of_str generate_child_content_ext
    regenerate_section_ext utcnow_ext set_iter args row_label
    ((col_label, factor) :: rest) st w
  = row_loop unicode_lower unicode_upper float_of_str generate_child_content_ext
      regenerate_section_ext utcnow_ext set_iter args row_label rest st w.
Proof.
  unfold skipped. cbn [row_loop].
  destruct (is_blank factor); [reflexivity|].
  destruct (is_zero factor); [reflexivity|].
  destruct (str_eqb (strip (str_of_label row_label)) (strip col_label));
    [reflexivity|discriminate].
Qed.

(** What [row_loop] does on a cell that is not skipped: stop past the
    limit; else strip the row label, print the header, convert the
    factor, process the pair and count it. *)
Lemma row_loop_cell (args : settings) (row_label : label) (col_label : pystr)
    (factor : cell) (rest : list (pystr * cell)) (st : counters) (w : world oracle) :
  skipped row_label col_label factor = false ->
  row_loop unicode_lower unicode_upper float_of_str generate_child_content_ext
    regenerate_section_ext utcnow_ext set_iter args row_label
    ((col_label, factor) :: rest) st w
  = if limit_on args && (limit_pairs args <? processed st + 1)%Z
    then (Ok (mk_counters (processed st + 1) (successes st) (failures st)), w)
    else
      match label_strip row_label with
      | Raise x => (Raise x, w)
      | Ok from_label =>
          let w1 := mk_world (ext w)
                      (trace w ++ [EvPrint (MsgProcessing (processed st + 1)
                                              from_label (strip col_label) factor)]) in
          match float_of_cell float_of_str factor with
          | Raise x => (Raise x, w1)
          | Ok f =>
              match process_pair unicode_lower unicode_upper generate_child_content_ext
                      regenerate_section_ext utcnow_ext set_iter
                      (str_of_label row_label) col_label f args w1
              with
              | (Raise x, w2) => (Raise x, w2)
              | (Ok r, w2) =>
                  if fst r then
                    row_loop unicode_lower unicode_upper float_of_str
                      generate_child_content_ext regenerate_section_ext utcnow_ext
                      set_iter args row_label rest
                      (mk_counters (processed st + 1) (successes st + 1) (failures st))
                      (mk_world (ext w2) (trace w2 ++ [EvPrint MsgStatusOk]))
                  else
                    match print_issues (snd r)
                            (mk_world (ext w2) (trace w2 ++ [EvPrint MsgStatusIssues]))
                    with
                    | (Raise x, w3) => (Raise x, w3)
                    | (Ok _, w3) =>
                        row_loop unicode_lower unicode_upper float_of_str
                          generate_child_content_ext regenerate_section_ext utcnow_ext
                          set_iter args row_label rest
                          (mk_counters (processed st + 1) (successes st)
                             (failures st + 1)) w3
                    end
              end
          end
      end.
Proof.
  unfold skipped. cbn [row_loop].
  destruct (is_blank factor); [discriminate|].
  destruct (is_zero factor); [discriminate|].
  destruct (str_eqb (strip (str_of_label row_label)) (strip col_label)); [discriminate|].
  intros _.
  destruct (limit_on args && (limit_pairs args <? processed st + 1)%Z); [reflexivity|].
  unfold bind at 1. unfold lift at 1.
  destruct (label_strip row_label) as [from_label|x]; [|reflexivity].
  cbn [ret]. unfold bind at 1. unfold print, emit. cbn [ext trace]. cbv zeta.
  unfold bind at 1. unfold lift at 1.
  destruct (float_of_cell float_of_str factor) as [f|x]; [|reflexivity].
  cbn [ret]. unfold bind at 1.
  destruct (process_pair _ _ _ _ _ _ _ _ _ _ _) as [[r|x] w2]; [|reflexivity].
  unfold bind, print, emit. cbn [ext trace].
  destruct (fst r); reflexivity.
Qed.

Section Limit.

Variable args : settings.
Hypothesis limit_positive : (0 < limit_pairs args)%Z.

Lemma limit_on_true : limit_on args = true.
Proof. unfold limit_on. destruct (Z.eqb_spec (limit_pairs args) 0); [lia | reflexivity]. Qed.

Lemma row_loop_counts (row_label : label) : forall cells st w st' w',
  row_loop unicode_lower unicode_upper float_of_str generate_child_content_ext
    regenerate_section_ext utcnow_ext set_iter args row_label cells st w
    = (Ok st', w') ->
  (processed st <= limit_pairs args)%Z ->
  generate_calls (trace w')
  = (generate_calls (trace w)
     + ((successes st' + failures st') - (successes st + failures st)))%Z
  /\ ((processed st + cells_eligible row_label cells <= limit_pairs args)%Z ->
      processed st' = (processed st + cells_eligible row_label cells)%Z
      /\ (successes st' + failures st')%Z
         = (successes st + failures st + cells_eligible row_label cells)%Z)
  /\ ((limit_pairs args < processed st + cells_eligible row_label cells)%Z ->
      processed st' = (limit_pairs args + 1)%Z
      /\ (successes st' + failures st')%Z
         = (successes st + failures st + (limit_pairs args - processed st))%Z).
Proof.
  induction cells as [|[col_label factor] rest IH]; intros st w st' w' Hrun Hp.
  - cbn in Hrun. inversion Hrun; subst. cbn. repeat split; lia.
  - rewrite cells_eligible_cons.
    pose proof (cells_eligible_nonneg row_label rest) as He.
    destruct (skipped row_label col_label factor) eqn:Hs.
    + rewrite row_loop_skip in Hrun by exact Hs.
      destruct (IH st w st' w' Hrun Hp) as [H1 [H2 H3]].
      close_counts H1 H2 H3.
    + rewrite row_loop_cell in Hrun by exact Hs.
      rewrite limit_on_true in Hrun. cbn [andb] in Hrun.
      destruct (Z.ltb_spec (limit_pairs args) (processed st + 1)) as [Hlt|Hge].
      * inversion Hrun; subst. cbn [processed successes failures]. repeat split; lia.
      * destruct (label_strip row_label) as [from_label|x]; [|discriminate].
        destruct (float_of_cell float_of_str factor) as [f|x]; [|discriminate].
        cbv zeta in Hrun.
        match type of Hrun with
        | context [process_pair ?a1 ?a2 ?a3 ?a4 ?a5 ?a6 ?a7 ?a8 ?a9 ?a10 ?w1] =>
            pose proof (process_pair_generate a7 a8 a9 args w1) as Hg;
            destruct (process_pair a1 a2 a3 a4 a5 a6 a7 a8 a9 a10 w1) as [[r|x] w2]
        end; [|discriminate].
        cbn [snd trace] in Hg. rewrite generate_calls_app in Hg.
        cbn [generate_calls] in Hg.
        destruct (fst r).
        -- apply IH in Hrun; [|cbn; lia].
           cbn [processed successes failures trace] in Hrun.
           rewrite generate_calls_app in Hrun. cbn [generate_calls] in Hrun.
           destruct Hrun as [H1 [H2 H3]].
           close_counts H1 H2 H3.
        -- destruct (print_issues_ok (snd r)
                       (mk_world (ext w2) (trace w2 ++ [EvPrint MsgStatusIssues])))
             as [Hi1 Hi2].
           destruct (print_issues (snd r) _) as [[[]|x] w3]; [|discriminate].
           cbn [snd trace] in Hi2. rewrite generate_calls_app in Hi2.
           cbn [generate_calls] in Hi2.
           apply IH in Hrun; [|cbn; lia]. cbn [processed successes failures] in Hrun.
           destruct Hrun as [H1 [H2 H3]].
           close_counts H1 H2 H3.
Qed.

Lemma table_loop_counts (cols : list pystr) (r : label * list cell)
    (post : list (label * list cell)) :
  forall pre st w st' w',
  table_loop unicode_lower unicode_upper float_of_str generate_child_content_ext
    regenerate_section_ext utcnow_ext set_iter args cols (pre ++ r :: post) st w
    = (Ok st', w') ->
  (processed st + eligible cols pre < limit_pairs args)%Z ->
  (limit_pairs args <= processed st + eligible cols (pre ++ [r]))%Z ->
  generate_calls (trace w')
  = (generate_calls (trace w) + (limit_pairs args - processed st))%Z
  /\ (successes st' + failures st')%Z
     = (successes st + failures st + (limit_pairs args - processed st))%Z
  /\ processed st'
     = (if (limit_pairs args <? processed st + eligible cols (pre ++ [r]))%Z
        then limit_pairs args + 1 else limit_pairs args)%Z.
Proof.
  induction pre as [|[row0 cells0] pre IH]; intros st w st' w' Hrun Hlt Hge.
  - destruct r as [row_label cells]. cbn [app table_loop] in Hrun.
    cbn [app eligible] in Hlt, Hge |- *. unfold eligible_in_row in Hge |- *.
    cbn [fst snd] in Hge |- *. fold (cells_eligible row_label (combine cols cells)) in Hge |- *.
    unfold bind in Hrun.
    destruct (row_loop _ _ _ _ _ _ _ _ _ _ _ w) as [[st1|x] w1] eqn:Hrow; [|discriminate].
    destruct (row_loop_counts row_label _ st w st1 w1 Hrow ltac:(lia)) as [H1 [H2 H3]].
    rewrite limit_on_true in Hrun. cbn [andb] in Hrun.
    destruct (Z.ltb_spec (limit_pairs args)
                (processed st + (cells_eligible row_label (combine cols cells) + 0))).
    + destruct H3 as [H3 H4]; [lia|].
      destruct (Z.leb_spec (limit_pairs args) (processed st1)); [|lia].
      inversion Hrun; subst. repeat split; lia.
    + destruct H2 as [H2 H4]; [lia|].
      destruct (Z.leb_spec (limit_pairs args) (processed st1)); [|lia].
      inversion Hrun; subst. repeat split; lia.
  - cbn [app table_loop] in Hrun. cbn [app eligible] in Hlt, Hge |- *.
    unfold eligible_in_row in Hlt, Hge |- *. cbn [fst snd] in Hlt, Hge |- *.
    fold (cells_eligible row0 (combine cols cells0)) in Hlt, Hge |- *.
    pose proof (eligible_nonneg cols pre) as Hpre.
    pose proof (cells_eligible_nonneg row0 (combine cols cells0)) as He0.
    unfold bind in Hrun.
    destruct (row_loop _ _ _ _ _ _ _ _ _ _ _ w) as [[st1|x] w1] eqn:Hrow; [|discriminate].
    destruct (row_loop_counts row0 _ st w st1 w1 Hrow ltac:(lia)) as [H1 [H2 _]].
    destruct H2 as [H2 H4]; [lia|].
    rewrite limit_on_true in Hrun. cbn [andb] in Hrun.
    destruct (Z.leb_spec (limit_pairs args) (processed st1)); [lia|].
    destruct (IH st1 w1 st' w' Hrun ltac:(lia) ltac:(lia)) as [G1 [G2 G3]].
    rewrite G1, G2, G3, H1, H2.
    replace (processed st + cells_eligible row0 (combine cols cells0)
             + eligible cols (pre ++ [r]))%Z
      with (processed st + (cells_eligible row0 (combine cols cells0)
             + eligible cols (pre ++ [r])))%Z by lia.
    repeat split; lia.
Qed.

End Limit.

End Driver.

(** C10 (counterexample): with a limit of one pair and a matrix of two
    pairs that are not skipped, one in each row, one pair is processed and
    the summary reports one processed pair, not two: the limit is reached
    at the end of the first row, where the outer loop stops. *)
Lemma limit_reached_at_end_of_row :
  eligible (col_labels Fixtures.matrix_2x2) (rows Fixtures.matrix_2x2) = 2%Z
  /\ fst (main Fixtures.no_case Fixtures.no_case Fixtures.no_float
            (Fixtures.gen_const Fixtures.page_ok) Fixtures.regen_short
            Fixtures.clock Fixtures.insertion_order
            (Fixtures.cli 1 false 2) (u "matrix.csv") (Some Fixtures.matrix_2x2)
            Fixtures.w0)
     = Ok (mk_counters 1 1 0).
Proof. split; vm_compute; reflexivity. Qed.

(** C10 (amended): let the limit be N > 0 and let the N-th pair that is
    not skipped lie in row [r] of the matrix.  If [main] returns, then
    [process_pair] was entered for exactly N pairs and successes plus
    failures is N; the summary, printed last, reports N + 1 processed
    pairs when row [r] holds a further pair that is not skipped after the
    N-th, and N processed pairs when the N-th is the last such pair of its
    row.  A pair is skipped when its cell is [None] or a [float] NaN,
    when it is a zero that is an instance of [int] or [float], or when
    the two labels are equal once stripped; a zero read as [numpy.int64]
    is not skipped and counts. *)
Theorem limit_pairs_summary
    (unicode_lower unicode_upper : pystr -> pystr)
    (float_of_str : pystr -> option spec_float) (oracle : Type)
    (generate_child_content_ext : payload -> oracle -> option ChildPageOutput * oracle)
    (regenerate_section_ext :
       SectionName -> regen_args -> oracle -> option regen_dict * oracle)
    (utcnow_ext : oracle -> datetime * oracle)
    (set_iter : pyset -> list SectionName)
    (args : settings) (csv_path : pystr) (df : matrix)
    (pre : list (label * list cell)) (r : label * list cell)
    (post : list (label * list cell))
    (w : world oracle) (st : counters) (w' : world oracle) :
  (0 < limit_pairs args)%Z ->
  rows df = pre ++ r :: post ->
  (eligible (col_labels df) pre < limit_pairs args)%Z ->
  (limit_pairs args <= eligible (col_labels df) (pre ++ [r]))%Z ->
  main unicode_lower unicode_upper float_of_str generate_child_content_ext
    regenerate_section_ext utcnow_ext set_iter args csv_path (Some df) w = (Ok st, w') ->
  generate_calls (trace w') = (generate_calls (trace w) + limit_pairs args)%Z
  /\ (successes st + failures st)%Z = limit_pairs args
  /\ processed st
     = (if (limit_pairs args <? eligible (col_labels df) (pre ++ [r]))%Z
        then limit_pairs args + 1 else limit_pairs args)%Z
  /\ exists t, trace w' = t ++ [EvPrint (MsgSummary (processed st) (successes st)
                                           (failures st))].
Proof.
  intros Hpos Hrows Hlt Hge Hmain.
  unfold main, bind, print, emit in Hmain. rewrite Hrows in Hmain.
  destruct (table_loop _ _ _ _ _ _ _ _ _ _ _ w) as [[st1|x] w1] eqn:Hloop; [|discriminate].
  inversion Hmain; subst st1 w'. clear Hmain.
  destruct (table_loop_counts unicode_lower unicode_upper float_of_str oracle
              generate_child_content_ext regenerate_section_ext utcnow_ext set_iter
              args Hpos (col_labels df) r post pre (mk_counters 0 0 0) w st w1 Hloop
              ltac:(cbn [processed]; lia) ltac:(cbn [processed]; lia))
    as [G1 [G2 G3]].
  cbn [processed successes failures] in G1, G2, G3. cbn [trace].
  rewrite generate_calls_app, G1. cbn [generate_calls].
  repeat split; try lia.
  - rewrite G3. now rewrite !Z.add_0_l.
  - now exists (trace w1).
Qed.

Lemma limit_pairs_summary_witness :
  exists st w',
    main Fixtures.no_case Fixtures.no_case Fixtures.no_float
      (Fixtures.gen_const Fixtures.page_ok) Fixtures.regen_short
      Fixtures.clock Fixtures.insertion_order
      (Fixtures.cli 1 false 2) (u "matrix.csv") (Some Fixtures.matrix_2x3)
      Fixtures.w0 = (Ok st, w')
    /\ (successes st + failures st)%Z = 1%Z
    /\ processed st = 2%Z.
Proof.
  eexists. eexists. split; [vm_compute; reflexivity|].
  refine ((fun H => conj (proj1 (proj2 H)) (proj1 (proj2 (proj2 H))))
    (limit_pairs_summary Fixtures.no_case Fixtures.no_case Fixtures.no_float nat
       (Fixtures.gen_const Fixtures.page_ok) Fixtures.regen_short
       Fixtures.clock Fixtures.insertion_order
       (Fixtures.cli 1 false 2) (u "matrix.csv") Fixtures.matrix_2x3
       [] (LStr (u "Acre"),
           [CFloat Fixtures.one; CFloat Fixtures.one; CFloat Fixtures.one])
       [(LStr (u "Hectare"),
         [CFloat Fixtures.one; CFloat Fixtures.one; CFloat Fixtures.one])]
       Fixtures.w0 _ _ _ _ _ _ _)).
  - reflexivity.
  - reflexivity.
  - reflexivity.
  - vm_compute. discriminate.
  - vm_compute. reflexivity.
Defined.

(** *** Shortfalls that remain after the passes *)

Lemma persisted_app (t1 t2 : list event) :
  persisted (t1 ++ t2) = persisted t1 ++ persisted t2.
Proof.
  induction t1 as [|e t1 IH]; [reflexivity|].
  destruct e as [| | | |m|]; try destruct m; cbn [app persisted]; rewrite IH; reflexivity.
Qed.

(** * Further properties *)

(** *** Stripping *)

Lemma char_eqb_eq (a b : char) : char_eqb a b = true <-> a = b.
Proof. unfold char_eqb. apply N.eqb_eq. Qed.

Lemma str_eqb_eq (a : pystr) : forall b, str_eqb a b = true <-> a = b.
Proof.
  induction a as [|x a IH]; intros [|y b]; cbn [str_eqb];
    try (split; [discriminate | discriminate]); [tauto|].
  rewrite andb_true_iff, char_eqb_eq, IH. split.
  - intros [-> ->]. reflexivity.
  - intros H. inversion H. auto.
Qed.

Lemma forallb_rev {A} (f : A -> bool) (l : list A) : forallb f (rev l) = forallb f l.
Proof.
  induction l as [|x l IH]; [reflexivity|].
  cbn [rev forallb]. rewrite forallb_app, IH. cbn. now rewrite andb_true_r, andb_comm.
Qed.

Lemma lstrip_app (a b : pystr) :
  lstrip (a ++ b) = if forallb is_space a then lstrip b else lstrip a ++ b.
Proof.
  induction a as [|c a IH]; [reflexivity|].
  cbn [app lstrip forallb]. destruct (is_space c); [exact IH | reflexivity].
Qed.

Lemma lstrip_split (s : pystr) :
  exists ws, s = ws ++ lstrip s /\ forallb is_space ws = true.
Proof.
  induction s as [|c s [ws [E H]]]; [now exists []|].
  cbn [lstrip]. destruct (is_space c) eqn:Ec.
  - exists (c :: ws). cbn [app forallb]. rewrite Ec, H. now rewrite <- E.
  - now exists [].
Qed.

Lemma lstrip_head (s : pystr) (c : char) (t : pystr) :
  lstrip s = c :: t -> is_space c = false.
Proof.
  induction s as [|x s IH]; [discriminate|]. cbn [lstrip].
  destruct (is_space x) eqn:E; [exact IH|]. intros H. inversion H. now subst.
Qed.

Lemma lstrip_fixed (s : pystr) :
  forallb (fun c => negb (is_space c)) s = true -> lstrip s = s.
Proof.
  destruct s as [|c s]; [reflexivity|]. cbn [forallb lstrip].
  destruct (is_space c); [discriminate | reflexivity].
Qed.

Lemma rstrip_cons (c : char) (t : pystr) :
  rstrip (c :: t) = if forallb is_space (c :: t) then [] else c :: rstrip t.
Proof.
  unfold rstrip. cbn [rev]. rewrite lstrip_app, forallb_rev.
  cbn [forallb lstrip]. destruct (forallb is_space t) eqn:Et.
  - destruct (is_space c); cbn; [reflexivity|].
    replace (lstrip (rev t)) with (@nil char); [reflexivity|].
    destruct (lstrip_split (rev t)) as [ws [E H]].
    destruct (lstrip (rev t)) as [|x r] eqn:El; [reflexivity|].
    apply lstrip_head in El.
    assert (Hx : forallb is_space (rev t) = true) by now rewrite forallb_rev.
    rewrite E, forallb_app in Hx. cbn in Hx. rewrite El in Hx.
    now rewrite andb_false_r in Hx.
  - rewrite andb_false_r. now rewrite rev_app_distr.
Qed.

Lemma rstrip_nil : rstrip [] = [].
Proof. reflexivity. Qed.

Lemma rstrip_fixed (s : pystr) :
  forallb (fun c => negb (is_space c)) s = true -> rstrip s = s.
Proof.
  induction s as [|c s IH]; [reflexivity|]. intros H.
  cbn [forallb] in H. apply andb_true_iff in H as [Hc Hs].
  rewrite rstrip_cons, (IH Hs). cbn [forallb].
  destruct (is_space c); [discriminate | reflexivity].
Qed.

Lemma rstrip_split (s : pystr) :
  exists ws, s = rstrip s ++ ws /\ forallb is_space ws = true.
Proof.
  induction s as [|c s [ws [E H]]]; [now exists []|].
  rewrite rstrip_cons. destruct (forallb is_space (c :: s)) eqn:Ea.
  - now exists (c :: s).
  - exists ws. split; [cbn [app]; now rewrite <- E | exact H].
Qed.

(** A stripped text neither starts nor ends with whitespace. *)
Lemma rstrip_keeps_head (s : pystr) (c : char) (t : pystr) :
  is_space c = false -> exists t', rstrip (c :: t) = c :: t'.
Proof.
  intros Hc. rewrite rstrip_cons. cbn [forallb]. rewrite Hc. cbn. eauto.
Qed.

Lemma rstrip_last (s : pystr) : forall c t, rev (rstrip s) = c :: t -> is_space c = false.
Proof.
  intros c t H. unfold rstrip in H. rewrite rev_involutive in H.
  now apply lstrip_head in H.
Qed.

Lemma strip_split (s : pystr) :
  exists ws1 ws2, s = ws1 ++ strip s ++ ws2
                  /\ forallb is_space ws1 = true /\ forallb is_space ws2 = true.
Proof.
  destruct (lstrip_split s) as [ws1 [E1 H1]].
  destruct (rstrip_split (lstrip s)) as [ws2 [E2 H2]].
  exists ws1, ws2. unfold strip. split; [|split; assumption].
  now rewrite <- E2.
Qed.

Lemma strip_head (s : pystr) (c : char) (t : pystr) :
  strip s = c :: t -> is_space c = false.
Proof.
  unfold strip. destruct (lstrip s) as [|x r] eqn:E; [discriminate|].
  pose proof (lstrip_head _ _ _ E) as Hx. rewrite rstrip_cons. cbn [forallb].
  rewrite Hx. cbn. intros H. inversion H. now subst.
Qed.

Lemma strip_last (s : pystr) (c : char) (t : pystr) :
  rev (strip s) = c :: t -> is_space c = false.
Proof. apply rstrip_last. Qed.

Lemma rstrip_idem (s : pystr) : rstrip (rstrip s) = rstrip s.
Proof.
  unfold rstrip. rewrite rev_involutive. f_equal.
  destruct (lstrip (rev s)) as [|c t] eqn:E; [reflexivity|].
  cbn [lstrip]. now rewrite (lstrip_head _ _ _ E).
Qed.

Lemma strip_idem (s : pystr) : strip (strip s) = strip s.
Proof.
  unfold strip at 1. 
  assert (H : lstrip (strip s) = strip s).
  { destruct (strip s) as [|c t] eqn:E; [reflexivity|].
    cbn [lstrip]. now rewrite (strip_head _ _ _ E). }
  rewrite H. unfold strip. apply rstrip_idem.
Qed.

Lemma strip_fixed (s : pystr) :
  forallb (fun c => negb (is_space c)) s = true -> strip s = s.
Proof. intros H. unfold strip. rewrite (lstrip_fixed _ H). now apply rstrip_fixed. Qed.

Lemma strip_padded (ws1 ws2 s : pystr) :
  forallb is_space ws1 = true -> forallb is_space ws2 = true ->
  strip (ws1 ++ s ++ ws2) = strip s.
Proof.
  intros H1 H2. unfold strip. rewrite lstrip_app, H1.
  rewrite lstrip_app. destruct (forallb is_space s) eqn:Es.
  - replace (lstrip ws2) with (@nil char).
    + replace (lstrip s) with (@nil char); [reflexivity|].
      destruct (lstrip s) as [|c t] eqn:E; [reflexivity|].
      pose proof (lstrip_head _ _ _ E) as Hc.
      destruct (lstrip_split s) as [ws [Ew Hw]]. rewrite Ew, forallb_app, E in Es.
      cbn in Es. rewrite Hc in Es. now rewrite andb_false_r in Es.
    + destruct (lstrip ws2) as [|c t] eqn:E; [reflexivity|].
      pose proof (lstrip_head _ _ _ E) as Hc.
      destruct (lstrip_split ws2) as [ws [Ew Hw]]. rewrite Ew, forallb_app, E in H2.
      cbn in H2. rewrite Hc in H2. now rewrite andb_false_r in H2.
  - unfold rstrip. rewrite rev_app_distr, lstrip_app, forallb_rev, H2. reflexivity.
Qed.

(** *** Character classes *)

Ltac char_unfold :=
  unfold well_formed_code, code_char, slug_char, is_alnum_ascii, is_digit,
    is_upper_ascii, is_lower_ascii, is_ascii, is_space, ascii_upper, ascii_lower,
    char_eqb, UNDERSCORE, HYPHEN, SPACE in *.

(** Case analysis on the comparisons of a goal about character classes,
    closing the impossible cases as they arise. *)
Ltac char_cases :=
  char_unfold; char_unfold;
  repeat match goal with
         | H : ?T |- _ => match type of T with Prop => revert H end
         end;
  repeat match goal with
         | |- context [if ?b then _ else _] =>
             let E := fresh in destruct b eqn:E; revert E
         end;
  repeat (match goal with
          | |- context [N.leb ?a ?b] => destruct (N.leb_spec a b)
          | |- context [N.ltb ?a ?b] => destruct (N.ltb_spec a b)
          | |- context [N.eqb ?a ?b] => destruct (N.eqb_spec a b)
          end; try lia);
  cbn; intros; try discriminate; try reflexivity; try lia.

(** The same through propositions, for the long disjunction of
    [is_space]. *)
Ltac char_props :=
  char_unfold; char_unfold;
  repeat rewrite ?orb_true_iff, ?andb_true_iff, ?N.leb_le, ?N.ltb_lt, ?N.eqb_eq in *;
  lia.

Lemma space_not_alnum (c : char) : is_space c = true -> is_alnum_ascii c = false.
Proof.
  intros Hs. apply not_true_is_false. intros Ha. revert Hs Ha. char_props.
Qed.

(** *** Unit codes *)

Lemma dict_get_In (d : list (pystr * pystr)) (k v : pystr) :
  dict_get d k = Some v -> In (k, v) d.
Proof.
  induction d as [|[k' v'] d IH]; [discriminate|]. cbn [dict_get].
  destruct (str_eqb k' k) eqn:E.
  - apply str_eqb_eq in E. intros H. inversion H. subst. now left.
  - intros H. right. now apply IH.
Qed.

Lemma prefixb_app (p a b : pystr) : prefixb p a = true -> prefixb p (a ++ b) = true.
Proof.
  revert a; induction p as [|x p IH]; intros a H; [reflexivity|].
  destruct a as [|y a]; [discriminate|]. cbn [prefixb app] in *.
  apply andb_true_iff in H as [H1 H2]. now rewrite H1, (IH a H2).
Qed.

Lemma contains_cons (needle : pystr) (c : char) (s : pystr) :
  contains needle (c :: s) = prefixb needle (c :: s) || contains needle s.
Proof. reflexivity. Qed.

Lemma contains_app_r (needle a b : pystr) :
  contains needle b = true -> contains needle (a ++ b) = true.
Proof.
  intros H. induction a as [|c a IH]; [exact H|].
  cbn [app]. rewrite contains_cons, IH. apply orb_true_r.
Qed.

Lemma contains_app_l (needle a b : pystr) :
  contains needle a = true -> contains needle (a ++ b) = true.
Proof.
  induction a as [|c a IH]; intros H.
  - destruct needle; [destruct b; reflexivity | discriminate].
  - cbn [app]. rewrite contains_cons in *. apply orb_true_iff in H as [H|H].
    + change (c :: a ++ b) with ((c :: a) ++ b). now rewrite (prefixb_app _ _ b H).
    + rewrite (IH H). apply orb_true_r.
Qed.

Lemma contains_infix (needle a b c : pystr) :
  contains needle (a ++ b ++ c) = false -> contains needle b = false.
Proof.
  intros H. destruct (contains needle b) eqn:E; [|reflexivity].
  rewrite (contains_app_r _ a _ (contains_app_l _ _ c E)) in H. discriminate.
Qed.

Lemma sub_nonalnum_chars (s : pystr) : forall b,
  forallb (fun c => is_alnum_ascii c || char_eqb c UNDERSCORE) (sub_nonalnum_go b s) = true.
Proof.
  induction s as [|c s IH]; intros b; [reflexivity|]. cbn [sub_nonalnum_go].
  destruct (is_alnum_ascii c) eqn:E.
  - cbn [forallb]. now rewrite E, IH.
  - destruct b; [apply IH|]. cbn [forallb]. rewrite IH. reflexivity.
Qed.

Lemma alnum_not_underscore (c : char) :
  is_alnum_ascii c = true -> char_eqb UNDERSCORE c = false.
Proof. char_cases. Qed.

Lemma sub_nonalnum_no_double (s : pystr) : forall b,
  contains [UNDERSCORE; UNDERSCORE] (sub_nonalnum_go b s) = false
  /\ (b = true -> prefixb [UNDERSCORE] (sub_nonalnum_go b s) = false).
Proof.
  induction s as [|c s IH]; intros b; [split; reflexivity|]. cbn [sub_nonalnum_go].
  destruct (is_alnum_ascii c) eqn:E.
  - destruct (IH false) as [H1 _]. rewrite contains_cons, H1.
    cbn [prefixb]. rewrite (alnum_not_underscore c E). split; reflexivity.
  - destruct (IH true) as [H1 H2]. destruct b; [split; [exact H1 | exact H2]|].
    rewrite contains_cons, H1. split; [|discriminate].
    cbn [prefixb] in *. specialize (H2 eq_refl).
    change (char_eqb UNDERSCORE UNDERSCORE) with true. cbn [andb].
    destruct (sub_nonalnum_go true s) as [|y r]; [reflexivity|].
    cbn [prefixb] in H2. rewrite andb_true_r in H2. rewrite H2. reflexivity.
Qed.

Lemma sub_nonalnum_alnum (s : pystr) : forall b,
  existsb is_alnum_ascii (sub_nonalnum_go b s) = existsb is_alnum_ascii s.
Proof.
  induction s as [|c s IH]; intros b; [reflexivity|]. cbn [sub_nonalnum_go existsb].
  destruct (is_alnum_ascii c) eqn:E.
  - cbn [existsb]. now rewrite E.
  - destruct b; cbn [existsb orb]; [apply IH|].
    change (is_alnum_ascii UNDERSCORE) with false. apply IH.
Qed.

Lemma lstrip_char_split (x : char) (s : pystr) :
  exists n, s = repeat x n ++ lstrip_char x s.
Proof.
  induction s as [|c s [n E]]; [now exists 0%nat|]. cbn [lstrip_char].
  destruct (char_eqb c x) eqn:Ec.
  - apply char_eqb_eq in Ec. subst c. exists (S n). cbn. now rewrite <- E.
  - now exists 0%nat.
Qed.

Lemma lstrip_char_head (x : char) (s : pystr) (c : char) (t : pystr) :
  lstrip_char x s = c :: t -> char_eqb c x = false.
Proof.
  induction s as [|y s IH]; [discriminate|]. cbn [lstrip_char].
  destruct (char_eqb y x) eqn:E; [exact IH|]. intros H. inversion H. now subst.
Qed.

Lemma strip_char_split (x : char) (s : pystr) :
  exists n m, s = repeat x n ++ strip_char x s ++ repeat x m.
Proof.
  unfold strip_char. destruct (lstrip_char_split x s) as [n E].
  destruct (lstrip_char_split x (rev (lstrip_char x s))) as [m E'].
  exists n, m. rewrite E at 1. f_equal.
  rewrite <- (rev_involutive (lstrip_char x s)) at 1. rewrite E' at 1.
  rewrite rev_app_distr. f_equal. clear. induction m as [|m IH]; [reflexivity|].
  cbn [repeat rev]. rewrite IH. clear. induction m as [|m IH]; [reflexivity|].
  cbn [repeat app]. now rewrite IH.
Qed.

Lemma strip_char_last (x : char) (s : pystr) (c : char) (t : pystr) :
  rev (strip_char x s) = c :: t -> char_eqb c x = false.
Proof.
  unfold strip_char. rewrite rev_involutive. apply lstrip_char_head.
Qed.

Lemma strip_char_head (x : char) (s : pystr) (c : char) (t : pystr) :
  strip_char x s = c :: t -> char_eqb c x = false.
Proof.
  intros H. unfold strip_char in H.
  destruct (lstrip_char_split x (rev (lstrip_char x s))) as [m E].
  apply (f_equal (@rev char)) in E. rewrite rev_involutive, rev_app_distr, H in E.
  cbn [app] in E. eapply lstrip_char_head. exact E.
Qed.

Lemma prefixb_one (x : char) (s : pystr) :
  prefixb [x] s = match s with c :: _ => char_eqb x c | [] => false end.
Proof. destruct s; [reflexivity|]. cbn. apply andb_true_r. Qed.

Lemma char_eqb_sym (a b : char) : char_eqb a b = char_eqb b a.
Proof. apply N.eqb_sym. Qed.

Lemma upper_ascii (f : pystr -> pystr) (s : pystr) :
  forallb (fun c => is_alnum_ascii c || char_eqb c UNDERSCORE) s = true ->
  upper f s = map ascii_upper s.
Proof.
  intros H. unfold upper. replace (forallb is_ascii s) with true; [reflexivity|].
  symmetry. rewrite forallb_forall in *. intros c Hc. specialize (H c Hc).
  revert H. clear. char_cases.
Qed.

Lemma upper_code_char (c : char) :
  is_alnum_ascii c || char_eqb c UNDERSCORE = true -> code_char (ascii_upper c) = true.
Proof. char_cases. Qed.

Lemma upper_underscore (c : char) :
  char_eqb UNDERSCORE (ascii_upper c) = char_eqb UNDERSCORE c.
Proof. char_cases. Qed.

Lemma prefixb_underscore_upper (s : pystr) :
  prefixb [UNDERSCORE] (map ascii_upper s) = prefixb [UNDERSCORE] s.
Proof. rewrite !prefixb_one. destruct s; [reflexivity|]. apply upper_underscore. Qed.

Lemma contains_double_upper (s : pystr) :
  contains [UNDERSCORE; UNDERSCORE] (map ascii_upper s)
  = contains [UNDERSCORE; UNDERSCORE] s.
Proof.
  induction s as [|c s IH]; [reflexivity|].
  cbn [map]. rewrite !contains_cons, IH. f_equal.
  cbn [prefixb]. rewrite upper_underscore. f_equal.
  apply (prefixb_underscore_upper s).
Qed.

(** The generic branch of [normalize_unit_code] yields a well-formed
    code, whatever the label. *)
Lemma generic_code_well_formed (f : pystr -> pystr) (clean : pystr) :
  let base := strip_char UNDERSCORE (sub_nonalnum_go false clean) in
  upper f base = map ascii_upper base
  /\ well_formed_code (map ascii_upper base) = true.
Proof.
  intros base.
  destruct (strip_char_split UNDERSCORE (sub_nonalnum_go false clean)) as [n [m E]].
  fold base in E.
  assert (Hch : forallb (fun c => is_alnum_ascii c || char_eqb c UNDERSCORE) base = true).
  { pose proof (sub_nonalnum_chars clean false) as H. rewrite E, !forallb_app in H.
    apply andb_true_iff in H as [_ H]. now apply andb_true_iff in H as [H _]. }
  split; [now apply upper_ascii|].
  unfold well_formed_code. rewrite !andb_true_iff, !negb_true_iff.
  repeat split.
  - rewrite forallb_forall. intros c Hc. apply in_map_iff in Hc as [c0 [<- Hc0]].
    apply upper_code_char. rewrite forallb_forall in Hch. now apply Hch.
  - rewrite prefixb_underscore_upper, prefixb_one.
    destruct base as [|c t] eqn:Eb; [reflexivity|].
    rewrite char_eqb_sym. eapply strip_char_head. exact Eb.
  - rewrite <- map_rev, prefixb_underscore_upper, prefixb_one.
    destruct (rev base) as [|c t] eqn:Eb; [reflexivity|].
    rewrite char_eqb_sym. eapply strip_char_last. exact Eb.
  - rewrite contains_double_upper.
    destruct (sub_nonalnum_no_double clean false) as [H _]. rewrite E in H.
    eapply contains_infix. exact H.
Qed.

Lemma special_codes_well_formed :
  forallb (fun kv => well_formed_code (snd kv)) SPECIAL_CODES = true.
Proof. vm_compute. reflexivity. Qed.

Lemma normalize_unit_code_well_formed_aux (f : pystr -> pystr) (label : pystr) :
  well_formed_code (normalize_unit_code f label) = true.
Proof.
  unfold normalize_unit_code.
  destruct (dict_get SPECIAL_CODES (strip label)) as [code|] eqn:E.
  - apply dict_get_In in E.
    pose proof special_codes_well_formed as H. rewrite forallb_forall in H.
    apply (H _ E).
  - destruct (generic_code_well_formed f (strip label)) as [H1 H2].
    cbv zeta in H1, H2. now rewrite H1.
Qed.

(** X1: whatever the label, the unit code consists of digits, upper-case
    ASCII letters and underscores only, has no underscore at either end
    and no two underscores in a row; the Unicode case tables play no part
    in it. *)
Theorem normalize_unit_code_well_formed (unicode_upper : pystr -> pystr) (label : pystr) :
  well_formed_code (normalize_unit_code unicode_upper label) = true
  /\ forall f, normalize_unit_code f label = normalize_unit_code unicode_upper label.
Proof.
  unfold normalize_unit_code.
  destruct (dict_get SPECIAL_CODES (strip label)) as [code|] eqn:E.
  - split; [|reflexivity]. apply dict_get_In in E.
    pose proof special_codes_well_formed as H. rewrite forallb_forall in H.
    apply (H _ E).
  - destruct (generic_code_well_formed unicode_upper (strip label)) as [H1 H2].
    cbv zeta in H1, H2. rewrite H1. split; [exact H2|].
    intros f. destruct (generic_code_well_formed f (strip label)) as [H3 _].
    cbv zeta in H3. now rewrite H3.
Qed.

Lemma existsb_alnum_spaces (ws : pystr) :
  forallb is_space ws = true -> existsb is_alnum_ascii ws = false.
Proof.
  induction ws as [|c ws IH]; [reflexivity|]. cbn [forallb existsb].
  intros H. apply andb_true_iff in H as [Hc Hw].
  now rewrite (space_not_alnum c Hc), (IH Hw).
Qed.

Lemma existsb_alnum_strip (s : pystr) :
  existsb is_alnum_ascii (strip s) = existsb is_alnum_ascii s.
Proof.
  destruct (strip_split s) as [ws1 [ws2 [E [H1 H2]]]]. rewrite E at 2.
  rewrite !existsb_app, (existsb_alnum_spaces _ H1), (existsb_alnum_spaces _ H2).
  now rewrite orb_false_r.
Qed.

Lemma existsb_alnum_underscores (n : nat) :
  existsb is_alnum_ascii (repeat UNDERSCORE n) = false.
Proof. induction n as [|n IH]; [reflexivity | exact IH]. Qed.

Lemma existsb_alnum_strip_char (s : pystr) :
  existsb is_alnum_ascii (strip_char UNDERSCORE s) = existsb is_alnum_ascii s.
Proof.
  destruct (strip_char_split UNDERSCORE s) as [n [m E]]. rewrite E at 2.
  rewrite !existsb_app, !existsb_alnum_underscores. now rewrite orb_false_r.
Qed.

Lemma upper_alnum (c : char) : is_alnum_ascii (ascii_upper c) = is_alnum_ascii c.
Proof. char_cases. Qed.

Lemma existsb_alnum_upper (s : pystr) :
  existsb is_alnum_ascii (map ascii_upper s) = existsb is_alnum_ascii s.
Proof.
  induction s as [|c s IH]; [reflexivity|]. cbn [map existsb].
  now rewrite upper_alnum, IH.
Qed.

Lemma code_char_cases (c : char) :
  code_char c = true -> is_alnum_ascii c = false -> char_eqb UNDERSCORE c = true.
Proof. char_cases. Qed.

Lemma well_formed_empty (s : pystr) :
  well_formed_code s = true -> existsb is_alnum_ascii s = false -> s = [].
Proof.
  unfold well_formed_code. rewrite !andb_true_iff, !negb_true_iff.
  intros [[[H1 H2] _] _] H. destruct s as [|c t]; [reflexivity|]. exfalso.
  cbn [forallb existsb] in *. apply andb_true_iff in H1 as [H1 _].
  apply orb_false_iff in H as [H _].
  rewrite prefixb_one in H2. rewrite (code_char_cases c H1 H) in H2. discriminate.
Qed.

Lemma special_codes_nonempty :
  forallb (fun kv => existsb is_alnum_ascii (fst kv)
                     && negb (str_eqb (snd kv) [])) SPECIAL_CODES = true.
Proof. vm_compute. reflexivity. Qed.

(** X2: the unit code is empty exactly when the label holds no ASCII
    letter or digit. *)
Theorem normalize_unit_code_empty (unicode_upper : pystr -> pystr) (label : pystr) :
  normalize_unit_code unicode_upper label = []
  <-> existsb is_alnum_ascii label = false.
Proof.
  rewrite <- existsb_alnum_strip.
  pose proof (normalize_unit_code_well_formed_aux unicode_upper label) as Hwf.
  revert Hwf. unfold normalize_unit_code.
  destruct (dict_get SPECIAL_CODES (strip label)) as [code|] eqn:E.
  - intros _. apply dict_get_In in E.
    pose proof special_codes_nonempty as H. rewrite forallb_forall in H.
    specialize (H _ E). cbn [fst snd] in H. apply andb_true_iff in H as [H1 H2].
    rewrite H1. apply negb_true_iff in H2. split; [|discriminate].
    intros ->. discriminate.
  - destruct (generic_code_well_formed unicode_upper (strip label)) as [H1 _].
    cbv zeta in H1. rewrite H1. intros Hwf.
    rewrite <- (sub_nonalnum_alnum (strip label) false).
    rewrite <- existsb_alnum_strip_char, <- existsb_alnum_upper.
    split; [intros ->; reflexivity | now apply well_formed_empty].
Qed.

Lemma dict_get_unpadded (d : list (pystr * pystr)) (k : pystr) :
  strip k = k -> dict_get (filter unpadded d) k = dict_get d k.
Proof.
  intros Hk. induction d as [|[k' v] d IH]; [reflexivity|].
  cbn [filter dict_get]. unfold unpadded at 1. cbn [fst].
  destruct (str_eqb (strip k') k') eqn:E.
  - cbn [dict_get]. now rewrite IH.
  - rewrite IH. destruct (str_eqb k' k) eqn:E'; [|reflexivity].
    apply str_eqb_eq in E'. subst k'. rewrite Hk in E.
    assert (str_eqb k k = true) by now apply str_eqb_eq. congruence.
Qed.

(** X3: whitespace around a label never matters to its unit code; the
    keys of [SPECIAL_CODES] that begin or end with a blank are never
    matched, since the label is stripped before the lookup: the lookup
    gives the same without them. *)
Theorem normalize_unit_code_ignores_padding (unicode_upper : pystr -> pystr)
    (label ws1 ws2 : pystr) :
  forallb is_space ws1 = true -> forallb is_space ws2 = true ->
  normalize_unit_code unicode_upper (ws1 ++ label ++ ws2)
  = normalize_unit_code unicode_upper label
  /\ dict_get (filter unpadded SPECIAL_CODES) (strip label)
     = dict_get SPECIAL_CODES (strip label)
  /\ map fst (filter (fun kv => negb (unpadded kv)) SPECIAL_CODES)
     = [u "Square Meter "; u " Square Feet"; u " Square Foot"; u " Square Yard"].
Proof.
  intros H1 H2. split; [|split].
  - unfold normalize_unit_code. now rewrite strip_padded.
  - apply dict_get_unpadded, strip_idem.
  - vm_compute. reflexivity.
Qed.

Lemma normalize_unit_code_ignores_padding_witness :
  normalize_unit_code Fixtures.no_case (u "  " ++ u "Bigha - Assam" ++ u " ")
  = normalize_unit_code Fixtures.no_case (u "Bigha - Assam").
Proof.
  apply (normalize_unit_code_ignores_padding Fixtures.no_case (u "Bigha - Assam")
           (u "  ") (u " ")); vm_compute; reflexivity.
Defined.

Lemma code_char_not_space (c : char) : code_char c = true -> is_space c = false.
Proof.
  intros Hc. apply not_true_is_false. intros Hs. revert Hc Hs. char_props.
Qed.

Lemma code_char_upper (c : char) : code_char c = true -> ascii_upper c = c.
Proof. char_cases. Qed.

Lemma code_char_ascii (c : char) : code_char c = true -> is_ascii c = true.
Proof. char_cases. Qed.

Lemma special_keys_not_codes :
  forallb (fun kv => negb (forallb code_char (fst kv))) SPECIAL_CODES = true.
Proof. vm_compute. reflexivity. Qed.

Lemma sub_nonalnum_fixed (s : pystr) : forall b,
  forallb code_char s = true ->
  contains [UNDERSCORE; UNDERSCORE] s = false ->
  (b = true -> prefixb [UNDERSCORE] s = false) ->
  sub_nonalnum_go b s = s.
Proof.
  induction s as [|c t IH]; intros b Hch Hdd Hb; [reflexivity|].
  cbn [forallb] in Hch. apply andb_true_iff in Hch as [Hc Ht].
  rewrite contains_cons in Hdd. apply orb_false_iff in Hdd as [Hp Hdd].
  cbn [sub_nonalnum_go]. destruct (is_alnum_ascii c) eqn:E.
  - f_equal. apply IH; [exact Ht | exact Hdd | discriminate].
  - pose proof (code_char_cases c Hc E) as Hu.
    destruct b.
    + specialize (Hb eq_refl). rewrite prefixb_one in Hb. congruence.
    + assert (c = UNDERSCORE) as -> by (symmetry; now apply char_eqb_eq).
      f_equal. apply IH; [exact Ht | exact Hdd |]. intros _.
      cbn [prefixb] in Hp. rewrite prefixb_one. destruct t as [|y r]; [reflexivity|].
      cbn [prefixb] in Hp. now rewrite andb_true_r in Hp.
Qed.

Lemma lstrip_char_fixed (x : char) (s : pystr) :
  prefixb [x] s = false -> lstrip_char x s = s.
Proof.
  rewrite prefixb_one. destruct s as [|c t]; [reflexivity|]. cbn [lstrip_char].
  rewrite char_eqb_sym. now intros ->.
Qed.

(** A well-formed code is its own unit code. *)
Lemma well_formed_fixed (f : pystr -> pystr) (code : pystr) :
  well_formed_code code = true -> normalize_unit_code f code = code.
Proof.
  intros Hwf. pose proof Hwf as Hwf'. unfold well_formed_code in Hwf'.
  rewrite !andb_true_iff, !negb_true_iff in Hwf'.
  destruct Hwf' as [[[Hch Hhd] Hlast] Hdd].
  assert (Hs : strip code = code).
  { apply strip_fixed. rewrite forallb_forall in *. intros c Hc.
    now rewrite (code_char_not_space c (Hch c Hc)). }
  unfold normalize_unit_code. rewrite Hs.
  destruct (dict_get SPECIAL_CODES code) as [v|] eqn:E.
  - exfalso. apply dict_get_In in E.
    pose proof special_keys_not_codes as H. rewrite forallb_forall in H.
    specialize (H _ E). cbn [fst] in H. now rewrite Hch in H.
  - rewrite (sub_nonalnum_fixed code false Hch Hdd) by discriminate.
    unfold strip_char. rewrite (lstrip_char_fixed _ _ Hhd).
    rewrite (lstrip_char_fixed _ _ Hlast), rev_involutive.
    unfold upper. replace (forallb is_ascii code) with true.
    + rewrite <- (map_id code) at 2. apply map_ext_in. intros c Hc.
      apply code_char_upper. rewrite forallb_forall in Hch. now apply Hch.
    + symmetry. rewrite forallb_forall in *. intros c Hc.
      now apply code_char_ascii, Hch.
Qed.

(** X4: normalising a unit code again changes nothing. *)
Theorem normalize_unit_code_idempotent (unicode_upper : pystr -> pystr) (label : pystr) :
  normalize_unit_code unicode_upper (normalize_unit_code unicode_upper label)
  = normalize_unit_code unicode_upper label.
Proof.
  apply well_formed_fixed.
  apply (normalize_unit_code_well_formed_aux unicode_upper label).
Qed.

(** *** Slugs *)

Lemma slug_char_of_code (c : char) :
  code_char c = true ->
  slug_char (if char_eqb (ascii_lower c) UNDERSCORE then HYPHEN else ascii_lower c) = true.
Proof. char_cases. Qed.

Lemma norm_of_code (g : pystr -> pystr) (code : pystr) :
  forallb code_char code = true ->
  replace_char UNDERSCORE HYPHEN (lower g code)
  = replace_char UNDERSCORE HYPHEN (map ascii_lower code)
  /\ forallb slug_char (replace_char UNDERSCORE HYPHEN (map ascii_lower code)) = true.
Proof.
  intros H. split.
  - unfold lower. replace (forallb is_ascii code) with true; [reflexivity|].
    symmetry. rewrite forallb_forall in *. intros c Hc. now apply code_char_ascii, H.
  - unfold replace_char. rewrite map_map, forallb_forall. intros c Hc.
    apply in_map_iff in Hc as [c0 [<- Hc0]]. apply slug_char_of_code.
    rewrite forallb_forall in H. now apply H.
Qed.

Lemma well_formed_chars (s : pystr) : well_formed_code s = true -> forallb code_char s = true.
Proof.
  unfold well_formed_code. rewrite !andb_true_iff. now intros [[[H _] _] _].
Qed.

(** X5: the slug that [process_pair] builds from the two unit codes of a
    pair holds digits, lower-case ASCII letters and hyphens only, and the
    Unicode case tables play no part in it. *)
Theorem pair_slug_alphabet (unicode_lower unicode_upper : pystr -> pystr)
    (from_label to_label : pystr) :
  let from_code := normalize_unit_code unicode_upper from_label in
  let to_code := normalize_unit_code unicode_upper to_label in
  forallb slug_char (build_slug unicode_lower from_code to_code) = true
  /\ forall g, build_slug g from_code to_code = build_slug unicode_lower from_code to_code.
Proof.
  intros from_code to_code.
  pose proof (well_formed_chars _ (normalize_unit_code_well_formed_aux unicode_upper from_label)) as Hf.
  pose proof (well_formed_chars _ (normalize_unit_code_well_formed_aux unicode_upper to_label)) as Ht.
  fold from_code in Hf. fold to_code in Ht.
  destruct (norm_of_code unicode_lower from_code Hf) as [E1 S1].
  destruct (norm_of_code unicode_lower to_code Ht) as [E2 S2].
  unfold build_slug. split.
  - rewrite E1, E2, !forallb_app, S1, S2. reflexivity.
  - intros g. destruct (norm_of_code g from_code Hf) as [E3 _].
    destruct (norm_of_code g to_code Ht) as [E4 _]. now rewrite E1, E2, E3, E4.
Qed.

(** *** Counting words *)

Lemma split_space_length (s : pystr) : forall cur,
  List.length (split_go [SPACE] 0 cur s)
  = S (List.length (filter (char_eqb SPACE) s)).
Proof.
  induction s as [|c t IH]; intros cur; [reflexivity|].
  cbn [split_go prefixb filter]. rewrite andb_true_r.
  destruct (char_eqb SPACE c); cbn [List.length pred]; now rewrite IH.
Qed.

Lemma sub_ws_all_space (t : pystr) : forall b,
  forallb is_space (sub_ws_go b t) = forallb is_space t.
Proof.
  induction t as [|c t IH]; intros b; [reflexivity|]. cbn [sub_ws_go forallb].
  destruct (is_space c) eqn:E.
  - destruct b; cbn [forallb andb]; [apply IH|].
    change (is_space SPACE) with true. apply IH.
  - cbn [forallb]. now rewrite E.
Qed.

Lemma word_runs_all_space (t : pystr) : forall w,
  forallb is_space t = true -> word_runs_go w t = 0%nat.
Proof.
  induction t as [|c t IH]; intros w H; [reflexivity|].
  cbn [forallb] in H. apply andb_true_iff in H as [Hc Ht].
  cbn [word_runs_go]. rewrite Hc. now apply IH.
Qed.

Lemma not_space_not_SPACE (c : char) : is_space c = false -> char_eqb SPACE c = false.
Proof.
  intros H. destruct (char_eqb SPACE c) eqn:E; [|reflexivity].
  apply char_eqb_eq in E. subst c. discriminate H.
Qed.

(** The spaces left by collapsing and right-stripping a text are as many
    as the words still to begin. *)
Lemma spaces_and_words (t : pystr) :
  List.length (filter (char_eqb SPACE) (rstrip (sub_ws_go false t)))
    = word_runs_go true t
  /\ (forallb is_space t = false ->
      S (List.length (filter (char_eqb SPACE) (rstrip (sub_ws_go true t))))
      = word_runs_go false t).
Proof.
  induction t as [|c t [IHa IHb]]; [split; [reflexivity | discriminate]|].
  cbn [sub_ws_go word_runs_go forallb]. destruct (is_space c) eqn:E.
  - cbn [andb]. split.
    + rewrite rstrip_cons. cbn [forallb]. change (is_space SPACE) with true.
      cbn [andb]. rewrite sub_ws_all_space.
      destruct (forallb is_space t) eqn:Et.
      * now rewrite (word_runs_all_space t false Et).
      * cbn [filter]. change (char_eqb SPACE SPACE) with true.
        cbn [List.length]. now apply IHb.
    + exact IHb.
  - cbn [andb]. split.
    + rewrite rstrip_cons. cbn [forallb]. rewrite E. cbn [andb filter].
      rewrite (not_space_not_SPACE c E). exact IHa.
    + intros _. rewrite rstrip_cons. cbn [forallb]. rewrite E. cbn [andb filter].
      rewrite (not_space_not_SPACE c E). cbn. now rewrite IHa.
Qed.

Lemma lstrip_sub_ws (x : pystr) : forall b,
  lstrip (sub_ws_go b x) = sub_ws_go false (lstrip x).
Proof.
  induction x as [|c t IH]; intros b; [reflexivity|].
  cbn [sub_ws_go lstrip]. destruct (is_space c) eqn:E.
  - destruct b; [apply IH|]. cbn [lstrip]. change (is_space SPACE) with true.
    apply IH.
  - cbn [lstrip sub_ws_go]. now rewrite E.
Qed.

Lemma word_runs_lstrip (x : pystr) : word_runs_go false (lstrip x) = word_runs_go false x.
Proof.
  induction x as [|c t IH]; [reflexivity|]. cbn [lstrip word_runs_go].
  destruct (is_space c) eqn:E; [exact IH|]. cbn [word_runs_go]. now rewrite E.
Qed.

(** Collapsing whitespace, stripping and splitting at single spaces
    counts the words of a text. *)
Lemma split_counts_words (x : pystr) :
  match strip (sub_ws x) with
  | [] => 0
  | _ :: _ => N.of_nat (List.length (split [SPACE] (strip (sub_ws x))))
  end = N.of_nat (word_runs x).
Proof.
  unfold strip, sub_ws, word_runs. rewrite lstrip_sub_ws, <- word_runs_lstrip.
  destruct (lstrip x) as [|c t] eqn:El; [reflexivity|].
  pose proof (lstrip_head _ _ _ El) as Hc.
  cbn [sub_ws_go word_runs_go]. rewrite Hc.
  rewrite rstrip_cons. cbn [forallb]. rewrite Hc. cbn [andb].
  unfold split. rewrite split_space_length. cbn [filter].
  rewrite (not_space_not_SPACE c Hc).
  destruct (spaces_and_words t) as [Ha _]. now rewrite Ha.
Qed.

Lemma html_word_count_runs (s : pystr) :
  html_word_count (Some s) = N.of_nat (word_runs (sub_tags s)).
Proof.
  destruct s as [|c t]; [reflexivity|].
  rewrite <- split_counts_words. unfold html_word_count.
  destruct (strip (sub_ws (sub_tags (c :: t)))); reflexivity.
Qed.

(** X6: the word count of an HTML text is the number of maximal runs of
    non-whitespace characters that remain once every tag is replaced by a
    space; the count of [None] is 0. *)
Theorem html_word_count_is_word_runs (s : pystr) :
  html_word_count (Some s) = N.of_nat (word_runs (sub_tags s))
  /\ html_word_count None = 0.
Proof. split; [apply html_word_count_runs | reflexivity]. Qed.

(** *** Tags *)

Lemma sub_tags_go_plain (a rest : pystr) :
  existsb (char_eqb LT) a = false ->
  sub_tags_go 0 (a ++ rest) = a ++ sub_tags_go 0 rest.
Proof.
  induction a as [|c a IH]; intros H; [reflexivity|].
  cbn [existsb] in H. apply orb_false_iff in H as [Hc Ha].
  cbn [app sub_tags_go]. rewrite char_eqb_sym, Hc. now rewrite (IH Ha).
Qed.

Lemma tag_close_body (body rest : pystr) :
  existsb (char_eqb GT) body = false ->
  tag_close (body ++ GT :: rest) = Some (S (List.length body)).
Proof.
  induction body as [|c body IH]; intros H; [reflexivity|].
  cbn [existsb] in H. apply orb_false_iff in H as [Hc Hb].
  cbn [app tag_close]. rewrite char_eqb_sym, Hc, (IH Hb). reflexivity.
Qed.

Lemma sub_tags_go_skip (x : pystr) (y : char) (rest : pystr) :
  sub_tags_go (S (List.length x)) (x ++ y :: rest) = sub_tags_go 0 rest.
Proof. induction x as [|c x IH]; [reflexivity | exact IH]. Qed.

Lemma word_runs_go_app_space (a y : pystr) : forall w,
  word_runs_go w (a ++ SPACE :: y) = (word_runs_go w a + word_runs_go false y)%nat.
Proof.
  induction a as [|c a IH]; intros w; [reflexivity|].
  cbn [app word_runs_go]. destruct (is_space c); rewrite IH; lia.
Qed.

(** X7: a tag separates words.  For a text [a] without [<], a tag
    [<body>] with a non-empty body free of [>], and any text [b], the word
    count of [a<body>b] is the count of [a] plus the count of [b]. *)
Theorem tag_separates_words (a body b : pystr) :
  existsb (char_eqb LT) a = false ->
  body <> [] ->
  existsb (char_eqb GT) body = false ->
  html_word_count (Some (a ++ [LT] ++ body ++ [GT] ++ b))
  = html_word_count (Some a) + html_word_count (Some b).
Proof.
  intros Ha Hne Hb. rewrite !html_word_count_runs. unfold sub_tags.
  rewrite (sub_tags_go_plain a _ Ha).
  rewrite <- (app_nil_r a) at 2. rewrite (sub_tags_go_plain a [] Ha).
  cbn [sub_tags_go app]. change (char_eqb LT LT) with true. cbv iota.
  rewrite (tag_close_body body b Hb).
  destruct body as [|c body]; [congruence|].
  pose proof (sub_tags_go_skip (c :: body) GT b) as Hs.
  cbn [List.length] in Hs |- *. rewrite Hs, app_nil_r.
  unfold word_runs. rewrite word_runs_go_app_space. lia.
Qed.

Lemma tag_separates_words_witness :
  html_word_count (Some (u "in" ++ [LT] ++ u "b" ++ [GT] ++ u "side")) = 1 + 1.
Proof.
  apply (tag_separates_words (u "in") (u "b") (u "side"));
    [reflexivity | discriminate | reflexivity].
Defined.

(** *** Issues and section names *)

(** X8: the validator and the mapping from issues to section names
    agree.  Every issue the validator writes is recognised, so that the
    names derived from a validation are exactly the sections that hold a
    failing place, each once; no name is derived exactly when the page
    is valid. *)
Theorem validation_names_failing_sections (c : ChildPageOutput) :
  let names := section_names_from_issues (validate_child_lengths c) in
  (forall s, In s names <-> exists k, In k (failing_slots c) /\ slot_section k = s)
  /\ NoDup names
  /\ (names = [] <-> validate_child_lengths c = []).
Proof.
  intros names. split; [apply section_names_of_validation|].
  split; [apply section_names_NoDup|]. split.
  - intros Hn. rewrite validate_issue_at.
    destruct (failing_slots c) as [|k l] eqn:E; [reflexivity|]. exfalso.
    assert (Hin : In (slot_section k) names).
    { apply section_names_of_validation. exists k. rewrite E. split; [now left | reflexivity]. }
    rewrite Hn in Hin. exact Hin.
  - intros Hv. unfold names. now rewrite Hv.
Qed.

(** *** The stored document *)

Lemma build_faqs_spec (l : list faq_dict) : forall idx,
  match build_faqs idx l with
  | Ok docs =>
      forallb complete l = true
      /\ List.length docs = List.length l
      /\ forall i f, nth_error l i = Some f ->
           exists q a, question f = Some q /\ answer_html f = Some a
             /\ nth_error docs i = Some (mk_faq_doc q a true (N.of_nat (idx + i) + 1))
  | Raise e =>
      exists pre f post,
        l = pre ++ f :: post /\ forallb complete pre = true
        /\ ((question f = None /\ e = KeyError (u "question"))
            \/ (question f <> None /\ answer_html f = None
                /\ e = KeyError (u "answer_html")))
  end.
Proof.
  induction l as [|f l IH]; intros idx.
  - cbn [build_faqs]. split; [reflexivity|]. split; [reflexivity|].
    intros [|i] f H; discriminate.
  - cbn [build_faqs]. destruct (question f) as [q|] eqn:Eq.
    + destruct (answer_html f) as [a|] eqn:Ea.
      * specialize (IH (S idx)). destruct (build_faqs (S idx) l) as [docs|e].
        -- destruct IH as [Hc [Hl Hn]]. split; [|split].
           ++ cbn [forallb]. unfold complete at 1. now rewrite Eq, Ea.
           ++ cbn [List.length]. now rewrite Hl.
           ++ intros [|i] f' H.
              ** inversion H. subst f'. exists q, a.
                 rewrite Nat.add_0_r. repeat split; assumption.
              ** cbn [nth_error] in *. destruct (Hn i f' H) as [q' [a' [H1 [H2 H3]]]].
                 exists q', a'. repeat split; try assumption.
                 rewrite H3. now rewrite Nat.add_succ_r.
        -- destruct IH as [pre [f' [post [Hl [Hc He]]]]].
           exists (f :: pre), f', post. split; [now rewrite Hl|]. split; [|exact He].
           cbn [forallb]. unfold complete at 1. now rewrite Eq, Ea.
      * exists [], f, l. split; [reflexivity|]. split; [reflexivity|].
        right. split; [congruence|]. split; [exact Ea | reflexivity].
    + exists [], f, l. split; [reflexivity|]. split; [reflexivity|].
      left. split; [exact Eq | reflexivity].
Qed.

Lemma build_faqs_complete (l : list faq_dict) : forall idx,
  forallb complete l = true -> exists docs, build_faqs idx l = Ok docs.
Proof.
  induction l as [|f l IH]; intros idx H; [now exists []|].
  cbn [forallb] in H. apply andb_true_iff in H as [Hf Hl].
  unfold complete in Hf. cbn [build_faqs].
  destruct (question f) as [q|]; [|discriminate].
  destruct (answer_html f) as [a|]; [|discriminate].
  destruct (IH (S idx) Hl) as [docs Hd]. rewrite Hd. eexists. reflexivity.
Qed.

(** X9: [build_child_mongo_doc] returns a document exactly when every FAQ
    entry of the page carries both keys.  The document then lists the
    entries in their order, each active and numbered from 1.  Otherwise
    it raises [KeyError] for the first entry that lacks a key, naming
    [question] if that entry lacks it and [answer_html] if not. *)
Theorem child_doc_faqs (now : datetime) (ai : ChildPageOutput)
    (parent_slug slug url_path from_unit_code to_unit_code
       from_unit_label to_unit_label locale site_code : pystr) :
  let out := build_child_mongo_doc now ai parent_slug slug url_path from_unit_code
               to_unit_code from_unit_label to_unit_label locale site_code in
  ((exists doc, out = Ok doc) <-> forallb complete (faqs ai) = true)
  /\ (forall doc, out = Ok doc ->
        List.length (doc_faqs doc) = List.length (faqs ai)
        /\ forall i f, nth_error (faqs ai) i = Some f ->
             exists q a, question f = Some q /\ answer_html f = Some a
               /\ nth_error (doc_faqs doc) i
                  = Some (mk_faq_doc q a true (N.of_nat i + 1)))
  /\ (forall e, out = Raise e ->
        exists pre f post,
          faqs ai = pre ++ f :: post /\ forallb complete pre = true
          /\ ((question f = None /\ e = KeyError (u "question"))
              \/ (question f <> None /\ answer_html f = None
                  /\ e = KeyError (u "answer_html")))).
Proof.
  intros out. unfold out, build_child_mongo_doc.
  pose proof (build_faqs_spec (faqs ai) 0) as H.
  destruct (build_faqs 0 (faqs ai)) as [docs|e] eqn:E.
  - destruct H as [Hc [Hl Hn]]. split; [|split].
    + split; [intros _; exact Hc | intros _; eexists; reflexivity].
    + intros doc Hd. inversion Hd. subst doc. cbn [doc_faqs]. split; [exact Hl | exact Hn].
    + intros e He. discriminate.
  - split; [|split].
    + split; [intros [doc Hd]; discriminate|].
      intros Hc. destruct (build_faqs_complete (faqs ai) 0 Hc) as [docs Hd]. congruence.
    + intros doc Hd. discriminate.
    + intros e' He. inversion He. subst e'. exact H.
Qed.

Lemma build_faqs_back (l : list faq_dict) : forall idx docs,
  build_faqs idx l = Ok docs ->
  map (fun d => mk_faq (Some (faq_question d)) (Some (answerHtml d))) docs = l.
Proof.
  induction l as [|f l IH]; intros idx docs H.
  - inversion H. reflexivity.
  - cbn [build_faqs] in H. destruct f as [[q|] [a|]]; cbn [question answer_html] in H;
      try discriminate.
    destruct (build_faqs (S idx) l) as [docs'|e] eqn:E; [|discriminate].
    inversion H. subst docs. cbn [map faq_question answerHtml]. f_equal.
    now apply (IH (S idx)).
Qed.

Lemma page_of_built_doc (now : datetime) (ai : ChildPageOutput)
    (parent_slug slug url_path from_unit_code to_unit_code
       from_unit_label to_unit_label locale site_code : pystr) (doc : mongo_doc) :
  build_child_mongo_doc now ai parent_slug slug url_path from_unit_code
    to_unit_code from_unit_label to_unit_label locale site_code = Ok doc ->
  page_of_doc doc = ai.
Proof.
  unfold build_child_mongo_doc.
  destruct (build_faqs 0 (faqs ai)) as [docs|e] eqn:E; [|discriminate].
  intros H. inversion H. subst doc. unfold page_of_doc.
  cbn [standaloneSections seo metaTitle metaDescription h1Heading whyConvertSection
       explanationHtml descriptionHtml fst snd examplesSection_contentHtml
       technicalDetailsSection technicalExplanationHtml doc_faqs].
  rewrite (build_faqs_back _ _ _ E). destruct ai. reflexivity.
Qed.

(** X10: the document built from a page keeps the whole page: its SEO
    fields, its five sections and its FAQ entries can be read back from
    the document unchanged. *)
Theorem child_doc_keeps_page (now : datetime) (ai : ChildPageOutput)
    (parent_slug slug url_path from_unit_code to_unit_code
       from_unit_label to_unit_label locale site_code : pystr) (doc : mongo_doc) :
  build_child_mongo_doc now ai parent_slug slug url_path from_unit_code
    to_unit_code from_unit_label to_unit_label locale site_code = Ok doc ->
  page_of_doc doc = ai.
Proof. apply page_of_built_doc. Qed.

Lemma child_doc_keeps_page_witness :
  exists doc,
    build_child_mongo_doc 7 Fixtures.page_ok (u "area-convertor") (u "bigha-to-acre")
      (u "/area-convertor/bigha-to-acre") (u "BIGHA") (u "ACRE") (u "Bigha") (u "Acre")
      (u "en-IN") (u "sqy-india-web") = Ok doc
    /\ page_of_doc doc = Fixtures.page_ok.
Proof.
  eexists. split; [vm_compute; reflexivity|].
  apply (child_doc_keeps_page 7 Fixtures.page_ok (u "area-convertor") (u "bigha-to-acre")
           (u "/area-convertor/bigha-to-acre") (u "BIGHA") (u "ACRE") (u "Bigha")
           (u "Acre") (u "en-IN") (u "sqy-india-web")).
  vm_compute. reflexivity.
Defined.

Lemma child_doc_faqs_witness :
  exists doc,
    build_child_mongo_doc 7 Fixtures.page_ok (u "area-convertor") (u "bigha-to-acre")
      (u "/area-convertor/bigha-to-acre") (u "BIGHA") (u "ACRE") (u "Bigha") (u "Acre")
      (u "en-IN") (u "sqy-india-web") = Ok doc
    /\ List.length (doc_faqs doc) = List.length (faqs Fixtures.page_ok).
Proof.
  eexists. split; [vm_compute; reflexivity|].
  refine (proj1 (proj1 (proj2
    (child_doc_faqs 7 Fixtures.page_ok (u "area-convertor") (u "bigha-to-acre")
       (u "/area-convertor/bigha-to-acre") (u "BIGHA") (u "ACRE") (u "Bigha")
       (u "Acre") (u "en-IN") (u "sqy-india-web"))) _ _)).
  vm_compute. reflexivity.
Defined.

(** *** What a computation adds to the trace *)

Section Emits.

Variable unicode_lower : pystr -> pystr.
Variable unicode_upper : pystr -> pystr.
Variable oracle : Type.
Variable generate_child_content_ext :
  payload -> oracle -> option ChildPageOutput * oracle.
Variable regenerate_section_ext :
  SectionName -> regen_args -> oracle -> option regen_dict * oracle.
Variable utcnow_ext : oracle -> datetime * oracle.
Variable set_iter : pyset -> list SectionName.

Variable P : event -> bool.

Lemma emits_ret {A} (a : A) : emits P (ret a : M (world oracle) A).
Proof. intros w. exists []. now rewrite app_nil_r. Qed.

Lemma emits_raise {A} (e : exn) : emits P (raise e : M (world oracle) A).
Proof. intros w. exists []. now rewrite app_nil_r. Qed.

Lemma emits_bind {A B} (c : M (world oracle) A) (k : A -> M (world oracle) B) :
  emits P c -> (forall a, emits P (k a)) -> emits P (bind c k).
Proof.
  intros Hc Hk w. unfold bind. destruct (Hc w) as [e1 [E1 F1]].
  destruct (c w) as [[a|e] w1]; cbn [snd] in *.
  - destruct (Hk a w1) as [e2 [E2 F2]]. exists (e1 ++ e2).
    now rewrite E2, E1, app_assoc, forallb_app, F1, F2.
  - now exists e1.
Qed.

Lemma emits_emit (e : event) : P e = true -> emits P (emit (oracle:=oracle) e).
Proof. intros H w. exists [e]. cbn. now rewrite H. Qed.

Lemma emits_lift {A} (r : result A) : emits P (lift (oracle:=oracle) r).
Proof. destruct r; [apply emits_ret | apply emits_raise]. Qed.

Lemma emits_getitem {A} (key : pystr) (v : option A) :
  emits P (getitem (oracle:=oracle) key v).
Proof. destruct v; [apply emits_ret | apply emits_raise]. Qed.

Lemma emits_utcnow : emits P (utcnow utcnow_ext).
Proof.
  intros w. exists []. unfold utcnow. destruct (utcnow_ext (ext w)).
  cbn. now rewrite app_nil_r.
Qed.

Lemma emits_generate (p : payload) :
  P (EvGenerate p) = true -> emits P (generate_child_content generate_child_content_ext p).
Proof.
  intros H w. exists [EvGenerate p]. unfold generate_child_content.
  destruct (generate_child_content_ext p (ext w)) as [[c|] o]; cbn; now rewrite H.
Qed.

Lemma emits_print_issues (issues : list pystr) :
  (forall i, P (EvPrint (MsgIssue i)) = true) ->
  emits P (print_issues (oracle:=oracle) issues).
Proof.
  intros H. induction issues as [|i issues IH]; [apply emits_ret|].
  cbn [print_issues]. apply emits_bind; [apply emits_emit, H | intros _; exact IH].
Qed.

Section Regeneration.

Hypothesis regenerate_ok : forall s a, P (EvRegenerate s a) = true.

Lemma emits_regenerate (s : SectionName) (a : regen_args) :
  emits P (regenerate_section regenerate_section_ext s a).
Proof.
  intros w. exists [EvRegenerate s a]. unfold regenerate_section.
  destruct (regenerate_section_ext s a (ext w)) as [[d|] o]; cbn;
    now rewrite regenerate_ok.
Qed.

Lemma emits_regen_one (a : regen_args) (s : SectionName) (c : ChildPageOutput) :
  emits P (regen_one regenerate_section_ext a s c).
Proof.
  unfold regen_one. apply emits_bind; [apply emits_regenerate|].
  intros d. destruct s; (apply emits_bind; [apply emits_getitem | intros v; apply emits_ret]).
Qed.

Lemma emits_regen_sections (a : regen_args) (order : list SectionName) :
  forall c, emits P (regen_sections regenerate_section_ext a order c).
Proof.
  induction order as [|s order IH]; intros c; [apply emits_ret|].
  cbn [regen_sections]. apply emits_bind; [apply emits_regen_one | exact IH].
Qed.

Lemma emits_fix_pass (a : regen_args) (c : ChildPageOutput) (issues : list pystr) :
  emits P (fix_pass regenerate_section_ext set_iter a c issues).
Proof.
  unfold fix_pass. apply emits_bind; [apply emits_regen_sections|].
  intros c'. apply emits_ret.
Qed.

Lemma emits_fix_loop (a : regen_args) (n : nat) : forall c issues,
  emits P (fix_loop regenerate_section_ext set_iter n a c issues).
Proof.
  induction n as [|n IH]; intros c issues; [apply emits_ret|].
  cbn [fix_loop]. destruct issues as [|i issues]; [apply emits_ret|].
  apply emits_bind; [apply emits_fix_pass | intros r; apply IH].
Qed.

End Regeneration.

Lemma emits_repair (a : regen_args) (auto_fix : bool) (passes : Z) (c : ChildPageOutput) :
  (auto_fix = true -> (0 < passes)%Z -> forall s a, P (EvRegenerate s a) = true) ->
  emits P (repair regenerate_section_ext set_iter a auto_fix passes c).
Proof.
  intros H. unfold repair. destruct (validate_child_lengths c); [apply emits_ret|].
  destruct auto_fix; [|apply emits_ret].
  destruct (Z.to_nat passes) as [|n] eqn:E; [apply emits_ret|].
  rewrite <- E. apply emits_fix_loop. apply H; [reflexivity | lia].
Qed.

End Emits.

Lemma emits_weaken (oracle A : Type) (P Q : event -> bool) (c : M (world oracle) A) :
  (forall e, P e = true -> Q e = true) -> emits P c -> emits Q c.
Proof.
  intros H Hc w. destruct (Hc w) as [evs [E F]]. exists evs. split; [exact E|].
  rewrite forallb_forall in *. auto.
Qed.

(** *** What the settings permit *)

Section Permitted.

Variable unicode_lower : pystr -> pystr.
Variable unicode_upper : pystr -> pystr.
Variable float_of_str : pystr -> option spec_float.
Variable oracle : Type.
Variable generate_child_content_ext :
  payload -> oracle -> option ChildPageOutput * oracle.
Variable regenerate_section_ext :
  SectionName -> regen_args -> oracle -> option regen_dict * oracle.
Variable utcnow_ext : oracle -> datetime * oracle.
Variable set_iter : pyset -> list SectionName.
Variable args : settings.

Lemma persist_permitted (from_code to_code from_label to_label : pystr)
    (factor : spec_float) (c : ChildPageOutput) (issues : list pystr) :
  emits (permitted args)
    (persist unicode_lower utcnow_ext from_code to_code from_label to_label
       factor args c issues).
Proof.
  unfold persist. apply emits_bind; [apply emits_utcnow|]. intros now.
  apply emits_bind; [apply emits_lift|]. intros doc.
  apply emits_bind.
  - destruct (html_out_dir args) as [dir|] eqn:E; [|apply emits_ret].
    apply emits_bind; [apply emits_emit; cbn; now rewrite E|]. intros _.
    apply emits_bind; [apply emits_emit; cbn; now rewrite E|]. intros _.
    apply emits_emit. cbn. now rewrite E.
  - intros _. apply emits_bind; [|intros _; apply emits_ret].
    destruct (preview_only args) eqn:E; apply emits_emit; cbn; now rewrite E.
Qed.

Lemma repair_permitted (a : regen_args) (c : ChildPageOutput) :
  emits (permitted args)
    (repair regenerate_section_ext set_iter a (auto_fix_lengths args)
       (max_fix_passes args) c).
Proof.
  apply emits_repair. intros Ha Hp s a'. cbn. rewrite Ha.
  now apply Z.ltb_lt in Hp as ->.
Qed.

Lemma process_pair_permitted (row_label col_label : pystr) (factor : spec_float) :
  emits (permitted args)
    (process_pair unicode_lower unicode_upper generate_child_content_ext
       regenerate_section_ext utcnow_ext set_iter row_label col_label factor args).
Proof.
  unfold process_pair. apply emits_bind; [now apply emits_generate|]. intros c.
  apply emits_bind; [apply repair_permitted|]. intros r. apply persist_permitted.
Qed.

Lemma row_loop_permitted (row_label : label) (cells : list (pystr * cell)) :
  forall st,
  emits (permitted args)
    (row_loop unicode_lower unicode_upper float_of_str generate_child_content_ext
       regenerate_section_ext utcnow_ext set_iter args row_label cells st).
Proof.
  induction cells as [|[col_label factor] rest IH]; intros st; [apply emits_ret|].
  cbn [row_loop]. destruct (is_blank factor); [apply IH|].
  destruct (is_zero factor); [apply IH|].
  destruct (str_eqb (strip (str_of_label row_label)) (strip col_label)); [apply IH|].
  destruct (limit_on args && (limit_pairs args <? processed st + 1)%Z);
    [apply emits_ret|].
  apply emits_bind; [apply emits_lift|]. intros from_label.
  apply emits_bind; [now apply emits_emit|]. intros _.
  apply emits_bind; [apply emits_lift|]. intros factor_float.
  apply emits_bind; [apply process_pair_permitted|]. intros r.
  destruct (fst r).
  - apply emits_bind; [now apply emits_emit | intros _; apply IH].
  - apply emits_bind; [now apply emits_emit|]. intros _.
    apply emits_bind; [now apply emits_print_issues | intros _; apply IH].
Qed.

Lemma table_loop_permitted (cols : list pystr) (rs : list (label * list cell)) :
  forall st,
  emits (permitted args)
    (table_loop unicode_lower unicode_upper float_of_str generate_child_content_ext
       regenerate_section_ext utcnow_ext set_iter args cols rs st).
Proof.
  induction rs as [|[row_label cells] rest IH]; intros st; [apply emits_ret|].
  cbn [table_loop]. apply emits_bind; [apply row_loop_permitted|]. intros st'.
  destruct (limit_on args && (limit_pairs args <=? processed st')%Z);
    [apply emits_ret | apply IH].
Qed.

(** Whatever its outcome, [main] adds to the trace the events of the
    loop over the table, all permitted by the settings, and then, when
    it returns, the summary. *)
Lemma main_trace (csv_path : pystr) (df : option matrix) (w : world oracle) :
  let out := main unicode_lower unicode_upper float_of_str generate_child_content_ext
               regenerate_section_ext utcnow_ext set_iter args csv_path df w in
  exists evs,
    forallb (permitted args) evs = true
    /\ match fst out with
       | Ok st => trace (snd out)
                  = trace w ++ evs ++ [EvPrint (MsgSummary (processed st) (successes st)
                                                   (failures st))]
       | Raise e => trace (snd out) = trace w ++ evs
       end.
Proof.
  intros out. unfold out, main. destruct df as [df|].
  - unfold bind.
    destruct (table_loop_permitted (col_labels df) (rows df) (mk_counters 0 0 0) w)
      as [evs [E F]].
    destruct (table_loop _ _ _ _ _ _ _ _ _ _ _ w) as [[st|e] w1]; cbn [fst snd] in *.
    + exists evs. split; [exact F|]. unfold print, emit, ret. cbn [fst snd trace].
      now rewrite E, app_assoc.
    + exists evs. split; [exact F | exact E].
  - exists []. split; [reflexivity|]. cbn. now rewrite app_nil_r.
Qed.

End Permitted.

Lemma permitted_no_store (args : settings) (evs : list event) :
  forallb (permitted args) evs = true ->
  (preview_only args = true -> existsb is_store_write evs = false)
  /\ (preview_only args = false -> existsb is_json_print evs = false)
  /\ (html_out_dir args = None -> existsb is_file_write evs = false)
  /\ (auto_fix_lengths args = false \/ (max_fix_passes args <= 0)%Z ->
      existsb is_any_regenerate evs = false)
  /\ existsb is_summary evs = false.
Proof.
  induction evs as [|e evs IH]; intros H; [repeat split; reflexivity|].
  cbn [forallb] in H. apply andb_true_iff in H as [He Hevs].
  destruct (IH Hevs) as [I1 [I2 [I3 [I4 I5]]]]. cbn [existsb].
  repeat split.
  - intros Hp. rewrite (I1 Hp), orb_false_r.
    destruct e; try reflexivity. cbn in He. now rewrite Hp in He.
  - intros Hp. rewrite (I2 Hp), orb_false_r.
    destruct e as [| | | |m|]; try reflexivity. destruct m; try reflexivity.
    cbn in He. now rewrite Hp in He.
  - intros Hd. rewrite (I3 Hd), orb_false_r.
    destruct e as [| | | |m|]; try reflexivity; try destruct m; try reflexivity;
      cbn in He; now rewrite Hd in He.
  - intros Ha. rewrite (I4 Ha), orb_false_r.
    destruct e; try reflexivity. cbn in He. apply andb_true_iff in He as [H1 H2].
    apply Z.ltb_lt in H2. destruct Ha as [Ha|Ha]; [congruence | lia].
  - rewrite I5, orb_false_r.
    destruct e as [| | | |m|]; try reflexivity. destruct m; try reflexivity.
    discriminate He.
Qed.

Lemma existsb_snoc_false {A} (f : A -> bool) (l : list A) (x : A) :
  existsb f l = false -> f x = false -> existsb f (l ++ [x]) = false.
Proof. intros H1 H2. rewrite existsb_app, H1. cbn. now rewrite H2. Qed.

(** X11: the settings decide where a batch writes.  In preview mode
    nothing is written to the store; outside preview mode no document is
    printed; without an HTML directory no directory is made and no
    preview file is written.  This holds whether [main] returns or
    raises. *)
Theorem batch_output_follows_settings
    (unicode_lower unicode_upper : pystr -> pystr)
    (float_of_str : pystr -> option spec_float) (oracle : Type)
    (generate_child_content_ext : payload -> oracle -> option ChildPageOutput * oracle)
    (regenerate_section_ext :
       SectionName -> regen_args -> oracle -> option regen_dict * oracle)
    (utcnow_ext : oracle -> datetime * oracle)
    (set_iter : pyset -> list SectionName)
    (args : settings) (csv_path : pystr) (df : option matrix) (w : world oracle) :
  let out := main unicode_lower unicode_upper float_of_str generate_child_content_ext
               regenerate_section_ext utcnow_ext set_iter args csv_path df w in
  exists evs,
    trace (snd out) = trace w ++ evs
    /\ (preview_only args = true -> existsb is_store_write evs = false)
    /\ (preview_only args = false -> existsb is_json_print evs = false)
    /\ (html_out_dir args = None -> existsb is_file_write evs = false).
Proof.
  intros out.
  destruct (main_trace unicode_lower unicode_upper float_of_str oracle generate_child_content_ext
              regenerate_section_ext utcnow_ext set_iter args csv_path df w)
    as [evs [F E]]. fold out in E.
  destruct (permitted_no_store args evs F) as [I1 [I2 [I3 _]]].
  destruct (fst out) as [st|e].
  - eexists. split; [exact E|]. repeat split; intros H;
      apply existsb_snoc_false; auto.
  - exists evs. split; [exact E|]. repeat split; assumption.
Qed.

(** X12: sections are regenerated only on request.  When auto-fix is
    off, or when the number of passes is zero or negative, no call to the
    regenerator is made during the whole batch. *)
Theorem batch_regenerates_only_on_request
    (unicode_lower unicode_upper : pystr -> pystr)
    (float_of_str : pystr -> option spec_float) (oracle : Type)
    (generate_child_content_ext : payload -> oracle -> option ChildPageOutput * oracle)
    (regenerate_section_ext :
       SectionName -> regen_args -> oracle -> option regen_dict * oracle)
    (utcnow_ext : oracle -> datetime * oracle)
    (set_iter : pyset -> list SectionName)
    (args : settings) (csv_path : pystr) (df : option matrix) (w : world oracle) :
  auto_fix_lengths args = false \/ (max_fix_passes args <= 0)%Z ->
  regenerated
    (trace (snd (main unicode_lower unicode_upper float_of_str generate_child_content_ext
                   regenerate_section_ext utcnow_ext set_iter args csv_path df w)))
  = regenerated (trace w).
Proof.
  intros Ha.
  destruct (main_trace unicode_lower unicode_upper float_of_str oracle generate_child_content_ext
              regenerate_section_ext utcnow_ext set_iter args csv_path df w)
    as [evs [F E]]. cbv zeta in E.
  destruct (permitted_no_store args evs F) as [_ [_ [_ [I4 _]]]].
  specialize (I4 Ha).
  assert (Hr : regenerated evs = []).
  { clear -I4. induction evs as [|e evs IH]; [reflexivity|].
    cbn [existsb] in I4. apply orb_false_iff in I4 as [H1 H2].
    destruct e; try discriminate; cbn [regenerated]; now apply IH. }
  destruct (fst (main _ _ _ _ _ _ _ _ _ _ _)) as [st|e]; rewrite E.
  - rewrite !regenerated_app, Hr. cbn [regenerated app]. now rewrite app_nil_r.
  - now rewrite regenerated_app, Hr, app_nil_r.
Qed.

Lemma batch_regenerates_only_on_request_witness :
  regenerated
    (trace (snd (main Fixtures.no_case Fixtures.no_case Fixtures.no_float
                   (Fixtures.gen_const Fixtures.page_short_why) Fixtures.regen_short
                   Fixtures.clock Fixtures.insertion_order
                   (Fixtures.cli 0 false 2) (u "matrix.csv")
                   (Some Fixtures.matrix_2x2) Fixtures.w0)))
  = regenerated (trace Fixtures.w0).
Proof.
  apply (batch_regenerates_only_on_request Fixtures.no_case Fixtures.no_case Fixtures.no_float nat
           (Fixtures.gen_const Fixtures.page_short_why) Fixtures.regen_short
           Fixtures.clock Fixtures.insertion_order
           (Fixtures.cli 0 false 2) (u "matrix.csv")
           (Some Fixtures.matrix_2x2) Fixtures.w0).
  left. reflexivity.
Defined.


Lemma batch_output_follows_settings_witness :
  exists evs,
    trace (snd (main Fixtures.no_case Fixtures.no_case Fixtures.no_float
                  (Fixtures.gen_const Fixtures.page_ok) Fixtures.regen_short
                  Fixtures.clock Fixtures.insertion_order
                  (Fixtures.cli 0 false 2) (u "matrix.csv")
                  (Some Fixtures.matrix_2x2) Fixtures.w0))
    = trace Fixtures.w0 ++ evs
    /\ existsb is_json_print evs = false
    /\ existsb is_file_write evs = false.
Proof.
  pose proof (batch_output_follows_settings Fixtures.no_case Fixtures.no_case Fixtures.no_float nat
                (Fixtures.gen_const Fixtures.page_ok) Fixtures.regen_short
                Fixtures.clock Fixtures.insertion_order
                (Fixtures.cli 0 false 2) (u "matrix.csv")
                (Some Fixtures.matrix_2x2) Fixtures.w0) as H.
  cbv zeta in H. destruct H as [evs [E [_ [H2 H3]]]].
  exists evs. split; [exact E|].
  split; [apply H2; reflexivity | apply H3; reflexivity].
Defined.


(** *** One pair *)

Section Pair.

Variable unicode_lower : pystr -> pystr.
Variable unicode_upper : pystr -> pystr.
Variable oracle : Type.
Variable generate_child_content_ext :
  payload -> oracle -> option ChildPageOutput * oracle.
Variable regenerate_section_ext :
  SectionName -> regen_args -> oracle -> option regen_dict * oracle.
Variable utcnow_ext : oracle -> datetime * oracle.
Variable set_iter : pyset -> list SectionName.

Lemma persisted_regenerations (evs : list event) :
  forallb is_any_regenerate evs = true -> persisted evs = [].
Proof.
  induction evs as [|e evs IH]; [reflexivity|]. cbn [forallb].
  intros H. apply andb_true_iff in H as [He Hevs].
  destruct e; try discriminate. cbn [persisted]. now apply IH.
Qed.

Lemma repair_persisted (a : regen_args) (auto_fix : bool) (passes : Z)
    (c : ChildPageOutput) (w : world oracle) :
  persisted (trace (snd (repair regenerate_section_ext set_iter a auto_fix passes c w)))
  = persisted (trace w).
Proof.
  destruct (emits_repair oracle regenerate_section_ext set_iter is_any_regenerate
              a auto_fix passes c (fun _ _ _ _ => eq_refl) w) as [evs [E F]].
  now rewrite E, persisted_app, (persisted_regenerations evs F), app_nil_r.
Qed.

Lemma fix_loop_validated (a : regen_args) (n : nat) :
  forall c w c' issues' w',
  fix_loop regenerate_section_ext set_iter n a c (validate_child_lengths c) w
    = (Ok (c', issues'), w') ->
  issues' = validate_child_lengths c'.
Proof.
  induction n as [|n IH]; intros c w c' issues' w' H.
  - cbn in H. inversion H. reflexivity.
  - cbn [fix_loop] in H. destruct (validate_child_lengths c) eqn:E.
    + cbn in H. inversion H. subst. now rewrite E.
    + unfold bind in H. unfold fix_pass at 1 in H. unfold bind in H.
      destruct (regen_sections _ _ _ _ w) as [[c1|e] w1]; [|discriminate].
      cbn [ret fst snd] in H. now apply IH in H.
Qed.

(** The issues the repair block returns are the validator's verdict on
    the page it returns. *)
Lemma repair_validated (a : regen_args) (auto_fix : bool) (passes : Z)
    (c : ChildPageOutput) (w : world oracle) c' issues' w' :
  repair regenerate_section_ext set_iter a auto_fix passes c w = (Ok (c', issues'), w') ->
  issues' = validate_child_lengths c'.
Proof.
  unfold repair. destruct (validate_child_lengths c) eqn:E.
  - intros H. inversion H. subst. now rewrite E.
  - destruct auto_fix.
    + rewrite <- E. apply fix_loop_validated.
    + intros H. inversion H. subst. now rewrite E.
Qed.

Lemma persist_outcome (from_code to_code from_label to_label : pystr)
    (factor : spec_float) (args : settings) (c : ChildPageOutput)
    (issues : list pystr) (w : world oracle) :
  let out := persist unicode_lower utcnow_ext from_code to_code from_label to_label
               factor args c issues w in
  match fst out with
  | Ok (success, issues') =>
      issues' = issues
      /\ (success = true <-> issues = [])
      /\ exists doc,
           persisted (trace (snd out)) = persisted (trace w) ++ [doc]
           /\ page_of_doc doc = c
           /\ Mappers.slug doc = build_slug unicode_lower from_code to_code
  | Raise e => trace (snd out) = trace w
  end.
Proof.
  intros out. unfold out, persist, print. unfold bind, utcnow, lift, emit, ret, raise.
  destruct (utcnow_ext (ext w)) as [now o].
  destruct (build_child_mongo_doc now c (u "area-convertor")
              (build_slug unicode_lower from_code to_code)
              (u "/area-convertor/" ++ build_slug unicode_lower from_code to_code)
              from_code to_code from_label to_label (default_locale args)
              (site_code args)) as [doc|e] eqn:E; [|reflexivity].
  pose proof (page_of_built_doc _ _ _ _ _ _ _ _ _ _ _ _ E) as Hp.
  assert (Hs : Mappers.slug doc = build_slug unicode_lower from_code to_code).
  { unfold build_child_mongo_doc in E. destruct (build_faqs 0 (faqs c)); [|discriminate].
    inversion E. reflexivity. }
  destruct (html_out_dir args), (preview_only args); cbn [fst snd trace ext];
    (split; [reflexivity|]);
    (split; [destruct issues; split; congruence|]);
    exists doc; rewrite ?persisted_app; cbn [persisted]; rewrite ?app_nil_r;
    repeat split; assumption.
Qed.

Lemma pair_outcome (row_label col_label : pystr) (factor : spec_float)
    (args : settings) (w : world oracle) :
  let out := process_pair unicode_lower unicode_upper generate_child_content_ext
               regenerate_section_ext utcnow_ext set_iter
               row_label col_label factor args w in
  match fst out with
  | Ok (success, issues) =>
      exists doc,
        persisted (trace (snd out)) = persisted (trace w) ++ [doc]
        /\ issues = validate_child_lengths (page_of_doc doc)
        /\ (success = true <-> issues = [])
        /\ Mappers.slug doc
           = build_slug unicode_lower
               (normalize_unit_code unicode_upper (strip row_label))
               (normalize_unit_code unicode_upper (strip col_label))
  | Raise e => persisted (trace (snd out)) = persisted (trace w)
  end.
Proof.
  cbv zeta.
  destruct (process_pair _ _ _ _ _ _ _ _ _ _ w) as [r w'] eqn:Ho. cbn [fst snd].
  unfold process_pair in Ho. unfold bind at 1 in Ho.
  unfold generate_child_content at 1 in Ho.
  destruct (generate_child_content_ext _ (ext w)) as [[c|] o].
  2: { inversion Ho. subst. cbn [trace]. rewrite persisted_app. cbn. now rewrite app_nil_r. }
  set (w1 := mk_world o _) in Ho.
  assert (H1 : persisted (trace w1) = persisted (trace w)).
  { unfold w1. cbn [trace]. rewrite persisted_app. cbn. now rewrite app_nil_r. }
  unfold bind in Ho.
  pose proof (repair_persisted
                (pair_regen_args (pair_payload unicode_lower unicode_upper row_label
                                    col_label factor args))
                (auto_fix_lengths args) (max_fix_passes args) c w1) as H2.
  destruct (repair _ _ _ _ _ c w1) as [[[c' issues]|e] w2] eqn:Hr;
    cbn [fst snd] in *.
  2: { inversion Ho. subst. congruence. }
  apply repair_validated in Hr.
  pose proof (persist_outcome
                (p_from_unit_code (pair_payload unicode_lower unicode_upper row_label
                                     col_label factor args))
                (p_to_unit_code (pair_payload unicode_lower unicode_upper row_label
                                   col_label factor args))
                (p_from_unit_label (pair_payload unicode_lower unicode_upper row_label
                                      col_label factor args))
                (p_to_unit_label (pair_payload unicode_lower unicode_upper row_label
                                    col_label factor args))
                factor args c' issues w2) as H3.
  cbv zeta in H3. rewrite Ho in H3. cbn [fst snd] in H3.
  destruct r as [[success issues']|e].
  - destruct H3 as [-> [Hs [doc [Hd [Hp Hslug]]]]]. exists doc.
    split; [now rewrite Hd, H2, H1|]. split; [now rewrite Hp|].
    split; [exact Hs | exact Hslug].
  - now rewrite H3, H2, H1.
Qed.

End Pair.

(** X14: what [process_pair] returns describes what it stored.  When it
    returns, exactly one document has been handed to the store (or
    printed, in preview mode); the issues returned are the validator's
    verdict on the page held by that document, the success flag is true
    exactly when there is none, and the slug of the document is built
    from the unit codes of the two stripped labels.  When it raises,
    nothing has been stored or printed as a document. *)
Theorem pair_verdict_describes_stored_page
    (unicode_lower unicode_upper : pystr -> pystr) (oracle : Type)
    (generate_child_content_ext : payload -> oracle -> option ChildPageOutput * oracle)
    (regenerate_section_ext :
       SectionName -> regen_args -> oracle -> option regen_dict * oracle)
    (utcnow_ext : oracle -> datetime * oracle)
    (set_iter : pyset -> list SectionName)
    (row_label col_label : pystr) (factor : spec_float)
    (args : settings) (w : world oracle) :
  let out := process_pair unicode_lower unicode_upper generate_child_content_ext
               regenerate_section_ext utcnow_ext set_iter
               row_label col_label factor args w in
  match fst out with
  | Ok (success, issues) =>
      exists doc,
        persisted (trace (snd out)) = persisted (trace w) ++ [doc]
        /\ issues = validate_child_lengths (page_of_doc doc)
        /\ (success = true <-> issues = [])
        /\ Mappers.slug doc
           = build_slug unicode_lower
               (normalize_unit_code unicode_upper (strip row_label))
               (normalize_unit_code unicode_upper (strip col_label))
  | Raise e => persisted (trace (snd out)) = persisted (trace w)
  end.
Proof. apply pair_outcome. Qed.

(** *** Bounds on regeneration *)

Section Bound.

Variable unicode_lower : pystr -> pystr.
Variable unicode_upper : pystr -> pystr.
Variable oracle : Type.
Variable generate_child_content_ext :
  payload -> oracle -> option ChildPageOutput * oracle.
Variable regenerate_section_ext :
  SectionName -> regen_args -> oracle -> option regen_dict * oracle.
Variable utcnow_ext : oracle -> datetime * oracle.
Variable set_iter : pyset -> list SectionName.
Hypothesis set_iter_perm : forall s, NoDup s -> Permutation (set_iter s) s.

Lemma fix_pass_calls_le (a : regen_args) (c : ChildPageOutput) (issues : list pystr)
    (w : world oracle) (s : SectionName) :
  (regen_calls s (trace (snd (fix_pass regenerate_section_ext set_iter a c issues w)))
   <= regen_calls s (trace w) + 1)%nat.
Proof.
  pose proof (section_names_NoDup issues) as ND.
  assert (NDo : NoDup (set_iter (section_names_from_issues issues)))
    by (eapply Permutation_NoDup;
        [apply Permutation_sym, set_iter_perm, ND | exact ND]).
  destruct (fix_pass_calls oracle regenerate_section_ext set_iter a c issues w)
    as [m [Hm [Ht _]]].
  unfold regen_calls. rewrite Ht, filter_app, length_app.
  apply Nat.add_le_mono_l. rewrite count_in_NoDup.
  - destruct (set_mem s _); lia.
  - rewrite <- (firstn_skipn m (set_iter _)) in NDo.
    now apply NoDup_app_remove_r in NDo.
Qed.

Lemma fix_loop_calls_le (a : regen_args) (s : SectionName) (n : nat) :
  forall c issues w,
  (regen_calls s (trace (snd (fix_loop regenerate_section_ext set_iter n a c issues w)))
   <= regen_calls s (trace w) + n)%nat.
Proof.
  induction n as [|n IH]; intros c issues w; [cbn; lia|].
  cbn [fix_loop]. destruct issues as [|i issues]; [cbn; lia|].
  unfold bind. pose proof (fix_pass_calls_le a c (i :: issues) w s) as H.
  destruct (fix_pass _ _ _ _ _ w) as [[r|e] w1]; cbn [snd] in *; [|lia].
  specialize (IH (fst r) (snd r) w1). lia.
Qed.

Lemma repair_calls_le (a : regen_args) (auto_fix : bool) (passes : Z)
    (c : ChildPageOutput) (w : world oracle) (s : SectionName) :
  (regen_calls s (trace (snd (repair regenerate_section_ext set_iter a auto_fix
                                passes c w)))
   <= regen_calls s (trace w) + Z.to_nat passes)%nat.
Proof.
  unfold repair. destruct (validate_child_lengths c); [cbn; lia|].
  destruct auto_fix; [apply fix_loop_calls_le | cbn; lia].
Qed.

Lemma pair_calls_le (row_label col_label : pystr) (factor : spec_float)
    (args : settings) (w : world oracle) (s : SectionName) :
  (regen_calls s
     (trace (snd (process_pair unicode_lower unicode_upper generate_child_content_ext
                    regenerate_section_ext utcnow_ext set_iter
                    row_label col_label factor args w)))
   <= regen_calls s (trace w) + Z.to_nat (max_fix_passes args))%nat.
Proof.
  unfold process_pair. unfold bind at 1. unfold generate_child_content at 1.
  destruct (generate_child_content_ext _ (ext w)) as [[c|] o].
  2: { cbn [snd trace]. unfold regen_calls. rewrite regenerated_app. cbn.
       rewrite app_nil_r. lia. }
  set (w1 := mk_world o _).
  assert (H1 : regen_calls s (trace w1) = regen_calls s (trace w)).
  { unfold w1, regen_calls. cbn [trace]. rewrite regenerated_app. cbn.
    now rewrite app_nil_r. }
  unfold bind.
  pose proof (repair_calls_le
                (pair_regen_args (pair_payload unicode_lower unicode_upper row_label
                                    col_label factor args))
                (auto_fix_lengths args) (max_fix_passes args) c w1 s) as H2.
  destruct (repair _ _ _ _ _ c w1) as [[r|e] w2]; cbn [snd] in *; [|lia].
  unfold regen_calls at 1. rewrite persist_regenerated.
  fold (regen_calls s (trace w2)). lia.
Qed.

End Bound.

(** X15: whatever the generator and the regenerator answer, and in
    whatever order the set of names is iterated, one pair costs at most
    [max_fix_passes] regenerations of any given section (none when that
    number is negative). *)
Theorem pair_regeneration_bound
    (unicode_lower unicode_upper : pystr -> pystr) (oracle : Type)
    (generate_child_content_ext : payload -> oracle -> option ChildPageOutput * oracle)
    (regenerate_section_ext :
       SectionName -> regen_args -> oracle -> option regen_dict * oracle)
    (utcnow_ext : oracle -> datetime * oracle)
    (set_iter : pyset -> list SectionName)
    (row_label col_label : pystr) (factor : spec_float)
    (args : settings) (w : world oracle) (s : SectionName) :
  (forall names, NoDup names -> Permutation (set_iter names) names) ->
  (regen_calls s
     (trace (snd (process_pair unicode_lower unicode_upper generate_child_content_ext
                    regenerate_section_ext utcnow_ext set_iter
                    row_label col_label factor args w)))
   <= regen_calls s (trace w) + Z.to_nat (max_fix_passes args))%nat.
Proof. intros H. now apply pair_calls_le. Qed.

Lemma pair_regeneration_bound_witness :
  (regen_calls why_convert
     (trace (snd (process_pair Fixtures.no_case Fixtures.no_case
                    (Fixtures.gen_const Fixtures.page_two_short) Fixtures.regen_short
                    Fixtures.clock Fixtures.reverse_order
                    (u "Bigha - Assam") (u "Acre") Fixtures.one
                    (Fixtures.cli 0 true 2) Fixtures.w0)))
   <= regen_calls why_convert (trace Fixtures.w0)
      + Z.to_nat (max_fix_passes (Fixtures.cli 0 true 2)))%nat.
Proof.
  apply (pair_regeneration_bound Fixtures.no_case Fixtures.no_case nat
           (Fixtures.gen_const Fixtures.page_two_short) Fixtures.regen_short
           Fixtures.clock Fixtures.reverse_order
           (u "Bigha - Assam") (u "Acre") Fixtures.one
           (Fixtures.cli 0 true 2) Fixtures.w0 why_convert).
  intros names _. apply Permutation_sym, Permutation_rev.
Defined.

(** *** Leaving the repair loop early *)

Section EarlyExit.

Variable oracle : Type.
Variable regenerate_section_ext :
  SectionName -> regen_args -> oracle -> option regen_dict * oracle.
Variable set_iter : pyset -> list SectionName.
Hypothesis set_iter_perm : forall s, NoDup s -> Permutation (set_iter s) s.

Lemma failing_slots_repaired (k : slot) (v : html) (c : ChildPageOutput) :
  failing_slots c = [k] -> in_range k (html_word_count v) = true ->
  failing_slots (set_slot k v c) = [].
Proof.
  intros Hc Hv. pose proof (only_failing_fails c k Hc) as Hf.
  unfold failing_slots. rewrite slots_set_slot. apply filter_none.
  intros k' Hk'. unfold slot_fails. destruct (slot_eq_dec k' k) as [->|Hne].
  - destruct (slot_html c k) as [h|] eqn:E.
    + rewrite (set_slot_same k v h c E). now rewrite Hv.
    + unfold slot_fails in Hf. now rewrite E in Hf.
  - rewrite (set_slot_other k k' v c Hne).
    destruct (slot_fails c k') eqn:E'; [|exact E'].
    assert (Hin : In k' (failing_slots c)) by (apply filter_In; now split).
    rewrite Hc in Hin. destruct Hin as [<-|[]]. congruence.
Qed.

Lemma regen_one_repaired (a : regen_args) (k : slot) (c : ChildPageOutput)
    (w : world oracle) (d : regen_dict) (o : oracle) :
  failing_slots c = [k] ->
  regenerate_section_ext (slot_section k) a (ext w) = (Some d, o) ->
  repaired k d ->
  exists c',
    regen_one regenerate_section_ext a (slot_section k) c w
      = (Ok c', mk_world o (trace w ++ [EvRegenerate (slot_section k) a]))
    /\ failing_slots c' = [].
Proof.
  intros Hc Hd Hs.
  unfold regen_one, bind, regenerate_section. rewrite Hd.
  destruct k; cbn [slot_section repaired] in *;
    destruct Hs as [v [Hv Hr]]; rewrite Hv; cbn [getitem ret].
  - exists (set_slot SWhy v c). split; [reflexivity|].
    now apply failing_slots_repaired.
  - exists (set_slot SFrom v c). split; [reflexivity|].
    now apply failing_slots_repaired.
  - exists (set_slot STo v c). split; [reflexivity|].
    now apply failing_slots_repaired.
  - exists (set_slot SExamples v c). split; [reflexivity|].
    now apply failing_slots_repaired.
  - exists (set_slot STechnical v c). split; [reflexivity|].
    now apply failing_slots_repaired.
  - exists (set_faqs v c). split; [reflexivity|].
    rewrite failing_slots_split, failing_html_part, (only_faq_fails c idx Hc).
    cbn [faqs set_faqs app]. now rewrite Hr.
Qed.

Lemma repair_one_pass (a : regen_args) (k : slot) (max_fix_passes : Z)
    (c : ChildPageOutput) (w : world oracle) (d : regen_dict) (o : oracle) :
  (0 < max_fix_passes)%Z ->
  failing_slots c = [k] ->
  regenerate_section_ext (slot_section k) a (ext w) = (Some d, o) ->
  repaired k d ->
  exists c',
    repair regenerate_section_ext set_iter a true max_fix_passes c w
      = (Ok (c', []), mk_world o (trace w ++ [EvRegenerate (slot_section k) a]))
    /\ validate_child_lengths c' = [].
Proof.
  intros Hpos Hc Hd Hs.
  destruct (regen_one_repaired a k c w d o Hc Hd Hs) as [c' [Hr Hc']].
  assert (Hv' : validate_child_lengths c' = [])
    by now rewrite validate_issue_at, Hc'.
  exists c'. split; [|exact Hv'].
  unfold repair. destruct (validate_only c k Hc) as [Hv _]. rewrite Hv.
  destruct (Z.to_nat max_fix_passes) as [|n] eqn:En; [lia|].
  cbn [fix_loop]. unfold bind at 1. unfold fix_pass.
  rewrite <- Hv. rewrite validate_issue_at at 1. rewrite Hc.
  rewrite (section_names_of_slots c [k] (slot_section k));
    [|discriminate | intros k' [<-|[]]; reflexivity].
  rewrite (set_iter_single set_iter set_iter_perm). cbn [regen_sections].
  unfold bind at 1 2. rewrite Hr. cbn [ret fst snd]. rewrite Hv'.
  destruct n; reflexivity.
Qed.

End EarlyExit.

(** X16: the repair loop stops as soon as the page is valid.  Let
    exactly one place [k] be out of range and let the regenerator's first
    answer for [k]'s section repair it.  Then, however many passes are
    allowed (at least one), the repair block makes that single call and
    returns a valid page with no issue. *)
Theorem repair_stops_once_valid
    (oracle : Type)
    (regenerate_section_ext :
       SectionName -> regen_args -> oracle -> option regen_dict * oracle)
    (set_iter : pyset -> list SectionName)
    (a : regen_args) (k : slot) (max_fix_passes : Z)
    (c : ChildPageOutput) (w : world oracle) (d : regen_dict) (o : oracle) :
  (forall s, NoDup s -> Permutation (set_iter s) s) ->
  (0 < max_fix_passes)%Z ->
  failing_slots c = [k] ->
  regenerate_section_ext (slot_section k) a (ext w) = (Some d, o) ->
  repaired k d ->
  exists c',
    repair regenerate_section_ext set_iter a true max_fix_passes c w
      = (Ok (c', []), mk_world o (trace w ++ [EvRegenerate (slot_section k) a]))
    /\ validate_child_lengths c' = [].
Proof. intros H. now apply repair_one_pass. Qed.

Lemma repair_stops_once_valid_witness :
  exists c',
    repair Samples.regen_good Fixtures.reverse_order Fixtures.some_args true 5
      Fixtures.page_short_why Fixtures.w0
    = (Ok (c', []),
       mk_world 1%nat (trace Fixtures.w0 ++ [EvRegenerate why_convert Fixtures.some_args]))
    /\ validate_child_lengths c' = [].
Proof.
  apply (repair_stops_once_valid nat Samples.regen_good Fixtures.reverse_order
           Fixtures.some_args SWhy 5 Fixtures.page_short_why Fixtures.w0
           (mk_regen (Some (Fixtures.words 240)) (Some (Fixtures.words 250))
              (Some (Fixtures.words 250)) (Some (Fixtures.words 100))
              (Some (Fixtures.words 160)) (Some [Fixtures.faq_of 100])) 1%nat).
  - intros s _. apply Permutation_sym, Permutation_rev.
  - reflexivity.
  - vm_compute. reflexivity.
  - reflexivity.
  - eexists. split; [reflexivity|]. vm_compute. reflexivity.
Defined.

(** *** Shortfalls that remain after the passes *)

Lemma reported_flawed_app (t1 t2 : list event) :
  reported_flawed (t1 ++ t2) = (reported_flawed t1 + reported_flawed t2)%Z.
Proof.
  induction t1 as [|e t1 IH]; [reflexivity|].
  destruct e as [| | | |m|]; try destruct m; cbn [app reported_flawed]; rewrite IH; lia.
Qed.

Lemma reported_clean_app (t1 t2 : list event) :
  reported_clean (t1 ++ t2) = (reported_clean t1 + reported_clean t2)%Z.
Proof.
  induction t1 as [|e t1 IH]; [reflexivity|].
  destruct e as [| | | |m|]; try destruct m; cbn [app reported_clean]; rewrite IH; lia.
Qed.

Lemma not_status_reported (evs : list event) :
  forallb not_status evs = true -> reported_flawed evs = 0%Z /\ reported_clean evs = 0%Z.
Proof.
  induction evs as [|e evs IH]; [split; reflexivity|]. cbn [forallb].
  intros H. apply andb_true_iff in H as [He Hevs]. destruct (IH Hevs) as [H1 H2].
  destruct e as [| | | |m|]; try destruct m; try discriminate He;
    cbn [reported_flawed reported_clean]; split; assumption.
Qed.

Section Shortfall.

Variable unicode_lower : pystr -> pystr.
Variable unicode_upper : pystr -> pystr.
Variable float_of_str : pystr -> option spec_float.
Variable oracle : Type.
Variable generate_child_content_ext :
  payload -> oracle -> option ChildPageOutput * oracle.
Variable regenerate_section_ext :
  SectionName -> regen_args -> oracle -> option regen_dict * oracle.
Variable utcnow_ext : oracle -> datetime * oracle.
Variable set_iter : pyset -> list SectionName.
Variable args : settings.

Lemma print_issues_trace (issues : list pystr) : forall w : world oracle,
  print_issues issues w
  = (Ok tt, mk_world (ext w) (trace w ++ map (fun i => EvPrint (MsgIssue i)) issues)).
Proof.
  induction issues as [|i issues IH]; intros w.
  - cbn. rewrite app_nil_r. now destruct w.
  - cbn [print_issues map]. unfold bind, print, emit. rewrite IH. cbn [ext trace].
    now rewrite <- app_assoc.
Qed.

(** On a page whose FAQ entries carry both keys, the rest of
    [process_pair] builds the document of the page as it is, hands it to
    the store (or prints it in preview mode) as its last action, and
    returns the issues it was given, success being [false] as soon as
    there is one. *)
Lemma persist_shortfall (from_code to_code from_label to_label : pystr)
    (factor : spec_float) (c : ChildPageOutput) (issues : list pystr) (w : world oracle) :
  forallb complete (faqs c) = true ->
  exists doc w',
    persist unicode_lower utcnow_ext from_code to_code from_label to_label
      factor args c issues w
    = (Ok (match issues with [] => true | _ => false end, issues), w')
    /\ page_of_doc doc = c
    /\ persisted (trace w') = persisted (trace w) ++ [doc]
    /\ exists t, trace w' = t ++ [store_event args doc].
Proof.
  intros Hf. unfold persist, print. unfold bind, utcnow, lift, emit, ret, raise.
  destruct (utcnow_ext (ext w)) as [now o].
  destruct (build_child_mongo_doc now c (u "area-convertor")
              (build_slug unicode_lower from_code to_code)
              (u "/area-convertor/" ++ build_slug unicode_lower from_code to_code)
              from_code to_code from_label to_label (default_locale args)
              (site_code args)) as [doc|e] eqn:E.
  - pose proof (page_of_built_doc _ _ _ _ _ _ _ _ _ _ _ _ E) as Hp.
    exists doc. unfold store_event.
    destruct (html_out_dir args), (preview_only args); cbn [trace snd ext];
      eexists; (split; [reflexivity|]); (split; [exact Hp|]); cbn [trace];
      (split; [rewrite ?persisted_app; cbn [persisted]; now rewrite ?app_nil_r|]);
      eexists; reflexivity.
  - exfalso. unfold build_child_mongo_doc in E.
    destruct (build_faqs_complete (faqs c) 0 Hf) as [docs Hd].
    rewrite Hd in E. discriminate E.
Qed.

Lemma persist_quiet (from_code to_code from_label to_label : pystr)
    (factor : spec_float) (c : ChildPageOutput) (issues : list pystr) :
  emits not_status
    (persist unicode_lower utcnow_ext from_code to_code from_label to_label
       factor args c issues).
Proof.
  unfold persist. apply emits_bind; [apply emits_utcnow|]. intros now.
  apply emits_bind; [apply emits_lift|]. intros doc.
  apply emits_bind.
  - destruct (html_out_dir args) as [dir|]; [|apply emits_ret].
    apply emits_bind; [now apply emits_emit|]. intros _.
    apply emits_bind; [now apply emits_emit|]. intros _.
    now apply emits_emit.
  - intros _. apply emits_bind; [|intros _; apply emits_ret].
    destruct (preview_only args); now apply emits_emit.
Qed.

Lemma process_pair_quiet (row_label col_label : pystr) (factor : spec_float) :
  emits not_status
    (process_pair unicode_lower unicode_upper generate_child_content_ext
       regenerate_section_ext utcnow_ext set_iter row_label col_label factor args).
Proof.
  unfold process_pair. apply emits_bind; [now apply emits_generate|]. intros c.
  apply emits_bind; [|intros r; apply persist_quiet].
  apply emits_repair. reflexivity.
Qed.

Lemma process_pair_reported (row_label col_label : pystr) (factor : spec_float)
    (w : world oracle) :
  let w' := snd (process_pair unicode_lower unicode_upper generate_child_content_ext
                   regenerate_section_ext utcnow_ext set_iter row_label col_label
                   factor args w) in
  reported_flawed (trace w') = reported_flawed (trace w)
  /\ reported_clean (trace w') = reported_clean (trace w).
Proof.
  cbv zeta. destruct (process_pair_quiet row_label col_label factor w) as [evs [E F]].
  rewrite E, reported_flawed_app, reported_clean_app.
  destruct (not_status_reported evs F) as [-> ->]. lia.
Qed.

Lemma issue_prints_reported (issues : list pystr) :
  reported_flawed (map (fun i => EvPrint (MsgIssue i)) issues) = 0%Z
  /\ reported_clean (map (fun i => EvPrint (MsgIssue i)) issues) = 0%Z.
Proof. induction issues as [|i issues IH]; [split; reflexivity | exact IH]. Qed.

(** The counters of successes and failures grow with the status lines
    printed. *)
Lemma row_loop_reports (row_label : label) : forall cells st w st' w',
  row_loop unicode_lower unicode_upper float_of_str generate_child_content_ext
    regenerate_section_ext utcnow_ext set_iter args row_label cells st w
    = (Ok st', w') ->
  (failures st' - failures st = reported_flawed (trace w') - reported_flawed (trace w))%Z
  /\ (successes st' - successes st
      = reported_clean (trace w') - reported_clean (trace w))%Z.
Proof.
  induction cells as [|[col_label factor] rest IH]; intros st w st' w' Hrun.
  - cbn in Hrun. inversion Hrun; subst. lia.
  - destruct (skipped row_label col_label factor) eqn:Hs.
    + rewrite row_loop_skip in Hrun by exact Hs. now apply IH.
    + rewrite row_loop_cell in Hrun by exact Hs.
      destruct (limit_on args && (limit_pairs args <? processed st + 1)%Z).
      * inversion Hrun; subst. cbn [failures successes]. lia.
      * destruct (label_strip row_label) as [from_label|x]; [|discriminate].
        destruct (float_of_cell float_of_str factor) as [f|x]; [|discriminate].
        cbv zeta in Hrun.
        match type of Hrun with
        | context [process_pair ?a1 ?a2 ?a3 ?a4 ?a5 ?a6 ?a7 ?a8 ?a9 ?a10 ?w1] =>
            pose proof (process_pair_reported a7 a8 a9 w1) as Hq;
            destruct (process_pair a1 a2 a3 a4 a5 a6 a7 a8 a9 a10 w1) as [[r|x] w2]
        end; [|discriminate].
        cbv zeta in Hq. cbn [snd trace] in Hq.
        rewrite reported_flawed_app, reported_clean_app in Hq.
        cbn [reported_flawed reported_clean] in Hq.
        destruct (fst r).
        -- apply IH in Hrun. cbn [failures successes trace] in Hrun.
           rewrite reported_flawed_app, reported_clean_app in Hrun.
           cbn [reported_flawed reported_clean] in Hrun. lia.
        -- rewrite print_issues_trace in Hrun. apply IH in Hrun.
           cbn [failures successes trace ext] in Hrun.
           rewrite !reported_flawed_app, !reported_clean_app in Hrun.
           destruct (issue_prints_reported (snd r)) as [I1 I2].
           rewrite I1, I2 in Hrun. cbn [reported_flawed reported_clean] in Hrun. lia.
Qed.

Lemma table_loop_reports (cols : list pystr) : forall rs st w st' w',
  table_loop unicode_lower unicode_upper float_of_str generate_child_content_ext
    regenerate_section_ext utcnow_ext set_iter args cols rs st w
    = (Ok st', w') ->
  (failures st' - failures st = reported_flawed (trace w') - reported_flawed (trace w))%Z
  /\ (successes st' - successes st
      = reported_clean (trace w') - reported_clean (trace w))%Z.
Proof.
  induction rs as [|[row_label cells] rest IH]; intros st w st' w' Hrun.
  - cbn in Hrun. inversion Hrun; subst. lia.
  - cbn [table_loop] in Hrun. unfold bind in Hrun.
    destruct (row_loop _ _ _ _ _ _ _ _ _ _ _ w) as [[st1|x] w1] eqn:Hrow; [|discriminate].
    apply row_loop_reports in Hrow.
    destruct (limit_on args && (limit_pairs args <=? processed st1)%Z).
    + inversion Hrun; subst. exact Hrow.
    + apply IH in Hrun. lia.
Qed.

(** The summary closes the trace of a batch that completes, and its
    counts of clean and of flawed pairs are the numbers of status lines
    of either kind printed during the batch. *)
Lemma main_reports (csv_path : pystr) (df : matrix) (w : world oracle)
    (st : counters) (w' : world oracle) :
  main unicode_lower unicode_upper float_of_str generate_child_content_ext
    regenerate_section_ext utcnow_ext set_iter args csv_path (Some df) w = (Ok st, w') ->
  failures st = (reported_flawed (trace w') - reported_flawed (trace w))%Z
  /\ successes st = (reported_clean (trace w') - reported_clean (trace w))%Z
  /\ exists t, trace w' = t ++ [EvPrint (MsgSummary (processed st) (successes st)
                                          (failures st))].
Proof.
  intros Hmain. unfold main, bind, print, emit in Hmain.
  destruct (table_loop _ _ _ _ _ _ _ _ _ _ _ w) as [[st1|x] w1] eqn:Hloop; [|discriminate].
  inversion Hmain; subst st1 w'. clear Hmain.
  apply table_loop_reports in Hloop. cbn [failures successes trace] in *.
  rewrite reported_flawed_app, reported_clean_app.
  cbn [reported_flawed reported_clean].
  split; [lia|]. split; [lia|]. now exists (trace w1).
Qed.

End Shortfall.

(** The two keys of a FAQ entry are needed: with an entry that
    lacks [answer_html], a key the mapper indexes directly, building the
    document raises [KeyError] and nothing is stored or printed. *)
Lemma incomplete_faq_entry_is_fatal :
  let out :=
    process_pair Fixtures.no_case Fixtures.no_case
      (Fixtures.gen_const Fixtures.page_faq_without_answer)
      Fixtures.regen_without_answer Fixtures.clock Fixtures.insertion_order
      (u "Bigha - Assam") (u "Acre") Fixtures.one (Fixtures.cli 0 true 2)
      Fixtures.w0 in
  forallb complete (faqs Fixtures.page_faq_without_answer) = false
  /\ fst out = Raise (KeyError (u "answer_html"))
  /\ persisted (trace (snd out)) = [].
Proof. cbv zeta. repeat split; vm_compute; reflexivity. Qed.



(** *** Batches the limit does not cut *)

Section Unlimited.

Variable unicode_lower : pystr -> pystr.
Variable unicode_upper : pystr -> pystr.
Variable float_of_str : pystr -> option spec_float.
Variable oracle : Type.
Variable generate_child_content_ext :
  payload -> oracle -> option ChildPageOutput * oracle.
Variable regenerate_section_ext :
  SectionName -> regen_args -> oracle -> option regen_dict * oracle.
Variable utcnow_ext : oracle -> datetime * oracle.
Variable set_iter : pyset -> list SectionName.
Variable args : settings.

Lemma no_cut (n : Z) :
  (limit_pairs args = 0 \/ n <= limit_pairs args)%Z ->
  limit_on args && (limit_pairs args <? n)%Z = false.
Proof.
  intros [H|H].
  - unfold limit_on. now rewrite H.
  - apply andb_false_iff. right. now apply Z.ltb_ge.
Qed.

Lemma row_loop_room (row_label : label) : forall cells st w st' w',
  row_loop unicode_lower unicode_upper float_of_str generate_child_content_ext
    regenerate_section_ext utcnow_ext set_iter args row_label cells st w
    = (Ok st', w') ->
  (limit_pairs args = 0
   \/ processed st + cells_eligible row_label cells <= limit_pairs args)%Z ->
  processed st' = (processed st + cells_eligible row_label cells)%Z
  /\ generate_calls (trace w')
     = (generate_calls (trace w) + cells_eligible row_label cells)%Z
  /\ (successes st' + failures st')%Z
     = (successes st + failures st + cells_eligible row_label cells)%Z.
Proof.
  induction cells as [|[col_label factor] rest IH]; intros st w st' w' Hrun Hroom.
  - cbn in Hrun. inversion Hrun; subst. cbn. repeat split; lia.
  - rewrite cells_eligible_cons in *.
    pose proof (cells_eligible_nonneg row_label rest) as He.
    destruct (skipped row_label col_label factor) eqn:Hs.
    + rewrite row_loop_skip in Hrun by exact Hs.
      destruct (IH st w st' w' Hrun) as [H1 [H2 H3]]; [lia|]. repeat split; lia.
    + rewrite row_loop_cell in Hrun by exact Hs.
      rewrite no_cut in Hrun by lia.
      destruct (label_strip row_label) as [from_label|x]; [|discriminate].
      destruct (float_of_cell float_of_str factor) as [f|x]; [|discriminate].
      cbv zeta in Hrun.
      match type of Hrun with
      | context [process_pair ?a1 ?a2 ?a3 ?a4 ?a5 ?a6 ?a7 ?a8 ?a9 ?a10 ?w1] =>
          pose proof (process_pair_generate a1 a2 oracle a3 a4 a5 a6
                        a7 a8 a9 args w1) as Hg;
          destruct (process_pair a1 a2 a3 a4 a5 a6 a7 a8 a9 a10 w1) as [[r|x] w2]
      end; [|discriminate].
      cbn [snd trace] in Hg. rewrite generate_calls_app in Hg.
      cbn [generate_calls] in Hg.
      destruct (fst r).
      * apply IH in Hrun; [|cbn [processed]; lia].
        cbn [processed successes failures trace] in Hrun.
        rewrite generate_calls_app in Hrun. cbn [generate_calls] in Hrun.
        destruct Hrun as [H1 [H2 H3]]. repeat split; lia.
      * destruct (print_issues_ok oracle (snd r)
                    (mk_world (ext w2) (trace w2 ++ [EvPrint MsgStatusIssues])))
          as [Hi1 Hi2].
        destruct (print_issues (snd r) _) as [[[]|x] w3]; [|discriminate].
        cbn [snd trace] in Hi2. rewrite generate_calls_app in Hi2.
        cbn [generate_calls] in Hi2.
        apply IH in Hrun; [|cbn [processed]; lia].
        cbn [processed successes failures] in Hrun.
        destruct Hrun as [H1 [H2 H3]]. repeat split; lia.
Qed.

Lemma table_loop_room (cols : list pystr) : forall rs st w st' w',
  table_loop unicode_lower unicode_upper float_of_str generate_child_content_ext
    regenerate_section_ext utcnow_ext set_iter args cols rs st w
    = (Ok st', w') ->
  (limit_pairs args = 0 \/ processed st + eligible cols rs < limit_pairs args)%Z ->
  processed st' = (processed st + eligible cols rs)%Z
  /\ generate_calls (trace w') = (generate_calls (trace w) + eligible cols rs)%Z
  /\ (successes st' + failures st')%Z
     = (successes st + failures st + eligible cols rs)%Z.
Proof.
  induction rs as [|[row_label cells] rest IH]; intros st w st' w' Hrun Hroom.
  - cbn in Hrun. inversion Hrun; subst. cbn. repeat split; lia.
  - cbn [table_loop] in Hrun. cbn [eligible] in *. unfold eligible_in_row in *.
    cbn [fst snd] in *.
    pose proof (eligible_nonneg cols rest) as Hrest.
    pose proof (cells_eligible_nonneg row_label (combine cols cells)) as Hrow.
    unfold bind in Hrun.
    destruct (row_loop _ _ _ _ _ _ _ _ _ _ _ w) as [[st1|x] w1] eqn:Hr; [|discriminate].
    destruct (row_loop_room row_label _ st w st1 w1 Hr) as [H1 [H2 H3]]; [lia|].
    assert (Hc : limit_on args && (limit_pairs args <=? processed st1)%Z = false).
    { destruct Hroom as [H|H].
      - unfold limit_on. now rewrite H.
      - apply andb_false_iff. right. apply Z.leb_gt. lia. }
    rewrite Hc in Hrun.
    destruct (IH st1 w1 st' w' Hrun) as [G1 [G2 G3]]; [lia|]. repeat split; lia.
Qed.

(** *** A negative limit *)

Hypothesis limit_negative : (limit_pairs args < 0)%Z.

Lemma row_loop_negative (row_label : label) (w : world oracle) : forall cells,
  row_loop unicode_lower unicode_upper float_of_str generate_child_content_ext
    regenerate_section_ext utcnow_ext set_iter args row_label cells
    (mk_counters 0 0 0) w
  = (Ok (mk_counters (if (0 <? cells_eligible row_label cells)%Z then 1 else 0) 0 0), w).
Proof.
  induction cells as [|[col_label factor] rest IH]; [reflexivity|].
  rewrite cells_eligible_cons.
  pose proof (cells_eligible_nonneg row_label rest) as He.
  destruct (skipped row_label col_label factor) eqn:Hs.
  - rewrite row_loop_skip by exact Hs. exact IH.
  - rewrite row_loop_cell by exact Hs. cbn [processed successes failures].
    replace (limit_on args) with true
      by (unfold limit_on; destruct (Z.eqb_spec (limit_pairs args) 0); [lia | reflexivity]).
    replace (limit_pairs args <? 0 + 1)%Z with true by (symmetry; apply Z.ltb_lt; lia).
    replace (0 <? 1 + cells_eligible row_label rest)%Z with true
      by (symmetry; apply Z.ltb_lt; lia).
    reflexivity.
Qed.

Lemma main_negative (csv_path : pystr) (df : matrix) (w : world oracle) :
  let p := match rows df with
           | [] => 0%Z
           | r :: _ => if (0 <? eligible_in_row (col_labels df) r)%Z then 1%Z else 0%Z
           end in
  main unicode_lower unicode_upper float_of_str generate_child_content_ext
    regenerate_section_ext utcnow_ext set_iter args csv_path (Some df) w
  = (Ok (mk_counters p 0 0),
     mk_world (ext w) (trace w ++ [EvPrint (MsgSummary p 0 0)])).
Proof.
  intros p. unfold main. unfold bind at 1.
  assert (Ht : table_loop unicode_lower unicode_upper float_of_str generate_child_content_ext
                 regenerate_section_ext utcnow_ext set_iter args (col_labels df)
                 (rows df) (mk_counters 0 0 0) w = (Ok (mk_counters p 0 0), w)).
  { unfold p. destruct (rows df) as [|[row_label cells] rest]; [reflexivity|].
    cbn [table_loop]. unfold bind. rewrite row_loop_negative.
    unfold eligible_in_row. cbn [fst snd processed].
    replace (limit_on args) with true
      by (unfold limit_on; destruct (Z.eqb_spec (limit_pairs args) 0); [lia | reflexivity]).
    match goal with
    | |- context [(limit_pairs args <=? ?x)%Z] =>
        replace (limit_pairs args <=? x)%Z with true; [reflexivity|]
    end.
    symmetry. apply Z.leb_le.
    destruct (0 <? cells_eligible row_label (combine (col_labels df) cells))%Z; lia. }
  rewrite Ht. reflexivity.
Qed.

End Unlimited.

(** X17: when the limit is 0, or larger than the number of pairs that
    are not skipped, a batch that completes has processed every such
    pair: the generator was called once for each, the summary reports
    their number as processed, and successes plus failures add up to
    it.  A pair is skipped when its cell is [None] or a [float] NaN, when
    it is a zero that is an instance of [int] or [float], or when the two
    labels are equal once stripped; a zero of a column of whole numbers,
    a [numpy.int64], is not skipped. *)
Theorem batch_without_cut_processes_every_pair
    (unicode_lower unicode_upper : pystr -> pystr)
    (float_of_str : pystr -> option spec_float) (oracle : Type)
    (generate_child_content_ext : payload -> oracle -> option ChildPageOutput * oracle)
    (regenerate_section_ext :
       SectionName -> regen_args -> oracle -> option regen_dict * oracle)
    (utcnow_ext : oracle -> datetime * oracle)
    (set_iter : pyset -> list SectionName)
    (args : settings) (csv_path : pystr) (df : matrix)
    (w : world oracle) (st : counters) (w' : world oracle) :
  (limit_pairs args = 0
   \/ eligible (col_labels df) (rows df) < limit_pairs args)%Z ->
  main unicode_lower unicode_upper float_of_str generate_child_content_ext
    regenerate_section_ext utcnow_ext set_iter args csv_path (Some df) w = (Ok st, w') ->
  processed st = eligible (col_labels df) (rows df)
  /\ generate_calls (trace w')
     = (generate_calls (trace w) + eligible (col_labels df) (rows df))%Z
  /\ (successes st + failures st)%Z = eligible (col_labels df) (rows df).
Proof.
  intros Hroom Hmain. unfold main, bind, print, emit in Hmain.
  destruct (table_loop _ _ _ _ _ _ _ _ _ _ _ w) as [[st1|x] w1] eqn:Hloop; [|discriminate].
  inversion Hmain; subst st1 w'. clear Hmain.
  destruct (table_loop_room unicode_lower unicode_upper float_of_str oracle
              generate_child_content_ext regenerate_section_ext utcnow_ext set_iter
              args (col_labels df) (rows df) (mk_counters 0 0 0) w st w1 Hloop)
    as [G1 [G2 G3]]; [cbn [processed]; lia|].
  cbn [processed successes failures] in G1, G2, G3. cbn [trace].
  rewrite generate_calls_app, G2. cbn [generate_calls]. repeat split; lia.
Qed.

Lemma batch_without_cut_processes_every_pair_witness :
  exists st w',
    main Fixtures.no_case Fixtures.no_case Fixtures.no_float
      (Fixtures.gen_const Fixtures.page_ok) Fixtures.regen_short
      Fixtures.clock Fixtures.insertion_order
      (Fixtures.cli 0 false 2) (u "matrix.csv") (Some Fixtures.matrix_whole_numbers)
      Fixtures.w0 = (Ok st, w')
    /\ processed st = 2%Z
    /\ (successes st + failures st)%Z = 2%Z.
Proof.
  eexists. eexists. split; [vm_compute; reflexivity|].
  refine ((fun H => conj (proj1 H) (proj2 (proj2 H)))
    (batch_without_cut_processes_every_pair Fixtures.no_case Fixtures.no_case
       Fixtures.no_float nat
       (Fixtures.gen_const Fixtures.page_ok) Fixtures.regen_short
       Fixtures.clock Fixtures.insertion_order
       (Fixtures.cli 0 false 2) (u "matrix.csv") Fixtures.matrix_whole_numbers
       Fixtures.w0 _ _ _ _)).
  - left. reflexivity.
  - vm_compute. reflexivity.
Defined.

(** X18: a negative limit processes nothing.  The first pair that is
    not skipped is counted and the loops stop: no pair is handed to
    [process_pair], the only event is the summary, and it reports one
    processed pair when the first row holds a pair that is not skipped,
    none otherwise, with no success and no failure. *)
Theorem negative_limit_processes_nothing
    (unicode_lower unicode_upper : pystr -> pystr)
    (float_of_str : pystr -> option spec_float) (oracle : Type)
    (generate_child_content_ext : payload -> oracle -> option ChildPageOutput * oracle)
    (regenerate_section_ext :
       SectionName -> regen_args -> oracle -> option regen_dict * oracle)
    (utcnow_ext : oracle -> datetime * oracle)
    (set_iter : pyset -> list SectionName)
    (args : settings) (csv_path : pystr) (df : matrix) (w : world oracle) :
  (limit_pairs args < 0)%Z ->
  let p := match rows df with
           | [] => 0%Z
           | r :: _ => if (0 <? eligible_in_row (col_labels df) r)%Z then 1%Z else 0%Z
           end in
  main unicode_lower unicode_upper float_of_str generate_child_content_ext
    regenerate_section_ext utcnow_ext set_iter args csv_path (Some df) w
  = (Ok (mk_counters p 0 0),
     mk_world (ext w) (trace w ++ [EvPrint (MsgSummary p 0 0)])).
Proof. intros H. now apply main_negative. Qed.

Lemma negative_limit_processes_nothing_witness :
  main Fixtures.no_case Fixtures.no_case Fixtures.no_float
    (Fixtures.gen_const Fixtures.page_ok) Fixtures.regen_short
    Fixtures.clock Fixtures.insertion_order
    (Fixtures.cli (-1) false 2) (u "matrix.csv") (Some Fixtures.matrix_2x2)
    Fixtures.w0
  = (Ok (mk_counters 1 0 0),
     mk_world (ext Fixtures.w0) (trace Fixtures.w0 ++ [EvPrint (MsgSummary 1 0 0)])).
Proof.
  apply (negative_limit_processes_nothing Fixtures.no_case Fixtures.no_case Fixtures.no_float nat
           (Fixtures.gen_const Fixtures.page_ok) Fixtures.regen_short
           Fixtures.clock Fixtures.insertion_order
           (Fixtures.cli (-1) false 2) (u "matrix.csv") Fixtures.matrix_2x2
           Fixtures.w0).
  reflexivity.
Defined.

(** *** The landing document *)

Lemma str_of_N_inj (n m : N) : str_of_N n = str_of_N m -> n = m.
Proof.
  unfold str_of_N. intros H.
  assert (Hl : list_ascii_of_string (NilZero.string_of_uint (N.to_uint n))
               = list_ascii_of_string (NilZero.string_of_uint (N.to_uint m))).
  { revert H. generalize (list_ascii_of_string (NilZero.string_of_uint (N.to_uint n))).
    generalize (list_ascii_of_string (NilZero.string_of_uint (N.to_uint m))).
    intros l2 l1. revert l2. induction l1 as [|a l1 IH]; intros [|b l2] H;
      try discriminate; [reflexivity|].
    cbn [map] in H. inversion H as [[Ha Hl]]. f_equal; [|now apply IH].
    rewrite <- (ascii_N_embedding a), <- (ascii_N_embedding b). now rewrite Ha. }
  assert (Hs : NilZero.string_of_uint (N.to_uint n)
               = NilZero.string_of_uint (N.to_uint m)).
  { rewrite <- (string_of_list_ascii_of_string (NilZero.string_of_uint (N.to_uint n))),
            <- (string_of_list_ascii_of_string (NilZero.string_of_uint (N.to_uint m))).
    now rewrite Hl. }
  assert (Hnn : forall k, N.to_uint k <> Decimal.Nil).
  { intros [|p]; [discriminate | apply DecimalPos.Unsigned.to_uint_nonnil]. }
  apply DecimalN.Unsigned.to_uint_inj.
  pose proof (NilZero.usu (N.to_uint n) (Hnn n)) as H1.
  pose proof (NilZero.usu (N.to_uint m) (Hnn m)) as H2.
  rewrite Hs in H1. congruence.
Qed.

Lemma build_blocks_spec (l : list block_dict) : forall idx,
  match build_blocks idx l with
  | Ok docs =>
      forallb complete_block l = true
      /\ map blockKey docs
         = map (fun i => u "BLOCK_" ++ str_of_N (N.of_nat i + 1)) (seq idx (List.length l))
      /\ forall i b, nth_error l i = Some b ->
           exists h s, heading b = Some h /\ subheading b = Some s
             /\ nth_error docs i
                = Some (mk_highlight (u "BLOCK_" ++ str_of_N (N.of_nat (idx + i) + 1))
                          true h s (N.of_nat (idx + i) + 1))
  | Raise e =>
      forallb complete_block l = false
      /\ (e = KeyError (u "heading") \/ e = KeyError (u "subheading"))
  end.
Proof.
  induction l as [|b l IH]; intros idx.
  - cbn [build_blocks]. split; [reflexivity|]. split; [reflexivity|].
    intros [|i] b H; discriminate.
  - cbn [build_blocks forallb].
    destruct (heading b) as [h|] eqn:Eh.
    2: { split; [unfold complete_block; now rewrite Eh | now left]. }
    destruct (subheading b) as [s|] eqn:Es.
    2: { split; [unfold complete_block; now rewrite Eh, Es | now right]. }
    assert (Hcb : complete_block b = true)
      by (unfold complete_block; now rewrite Eh, Es).
    rewrite Hcb. cbn [andb].
    specialize (IH (S idx)). destruct (build_blocks (S idx) l) as [docs|e].
    + destruct IH as [Hc [Hk Hn]]. split; [exact Hc|]. split.
      * cbn [map List.length seq blockKey]. now rewrite Hk.
      * intros [|i] b' H.
        -- inversion H. subst b'. exists h, s. rewrite Nat.add_0_r.
           repeat split; assumption.
        -- cbn [nth_error] in *. destruct (Hn i b' H) as [h' [s' [H1 [H2 H3]]]].
           exists h', s'. repeat split; try assumption.
           rewrite H3. now rewrite Nat.add_succ_r.
    + destruct IH as [Hc He]. split; [exact Hc | exact He].
Qed.

Lemma block_keys_NoDup (idx n : nat) :
  NoDup (map (fun i => u "BLOCK_" ++ str_of_N (N.of_nat i + 1)) (seq idx n)).
Proof.
  apply Injective_map_NoDup; [|apply seq_NoDup].
  intros i j H. apply app_inv_head in H. apply str_of_N_inj in H. lia.
Qed.

(** X19: [build_landing_mongo_doc] returns a document exactly when every
    highlight block and every FAQ entry carries both of its keys.  The
    document lists the blocks in their order, each visible, numbered from
    1 and keyed [BLOCK_1], [BLOCK_2], ...: no two blocks share a key.  A
    block that lacks a key raises [KeyError] for [heading] or
    [subheading], whatever the FAQ entries are. *)
Theorem landing_doc_blocks (now : datetime) (ai : LandingPageOutput)
    (slug locale site_code status : pystr) (version : Z) :
  let out := build_landing_mongo_doc now ai slug locale site_code status version in
  ((exists doc, out = Ok doc)
   <-> forallb complete_block (highlight_blocks ai) = true
       /\ forallb complete (landing_faqs ai) = true)
  /\ (forall doc, out = Ok doc ->
        let blocks := highlightBlocks (descriptionSection doc) in
        List.length blocks = List.length (highlight_blocks ai)
        /\ NoDup (map blockKey blocks)
        /\ forall i b, nth_error (highlight_blocks ai) i = Some b ->
             exists h s, heading b = Some h /\ subheading b = Some s
               /\ nth_error blocks i
                  = Some (mk_highlight (u "BLOCK_" ++ str_of_N (N.of_nat i + 1))
                            true h s (N.of_nat i + 1)))
  /\ (forallb complete_block (highlight_blocks ai) = false ->
      out = Raise (KeyError (u "heading")) \/ out = Raise (KeyError (u "subheading"))).
Proof.
  intros out. unfold out, build_landing_mongo_doc.
  pose proof (build_blocks_spec (highlight_blocks ai) 0) as Hb.
  destruct (build_blocks 0 (highlight_blocks ai)) as [bdocs|e] eqn:Eb.
  - destruct Hb as [Hc [Hk Hn]].
    pose proof (build_faqs_spec (landing_faqs ai) 0) as Hf.
    destruct (build_faqs 0 (landing_faqs ai)) as [fdocs|e] eqn:Ef.
    + destruct Hf as [Hfc _]. split; [|split].
      * split; [intros _; now split | intros _; eexists; reflexivity].
      * intros doc Hd. inversion Hd. subst doc.
        cbn [descriptionSection highlightBlocks]. split; [|split].
        -- rewrite <- (length_map blockKey), Hk, length_map. apply length_seq.
        -- rewrite Hk. apply block_keys_NoDup.
        -- exact Hn.
      * intros H. congruence.
    + split; [|split].
      * split; [intros [doc Hd]; discriminate|]. intros [_ Hfc].
        destruct (build_faqs_complete (landing_faqs ai) 0 Hfc) as [docs Hd]. congruence.
      * intros doc Hd. discriminate.
      * intros H. congruence.
  - destruct Hb as [Hc He]. split; [|split].
    + split; [intros [doc Hd]; discriminate | intros [H _]; congruence].
    + intros doc Hd. discriminate.
    + intros _. destruct He as [->| ->]; [now left | now right].
Qed.

(** *** The command line of the generator *)

Section Strict.

Variable unicode_lower : pystr -> pystr.
Variable oracle : Type.
Variable generate_landing_content_ext : oracle -> option LandingPageOutput * oracle.
Variable generate_child_input_ext :
  ChildPageInput -> oracle -> option ChildPageOutput * oracle.
Variable utcnow_ext : oracle -> datetime * oracle.

Lemma child_output_strict (args : generator_args)
    (from_unit_code to_unit_code from_unit_label to_unit_label : pystr)
    (ai_output : ChildPageOutput) (w : console oracle) :
  arg_strict_lengths args = true ->
  exists ps,
    console_out (snd (child_output unicode_lower utcnow_ext args from_unit_code
                        to_unit_code from_unit_label to_unit_label ai_output w))
    = console_out w ++ ps
    /\ forallb valid_print ps = true.
Proof.
  intros Hs. unfold child_output. rewrite Hs, orb_true_r. unfold bind at 1.
  destruct (validate_child_lengths ai_output) as [|i issues] eqn:Ev.
  2: { exists []. cbn. now rewrite app_nil_r. }
  cbn [ret]. destruct (arg_mode args).
  - exists [PrintChild ai_output]. cbn. now rewrite Ev.
  - unfold bind, console_utcnow, console_lift, say.
    destruct (utcnow_ext (console_ext w)) as [now o].
    destruct (build_child_mongo_doc _ _ _ _ _ _ _ _ _ _ _) as [doc|e] eqn:Ed.
    + exists [PrintChildDoc doc]. cbn [ret snd console_out console_ext]. split; [reflexivity|].
      cbn [forallb valid_print]. rewrite (page_of_built_doc _ _ _ _ _ _ _ _ _ _ _ _ Ed).
      now rewrite Ev.
    + exists []. cbn. now rewrite app_nil_r.
Qed.

Lemma generator_main_strict (args : generator_args) (w : console oracle) :
  arg_strict_lengths args = true ->
  exists ps,
    console_out (snd (generator_main unicode_lower generate_landing_content_ext
                        generate_child_input_ext utcnow_ext args w))
    = console_out w ++ ps
    /\ forallb valid_print ps = true.
Proof.
  intros Hs. unfold generator_main. destruct (arg_type args).
  - unfold bind at 1. unfold generate_landing_content.
    destruct (generate_landing_content_ext (console_ext w)) as [[p|] o].
    2: { exists []. cbn. now rewrite app_nil_r. }
    destruct (arg_mode args).
    + exists [PrintLanding p]. split; reflexivity.
    + unfold bind, console_utcnow, console_lift, say. cbn [console_ext console_out].
      destruct (utcnow_ext o) as [now o'].
      destruct (build_landing_mongo_doc _ _ _ _ _ _ _) as [doc|e].
      * exists [PrintLandingDoc doc]. split; reflexivity.
      * exists []. cbn. now rewrite app_nil_r.
  - destruct (given (arg_from_unit_code args) && given (arg_to_unit_code args)
              && given (arg_from_unit_label args) && given (arg_to_unit_label args)).
    2: { exists []. cbn. now rewrite app_nil_r. }
    unfold bind. unfold generate_child_input.
    destruct (generate_child_input_ext _ (console_ext w)) as [[c|] o].
    2: { exists []. cbn. now rewrite app_nil_r. }
    destruct (child_output_strict args
                (or_default (arg_from_unit_code args) [])
                (or_default (arg_to_unit_code args) [])
                (or_default (arg_from_unit_label args) [])
                (or_default (arg_to_unit_label args) [])
                c (mk_console o (console_out w)) Hs) as [ps [E F]].
    exists ps. split; [exact E | exact F].
Qed.

End Strict.

(** X20: with [--strict_lengths] the command line of the generator
    never prints a child page that fails the length validation: whatever
    it prints is a page (or the document of a page) without any issue,
    and no validation message is printed; a page with issues ends the
    run with [SystemExit] instead. *)
Theorem strict_lengths_prints_valid_pages
    (unicode_lower : pystr -> pystr) (oracle : Type)
    (generate_landing_content_ext : oracle -> option LandingPageOutput * oracle)
    (generate_child_input_ext :
       ChildPageInput -> oracle -> option ChildPageOutput * oracle)
    (utcnow_ext : oracle -> datetime * oracle)
    (args : generator_args) (w : console oracle) :
  arg_strict_lengths args = true ->
  (exists ps,
     console_out (snd (generator_main unicode_lower generate_landing_content_ext
                         generate_child_input_ext utcnow_ext args w))
     = console_out w ++ ps
     /\ forallb valid_print ps = true)
  /\ forall from_unit_code to_unit_code from_unit_label to_unit_label ai_output,
       validate_child_lengths ai_output <> [] ->
       child_output unicode_lower utcnow_ext args from_unit_code to_unit_code
         from_unit_label to_unit_label ai_output w
       = (Raise (SystemExit
                   (join NEWLINE (u "Length validation issues:"
                                    :: validate_child_lengths ai_output))), w).
Proof.
  intros Hs. split; [now apply generator_main_strict|].
  intros fc tc fl tl c Hv. unfold child_output. rewrite Hs, orb_true_r.
  unfold bind. destruct (validate_child_lengths c); [congruence | reflexivity].
Qed.

Lemma strict_lengths_prints_valid_pages_witness :
  exists ps,
    console_out (snd (generator_main Fixtures.no_case Samples.gen_landing_none
                        (Samples.gen_input_const Fixtures.page_ok) Fixtures.clock
                        Samples.strict_args Samples.console0))
    = console_out Samples.console0 ++ ps
    /\ forallb valid_print ps = true.
Proof.
  apply (strict_lengths_prints_valid_pages Fixtures.no_case nat Samples.gen_landing_none
           (Samples.gen_input_const Fixtures.page_ok) Fixtures.clock
           Samples.strict_args Samples.console0).
  reflexivity.
Defined.

Lemma landing_doc_blocks_witness :
  exists doc,
    build_landing_mongo_doc 7 Samples.landing_two_blocks (u "area-convertor")
      (u "en-IN") (u "sqy-india-web") (u "draft") 1 = Ok doc
    /\ NoDup (map blockKey (highlightBlocks (descriptionSection doc))).
Proof.
  eexists. split; [vm_compute; reflexivity|].
  refine (proj1 (proj2 (proj1 (proj2
    (landing_doc_blocks 7 Samples.landing_two_blocks (u "area-convertor")
       (u "en-IN") (u "sqy-india-web") (u "draft") 1)) _ _))).
  vm_compute. reflexivity.
Defined.

(** *** The regeneration prompt *)

Lemma lstrip_all_space (ws : pystr) : forallb is_space ws = true -> lstrip ws = [].
Proof.
  induction ws as [|c ws IH]; [reflexivity|]. cbn [forallb lstrip].
  intros H. apply andb_true_iff in H as [Hc Hw]. rewrite Hc. now apply IH.
Qed.

Lemma rstrip_app (x b : pystr) :
  forallb is_space b = false -> rstrip (x ++ b) = x ++ rstrip b.
Proof.
  intros H. unfold rstrip. rewrite rev_app_distr, lstrip_app, forallb_rev, H.
  now rewrite rev_app_distr, rev_involutive.
Qed.

Lemma strip_app (a : pystr) (c : char) (b : pystr) :
  is_space c = false -> strip (a ++ c :: b) = lstrip a ++ rstrip (c :: b).
Proof.
  intros Hc. unfold strip. rewrite lstrip_app.
  assert (Hb : forallb is_space (c :: b) = false) by (cbn; now rewrite Hc).
  destruct (forallb is_space a) eqn:Ea.
  - rewrite (lstrip_all_space a Ea). cbn [lstrip app]. now rewrite Hc.
  - now apply rstrip_app.
Qed.

Lemma strip_keeps_infix (a x b : pystr) :
  forallb is_space a = false -> forallb is_space b = false ->
  strip (a ++ x ++ b) = lstrip a ++ x ++ rstrip b.
Proof.
  intros Ha Hb. unfold strip. rewrite lstrip_app, Ha.
  rewrite (app_assoc (lstrip a) x b), rstrip_app by exact Hb.
  now rewrite <- app_assoc.
Qed.

(** Cuts a concatenation at the element [x] of its spine. *)
Ltac cut_at x T k :=
  lazymatch T with
  | ?h ++ (x ++ ?r) => k h r
  | ?h ++ ?t => cut_at x t ltac:(fun a b => k (h ++ a) b)
  end.

Opaque u.

Lemma prompt_holds_instruction (float_str : spec_float -> pystr)
    (base_context : pystr) (section : SectionName)
    (from_unit_code to_unit_code from_unit_label to_unit_label : pystr)
    (factor_to_unit : option spec_float)
    (from_unit_region to_unit_region city_name : option pystr) :
  exists pre post,
    build_section_regen_prompt float_str base_context section from_unit_code
      to_unit_code from_unit_label to_unit_label factor_to_unit from_unit_region
      to_unit_region city_name
    = pre ++ section_instruction_map section ++ post.
Proof.
  unfold build_section_regen_prompt. cbv zeta.
  set (note := section_instruction_map section).
  match goal with
  | |- exists pre post, strip ?T = _ =>
      cut_at note T ltac:(fun a b =>
        assert (E : T = a ++ note ++ b)
          by (rewrite <- ?app_assoc; reflexivity);
        assert (Ha : forallb is_space a = false);
        [ | assert (Hb : forallb is_space b = false);
            [ | exists (lstrip a), (rstrip b); rewrite E;
                apply strip_keeps_infix; assumption ] ])
  end.
  - rewrite !forallb_app.
    replace (forallb is_space (u "Use the following context:")) with false
      by (vm_compute; reflexivity).
    cbn [andb]. now rewrite !andb_false_r.
  - rewrite !forallb_app.
    replace (forallb is_space (u "Output format:")) with false
      by (vm_compute; reflexivity).
    cbn [andb]. now rewrite !andb_false_r.
Qed.

Transparent u.

Lemma instruction_states_range (k : slot) :
  word_ranges (section_instruction_map (slot_section k)) = [slot_range k].
Proof. destruct k; vm_compute; reflexivity. Qed.

Lemma outside_instruction_fails (c : ChildPageOutput) (k : slot) :
  outside_instruction c k = slot_fails c k.
Proof.
  unfold outside_instruction, slot_fails. destruct (slot_html c k) as [h|]; [|reflexivity].
  rewrite instruction_states_range. cbn [forallb]. now rewrite andb_true_r.
Qed.

(** X21: the regeneration prompt asks for the range the validator
    enforces.  The instruction written for a section states one word
    range, read as the numbers around the dash of a text [lo–hi word...];
    the validator reports exactly the places of a page, in its order,
    that hold a number of words outside the range the instruction of
    their section states, and nothing when there is none; and the prompt
    built for a section holds its instruction, whatever the base prompt
    and the other arguments are. *)
Theorem regeneration_prompt_states_validator_range
    (float_str : spec_float -> pystr) (base_context : pystr) (k : slot)
    (from_unit_code to_unit_code from_unit_label to_unit_label : pystr)
    (factor_to_unit : option spec_float)
    (from_unit_region to_unit_region city_name : option pystr) :
  let instruction := section_instruction_map (slot_section k) in
  word_ranges instruction = [slot_range k]
  /\ (forall c, validate_child_lengths c
                = map (issue_at c) (filter (outside_instruction c) (slots c)))
  /\ (forall c, validate_child_lengths c = [] <->
                forall k', In k' (slots c) -> outside_instruction c k' = false)
  /\ exists pre post,
       build_section_regen_prompt float_str base_context (slot_section k)
         from_unit_code to_unit_code from_unit_label to_unit_label factor_to_unit
         from_unit_region to_unit_region city_name
       = pre ++ instruction ++ post.
Proof.
  intros instruction.
  assert (Hv : forall c, validate_child_lengths c
                = map (issue_at c) (filter (outside_instruction c) (slots c))).
  { intros c. rewrite validate_issue_at. unfold failing_slots. f_equal.
    apply filter_ext. intros k'. symmetry. apply outside_instruction_fails. }
  split; [apply instruction_states_range|]. split; [exact Hv|].
  split; [|apply prompt_holds_instruction].
  intros c. rewrite Hv. split.
  - intros H k' Hk. destruct (outside_instruction c k') eqn:E; [|reflexivity].
    assert (Hin : In k' (filter (outside_instruction c) (slots c)))
      by (apply filter_In; now split).
    destruct (filter (outside_instruction c) (slots c)); [destruct Hin | discriminate H].
  - intros H. replace (filter (outside_instruction c) (slots c)) with (@nil slot);
      [reflexivity|].
    symmetry. apply filter_none. intros k' Hk. now apply H.
Qed.

(** *** The child prompt *)

Lemma prefixb_self_app (p r : pystr) : prefixb p (p ++ r) = true.
Proof.
  induction p as [|c p IH]; [reflexivity|]. cbn [app prefixb].
  unfold char_eqb. now rewrite N.eqb_refl, IH.
Qed.

Lemma replace_go_skip (old new x r : pystr) :
  replace_go old new (List.length x) (x ++ r) = replace_go old new 0 r.
Proof. induction x as [|c x IH]; [reflexivity | exact IH]. Qed.

(** A text without the first character of [old] is left as it is. *)
Lemma replace_plain (c0 : char) (old new s : pystr) :
  existsb (char_eqb c0) s = false -> replace_str (c0 :: old) new s = s.
Proof.
  unfold replace_str. induction s as [|c s IH]; intros H; [reflexivity|].
  cbn [existsb] in H. apply orb_false_iff in H as [Hc Hs].
  cbn [replace_go prefixb]. rewrite Hc. cbn [andb]. now rewrite (IH Hs).
Qed.

Lemma replace_plain_prefix (c0 : char) (old new pre s : pystr) :
  existsb (char_eqb c0) pre = false ->
  replace_str (c0 :: old) new (pre ++ s) = pre ++ replace_str (c0 :: old) new s.
Proof.
  unfold replace_str. induction pre as [|c pre IH]; intros H; [reflexivity|].
  cbn [existsb] in H. apply orb_false_iff in H as [Hc Hs].
  cbn [app replace_go prefixb]. rewrite Hc. cbn [andb]. now rewrite (IH Hs).
Qed.

Lemma placeholder_chars (name : pystr) :
  placeholder name = LBRACE :: LBRACE :: name ++ [RBRACE; RBRACE].
Proof. reflexivity. Qed.

Lemma not_brace_no_lbrace (s : pystr) :
  forallb not_brace s = true -> existsb (char_eqb LBRACE) s = false.
Proof.
  induction s as [|c s IH]; [reflexivity|]. cbn [forallb existsb].
  intros H. apply andb_true_iff in H as [Hc Hs]. rewrite (IH Hs), orb_false_r.
  unfold not_brace in Hc. apply andb_true_iff in Hc as [Hc _].
  apply negb_true_iff in Hc. now rewrite char_eqb_sym.
Qed.

Lemma replace_hit (name new pre post : pystr) :
  existsb (char_eqb LBRACE) pre = false ->
  replace_str (placeholder name) new (pre ++ placeholder name ++ post)
  = pre ++ new ++ replace_str (placeholder name) new post.
Proof.
  intros Hpre. rewrite placeholder_chars.
  rewrite (replace_plain_prefix LBRACE _ new pre _ Hpre). f_equal.
  unfold replace_str. set (p := LBRACE :: name ++ [RBRACE; RBRACE]).
  change ((LBRACE :: p) ++ post) with (LBRACE :: (p ++ post)).
  cbn [replace_go]. change (LBRACE :: p ++ post) with ((LBRACE :: p) ++ post).
  rewrite prefixb_self_app. cbn [List.length pred]. now rewrite replace_go_skip.
Qed.

(** Two names without braces whose placeholders start alike are the
    same. *)
Lemma prefixb_names (n' : pystr) : forall n post,
  forallb not_brace n = true -> forallb not_brace n' = true ->
  prefixb (n' ++ [RBRACE; RBRACE]) (n ++ [RBRACE; RBRACE] ++ post) = true -> n' = n.
Proof.
  induction n' as [|c n' IH]; intros n post Hn Hn' H.
  - destruct n as [|d n]; [reflexivity|]. exfalso.
    cbn [app prefixb forallb] in *. apply andb_true_iff in Hn as [Hd _].
    apply andb_true_iff in H as [H _]. apply char_eqb_eq in H. subst d.
    discriminate Hd.
  - cbn [forallb] in Hn'. apply andb_true_iff in Hn' as [Hc Hn'].
    destruct n as [|d n].
    + exfalso. cbn [app prefixb] in H. apply andb_true_iff in H as [H _].
      apply char_eqb_eq in H. subst c. discriminate Hc.
    + cbn [forallb] in Hn. apply andb_true_iff in Hn as [Hd Hn].
      cbn [app prefixb] in H. apply andb_true_iff in H as [H1 H2].
      apply char_eqb_eq in H1. subst d. f_equal. now apply (IH n post).
Qed.

Lemma replace_miss (name other new pre post : pystr) :
  other <> name ->
  forallb not_brace name = true -> forallb not_brace other = true ->
  existsb (char_eqb LBRACE) pre = false ->
  existsb (char_eqb LBRACE) post = false ->
  replace_str (placeholder other) new (pre ++ placeholder name ++ post)
  = pre ++ placeholder name ++ post.
Proof.
  intros Hne Hn Ho Hpre Hpost. rewrite !placeholder_chars.
  rewrite (replace_plain_prefix LBRACE _ new pre _ Hpre). f_equal.
  set (tail := name ++ [RBRACE; RBRACE] ++ post).
  assert (Ht : existsb (char_eqb LBRACE) tail = false).
  { unfold tail. rewrite !existsb_app, (not_brace_no_lbrace name Hn), Hpost.
    reflexivity. }
  assert (E : (LBRACE :: LBRACE :: name ++ [RBRACE; RBRACE]) ++ post
              = LBRACE :: LBRACE :: tail).
  { unfold tail. cbn [app]. now rewrite <- app_assoc. }
  rewrite E. unfold replace_str. cbn [replace_go prefixb].
  change (char_eqb LBRACE LBRACE) with true. cbn [andb].
  destruct (prefixb (other ++ [RBRACE; RBRACE]) tail) eqn:Hp.
  { exfalso. apply Hne. now apply (prefixb_names other name post). }
  f_equal.
  pose proof (replace_plain LBRACE (LBRACE :: other ++ [RBRACE; RBRACE]) new tail Ht)
    as Hr.
  unfold replace_str in Hr. clearbody tail.
  destruct tail as [|c t]; [reflexivity|].
  cbn [existsb] in Ht. apply orb_false_iff in Ht as [Hc _]. rewrite Hc.
  cbn [andb]. now rewrite Hr.
Qed.

Lemma fold_plain (l : list (pystr * pystr)) : forall s,
  existsb (char_eqb LBRACE) s = false ->
  fold_left (fun t nv => replace_str (placeholder (fst nv)) (snd nv) t) l s = s.
Proof.
  induction l as [|[n v] l IH]; intros s H; [reflexivity|].
  cbn [fold_left fst snd]. rewrite placeholder_chars.
  rewrite (replace_plain LBRACE _ v s H). now apply IH.
Qed.

Lemma fold_hit (name value pre post : pystr) (l : list (pystr * pystr)) :
  NoDup (map fst l) ->
  (forall nv, In nv l -> forallb not_brace (fst nv) = true) ->
  In (name, value) l ->
  forallb not_brace pre = true -> forallb not_brace post = true ->
  forallb not_brace value = true ->
  fold_left (fun t nv => replace_str (placeholder (fst nv)) (snd nv) t) l
    (pre ++ placeholder name ++ post)
  = pre ++ value ++ post.
Proof.
  intros ND Hnames Hin Hpre Hpost Hval.
  pose proof (not_brace_no_lbrace pre Hpre) as Lpre.
  pose proof (not_brace_no_lbrace post Hpost) as Lpost.
  pose proof (not_brace_no_lbrace value Hval) as Lval.
  induction l as [|[n v] l IH]; [destruct Hin|].
  cbn [fold_left fst snd]. inversion ND as [|? ? Hnot ND']; subst.
  destruct Hin as [E|Hin].
  - inversion E. subst n v. rewrite (replace_hit name value pre post Lpre).
    rewrite placeholder_chars, (replace_plain LBRACE _ value post Lpost).
    apply fold_plain. now rewrite !existsb_app, Lpre, Lval, Lpost.
  - assert (Hne : n <> name).
    { intros ->. apply Hnot. change name with (fst (name, value)). now apply in_map. }
    rewrite replace_miss; try assumption.
    + apply IH; [exact ND' | | exact Hin]. intros nv Hnv. apply Hnames. now right.
    + apply (Hnames (name, value)). now right.
    + apply (Hnames (n, v)). now left.
Qed.

Lemma render_as_fold (float_str : spec_float -> pystr) (template : pystr)
    (i : ChildPageInput) :
  render_child_prompt float_str template i
  = fold_left (fun t nv => replace_str (placeholder (fst nv)) (snd nv) t)
      (placeholders float_str i) template.
Proof. reflexivity. Qed.

Lemma placeholder_names (float_str : spec_float -> pystr) (i : ChildPageInput) :
  NoDup (map fst (placeholders float_str i))
  /\ forall nv, In nv (placeholders float_str i) -> forallb not_brace (fst nv) = true.
Proof.
  split.
  - cbn [placeholders map fst].
    repeat (constructor; [vm_compute; intuition discriminate|]). constructor.
  - intros nv H. cbn [placeholders] in H.
    repeat (destruct H as [<-|H]; [vm_compute; reflexivity|]). destruct H.
Qed.

(** X22: [render_child_prompt] puts each value in the place of its
    placeholder.  For a template made of a text, one of the nine
    placeholders and a text, where the two texts and the value of the
    placeholder hold no brace, the rendered prompt is the first text, the
    value and the second text; the value is the field of the input, or
    its default when the field is optional and absent or empty (see
    [placeholders]).  A template without braces is returned as it is. *)
Theorem child_prompt_substitutes (float_str : spec_float -> pystr)
    (i : ChildPageInput) (pre post name value : pystr) :
  In (name, value) (placeholders float_str i) ->
  forallb not_brace pre = true ->
  forallb not_brace post = true ->
  forallb not_brace value = true ->
  render_child_prompt float_str (pre ++ placeholder name ++ post) i
  = pre ++ value ++ post
  /\ render_child_prompt float_str pre i = pre.
Proof.
  intros Hin Hpre Hpost Hval. rewrite !render_as_fold.
  destruct (placeholder_names float_str i) as [ND Hn]. split.
  - now apply fold_hit.
  - apply fold_plain. now apply not_brace_no_lbrace.
Qed.

Lemma child_prompt_substitutes_witness :
  render_child_prompt (fun _ => u "1.0")
    (u "Write about " ++ placeholder (u "city_name") ++ u ".") Samples.bare_input
  = u "Write about " ++ u "a major Indian city" ++ u ".".
Proof.
  apply (child_prompt_substitutes (fun _ => u "1.0") Samples.bare_input
           (u "Write about ") (u ".") (u "city_name") (u "a major Indian city")).
  - vm_compute. tauto.
  - vm_compute. reflexivity.
  - vm_compute. reflexivity.
  - vm_compute. reflexivity.
Defined.

(** *** What a batch hands to the generator *)

Lemma str_eqb_refl (s : pystr) : str_eqb s s = true.
Proof. now apply str_eqb_eq. Qed.

Lemma region_or_pan_india_nonempty (label : pystr) :
  str_eqb (region_or_pan_india label) [] = false.
Proof.
  unfold region_or_pan_india.
  destruct (extract_region label) as [[|c r]|]; reflexivity.
Qed.

Lemma pair_payload_proper (unicode_lower unicode_upper : pystr -> pystr)
    (row_label col_label : pystr) (factor : spec_float) (args : settings) :
  str_eqb (strip row_label) (strip col_label) = false ->
  proper_payload (pair_payload unicode_lower unicode_upper row_label col_label
                    factor args) = true.
Proof.
  intros H3. unfold proper_payload, pair_payload.
  cbn [p_factor_to_unit p_from_unit_label p_to_unit_label p_from_unit_code
       p_to_unit_code p_from_unit_region p_to_unit_region].
  rewrite H3, !strip_idem, !str_eqb_refl,
    !normalize_unit_code_well_formed_aux, !region_or_pan_india_nonempty.
  reflexivity.
Qed.

Lemma emits_bind_lift {oracle A B : Type} (P : event -> bool) (r : result A)
    (k : A -> M (world oracle) B) :
  (forall a, r = Ok a -> emits P (k a)) -> emits P (bind (lift r) k).
Proof.
  intros H. destruct r as [a|e].
  - intros w. exact (H a eq_refl w).
  - intros w. exists []. cbn. now rewrite app_nil_r.
Qed.

Section Generates.

Variable unicode_lower : pystr -> pystr.
Variable unicode_upper : pystr -> pystr.
Variable float_of_str : pystr -> option spec_float.
Variable oracle : Type.
Variable generate_child_content_ext :
  payload -> oracle -> option ChildPageOutput * oracle.
Variable regenerate_section_ext :
  SectionName -> regen_args -> oracle -> option regen_dict * oracle.
Variable utcnow_ext : oracle -> datetime * oracle.
Variable set_iter : pyset -> list SectionName.
Variable args : settings.

(** A property of events that only constrains the calls to the
    generator. *)
Variable P : event -> bool.
Hypothesis P_other : forall e, is_generate e = false -> P e = true.

Lemma persist_generates (from_code to_code from_label to_label : pystr)
    (factor : spec_float) (c : ChildPageOutput) (issues : list pystr) :
  emits P
    (persist unicode_lower utcnow_ext from_code to_code from_label to_label
       factor args c issues).
Proof.
  unfold persist. apply emits_bind; [apply emits_utcnow|]. intros now.
  apply emits_bind; [apply emits_lift|]. intros doc.
  apply emits_bind.
  - destruct (html_out_dir args) as [dir|]; [|apply emits_ret].
    apply emits_bind; [now apply emits_emit, P_other|]. intros _.
    apply emits_bind; [now apply emits_emit, P_other|]. intros _.
    now apply emits_emit, P_other.
  - intros _. apply emits_bind; [|intros _; apply emits_ret].
    destruct (preview_only args); now apply emits_emit, P_other.
Qed.

Lemma process_pair_generates (row_label col_label : pystr) (factor : spec_float) :
  P (EvGenerate (pair_payload unicode_lower unicode_upper row_label col_label
                   factor args)) = true ->
  emits P
    (process_pair unicode_lower unicode_upper generate_child_content_ext
       regenerate_section_ext utcnow_ext set_iter row_label col_label factor args).
Proof.
  intros H. unfold process_pair. apply emits_bind.
  - now apply emits_generate.
  - intros c. apply emits_bind; [|intros r; apply persist_generates].
    apply emits_repair. intros _ _ s a. now apply P_other.
Qed.

Lemma row_loop_generates (row_label : label) (cells : list (pystr * cell)) :
  row_generates unicode_lower unicode_upper float_of_str args P row_label cells ->
  forall st,
  emits P
    (row_loop unicode_lower unicode_upper float_of_str generate_child_content_ext
       regenerate_section_ext utcnow_ext set_iter args row_label cells st).
Proof.
  induction cells as [|[col_label factor] rest IH]; intros Hc st; [apply emits_ret|].
  assert (Hrest : row_generates unicode_lower unicode_upper float_of_str args P row_label rest).
  { intros c x f Hin. apply Hc. now right. }
  specialize (IH Hrest).
  pose proof (Hc col_label factor) as Hhere. unfold skipped in Hhere.
  cbn [row_loop]. destruct (is_blank factor); [apply IH|].
  destruct (is_zero factor); [apply IH|].
  destruct (str_eqb (strip (str_of_label row_label)) (strip col_label)); [apply IH|].
  destruct (limit_on args && (limit_pairs args <? processed st + 1)%Z);
    [apply emits_ret|].
  apply emits_bind; [apply emits_lift|]. intros from_label.
  apply emits_bind; [now apply emits_emit, P_other|]. intros _.
  apply emits_bind_lift. intros f Hf.
  apply emits_bind.
  - apply process_pair_generates. apply Hhere; [now left | reflexivity | exact Hf].
  - intros r. destruct (fst r).
    + apply emits_bind; [now apply emits_emit, P_other | intros _; apply IH].
    + apply emits_bind; [now apply emits_emit, P_other|]. intros _.
      apply emits_bind; [|intros _; apply IH].
      apply emits_print_issues. intros i. now apply P_other.
Qed.

Lemma table_loop_generates (cols : list pystr) (rs : list (label * list cell)) :
  (forall row_label cells, In (row_label, cells) rs ->
     row_generates unicode_lower unicode_upper float_of_str args P row_label (combine cols cells)) ->
  forall st,
  emits P
    (table_loop unicode_lower unicode_upper float_of_str generate_child_content_ext
       regenerate_section_ext utcnow_ext set_iter args cols rs st).
Proof.
  induction rs as [|[row_label cells] rest IH]; intros Hr st; [apply emits_ret|].
  cbn [table_loop]. apply emits_bind.
  - apply row_loop_generates. apply Hr. now left.
  - intros st'.
    destruct (limit_on args && (limit_pairs args <=? processed st')%Z);
      [apply emits_ret|].
    apply IH. intros l c Hin. apply Hr. now right.
Qed.

Lemma main_generates (csv_path : pystr) (df : option matrix) :
  (forall m row_label cells, df = Some m -> In (row_label, cells) (rows m) ->
     row_generates unicode_lower unicode_upper float_of_str args P row_label (combine (col_labels m) cells)) ->
  emits P
    (main unicode_lower unicode_upper float_of_str generate_child_content_ext
       regenerate_section_ext utcnow_ext set_iter args csv_path df).
Proof.
  intros H. unfold main. destruct df as [df|]; [|apply emits_raise].
  apply emits_bind.
  - apply table_loop_generates. intros l c. now apply H.
  - intros st. apply emits_bind; [now apply emits_emit, P_other | intros _; apply emits_ret].
Qed.

End Generates.

Lemma skipped_label_differs (row_label : label) (col_label : pystr) (factor : cell) :
  skipped row_label col_label factor = false ->
  str_eqb (strip (str_of_label row_label)) (strip col_label) = false.
Proof. unfold skipped. intros H. now apply orb_false_iff in H as [_ H]. Qed.

Lemma float_cell_factor (float_of_str : pystr -> option spec_float)
    (row_label : label) (col_label : pystr) (factor : cell) (f : spec_float) :
  is_float_cell factor = true ->
  skipped row_label col_label factor = false ->
  float_of_cell float_of_str factor = Ok f ->
  proper_factor f = true.
Proof.
  destruct factor; try discriminate. intros _ Hs Hf.
  cbn in Hf. inversion Hf. subst f0. unfold skipped in Hs.
  apply orb_false_iff in Hs as [Hs _]. apply orb_false_iff in Hs as [H1 H2].
  cbn [is_blank is_zero] in H1, H2. unfold proper_factor. now rewrite H1, H2.
Qed.



(** *** The table of cities *)

(** X24: no entry of [REGION_TO_CITY] is shadowed by an earlier one.  A
    from label that is one of the region tokens, in the letter case of
    the table, in upper case or in lower case, gives the city of that
    token, whatever the to label, the default city and the Unicode case
    tables are. *)
Theorem region_tokens_reach_their_city (unicode_lower : pystr -> pystr)
    (region_key city to_label default_city : pystr) :
  In (region_key, city) REGION_TO_CITY ->
  guess_city unicode_lower region_key to_label default_city = city
  /\ guess_city unicode_lower (map ascii_upper region_key) to_label default_city = city
  /\ guess_city unicode_lower (map ascii_lower region_key) to_label default_city = city.
Proof.
  intros H. unfold REGION_TO_CITY in H.
  repeat (destruct H as [H|H];
          [inversion H; subst; repeat split; vm_compute; reflexivity|]).
  destruct H.
Qed.

Lemma region_tokens_reach_their_city_witness :
  guess_city Fixtures.no_case (u "Himachal") (u "Acre") (u "Mumbai") = u "Shimla".
Proof.
  apply (region_tokens_reach_their_city Fixtures.no_case (u "Himachal") (u "Shimla")
           (u "Acre") (u "Mumbai")).
  vm_compute. tauto.
Defined.

(** *** Sections the repair loop leaves alone *)

Section Frame.

Variable oracle : Type.
Variable regenerate_section_ext :
  SectionName -> regen_args -> oracle -> option regen_dict * oracle.
Variable set_iter : pyset -> list SectionName.
Hypothesis set_iter_members : forall names x, In x (set_iter names) -> In x names.

Variable a : regen_args.
Variable s : SectionName.

(** Regenerating one section changes no place of another section. *)
Lemma regen_one_frame (section : SectionName) (c c' : ChildPageOutput)
    (w w' : world oracle) :
  regen_one regenerate_section_ext a section c w = (Ok c', w') ->
  section <> s ->
  forall k, slot_section k = s -> slot_html c' k = slot_html c k.
Proof.
  intros H Hne k Hk. unfold regen_one, bind, regenerate_section in H.
  destruct (regenerate_section_ext section a (ext w)) as [[d|] o]; [|discriminate].
  destruct section;
    match type of H with
    | context [getitem _ ?v] => destruct v; [|discriminate]
    end;
    cbn [getitem ret] in H; inversion H; subst c';
    destruct k; cbn [slot_section] in Hk; subst s; try congruence; reflexivity.
Qed.

Lemma regen_sections_frame (order : list SectionName) : forall c c' w w',
  regen_sections regenerate_section_ext a order c w = (Ok c', w') ->
  ~ In s order ->
  forall k, slot_section k = s -> slot_html c' k = slot_html c k.
Proof.
  induction order as [|section order IH]; intros c c' w w' H Hn k Hk.
  - cbn in H. inversion H. reflexivity.
  - cbn [regen_sections] in H. unfold bind in H.
    destruct (regen_one regenerate_section_ext a section c w) as [[c1|e] w1] eqn:E;
      [|discriminate].
    rewrite (IH c1 c' w1 w' H) by (try assumption; intros Hin; apply Hn; now right).
    apply (regen_one_frame section c c1 w w1 E); [|exact Hk].
    intros ->. apply Hn. now left.
Qed.

Lemma regen_calls_outside (order : list SectionName) (t : list event) (m : nat) :
  ~ In s order ->
  regen_calls s (t ++ map (fun x => EvRegenerate x a) (firstn m order)) = regen_calls s t.
Proof.
  intros Hn. unfold regen_calls.
  rewrite regenerated_app, regenerated_calls, filter_app, length_app.
  replace (filter (SectionName_eqb s) (firstn m order)) with (@nil SectionName);
    [cbn; lia|].
  symmetry. apply filter_none. intros x Hx.
  destruct (SectionName_eqb s x) eqn:E; [|reflexivity].
  apply SectionName_eqb_eq in E. subst x. exfalso. apply Hn.
  rewrite <- (firstn_skipn m order). apply in_or_app. now left.
Qed.

(** A section all of whose places pass is not among the names derived
    from the validation. *)
Lemma passing_section_not_named (c : ChildPageOutput) :
  (forall k, slot_section k = s -> slot_fails c k = false) ->
  ~ In s (set_iter (section_names_from_issues (validate_child_lengths c))).
Proof.
  intros Hpass Hin. apply set_iter_members in Hin.
  apply section_names_of_validation in Hin as [k [Hk Hs]].
  apply filter_In in Hk as [_ Hf]. rewrite (Hpass k Hs) in Hf. discriminate.
Qed.

Lemma fix_loop_frame (n : nat) : forall c w,
  (forall k, slot_section k = s -> slot_fails c k = false) ->
  let out := fix_loop regenerate_section_ext set_iter n a c (validate_child_lengths c) w in
  regen_calls s (trace (snd out)) = regen_calls s (trace w)
  /\ forall c' issues, fst out = Ok (c', issues) ->
       forall k, slot_section k = s -> slot_html c' k = slot_html c k.
Proof.
  induction n as [|n IH]; intros c w Hpass out; subst out.
  - cbn. split; [reflexivity|]. intros c' issues H. inversion H. reflexivity.
  - cbn [fix_loop]. destruct (validate_child_lengths c) as [|i issues0] eqn:Ev.
    + cbn. split; [reflexivity|]. intros c' issues H. inversion H. reflexivity.
    + rewrite <- Ev. pose proof (passing_section_not_named c Hpass) as Hn.
      unfold bind. unfold fix_pass. unfold bind.
      destruct (regen_sections_trace oracle regenerate_section_ext a
                  (set_iter (section_names_from_issues (validate_child_lengths c)))
                  c w) as [m [_ [Ht _]]].
      destruct (regen_sections regenerate_section_ext a _ c w) as [[c1|e] w1] eqn:Er;
        cbn [fst snd ret] in *.
      * pose proof (regen_sections_frame _ c c1 w w1 Er Hn) as Hfr.
        assert (Hpass1 : forall k, slot_section k = s -> slot_fails c1 k = false).
        { intros k Hk. unfold slot_fails. rewrite (Hfr k Hk). now apply Hpass. }
        destruct (IH c1 w1 Hpass1) as [H1 H2]. split.
        -- rewrite H1, Ht. now apply regen_calls_outside.
        -- intros c' issues H k Hk. rewrite (H2 c' issues H k Hk). now apply Hfr.
      * split; [rewrite Ht; now apply regen_calls_outside|].
        intros c' issues H. discriminate.
Qed.

Lemma repair_frame (auto_fix : bool) (passes : Z) (c : ChildPageOutput)
    (w : world oracle) :
  (forall k, slot_section k = s -> slot_fails c k = false) ->
  let out := repair regenerate_section_ext set_iter a auto_fix passes c w in
  regen_calls s (trace (snd out)) = regen_calls s (trace w)
  /\ forall c' issues, fst out = Ok (c', issues) ->
       forall k, slot_section k = s -> slot_html c' k = slot_html c k.
Proof.
  intros Hpass out. subst out. unfold repair.
  destruct (validate_child_lengths c) as [|i issues0] eqn:Ev.
  - cbn. split; [reflexivity|]. intros c' issues H. inversion H. reflexivity.
  - destruct auto_fix.
    + rewrite <- Ev. now apply fix_loop_frame.
    + cbn. split; [reflexivity|]. intros c' issues H. inversion H. reflexivity.
Qed.

End Frame.

(** X25: the repair block leaves alone every section that is within
    range.  If all the places of a section pass the validator on the
    generated page, then, whatever the regenerator answers for the
    other sections and however many passes run, that section is never
    regenerated and the HTML of its places on the returned page is the
    generated one. *)
Theorem repair_leaves_valid_sections
    (oracle : Type)
    (regenerate_section_ext :
       SectionName -> regen_args -> oracle -> option regen_dict * oracle)
    (set_iter : pyset -> list SectionName)
    (a : regen_args) (s : SectionName) (auto_fix : bool) (passes : Z)
    (c : ChildPageOutput) (w : world oracle) :
  (forall names x, In x (set_iter names) -> In x names) ->
  (forall k, slot_section k = s -> slot_fails c k = false) ->
  let out := repair regenerate_section_ext set_iter a auto_fix passes c w in
  regen_calls s (trace (snd out)) = regen_calls s (trace w)
  /\ forall c' issues, fst out = Ok (c', issues) ->
       forall k, slot_section k = s -> slot_html c' k = slot_html c k.
Proof. intros Hm Hpass. now apply repair_frame. Qed.

Lemma repair_leaves_valid_sections_witness :
  regen_calls faq_block
    (trace (snd (repair Fixtures.regen_short Fixtures.insertion_order
                   Fixtures.some_args true 2 Fixtures.page_short_why Fixtures.w0)))
  = regen_calls faq_block (trace Fixtures.w0).
Proof.
  apply (repair_leaves_valid_sections nat Fixtures.regen_short Fixtures.insertion_order
           Fixtures.some_args faq_block true 2 Fixtures.page_short_why Fixtures.w0).
  - intros names x H. exact H.
  - intros k Hk. destruct k; try discriminate Hk.
    destruct idx as [|[|idx]]; vm_compute; reflexivity.
Defined.

(** *** How a batch can fail *)

Section Raises.

Variable unicode_lower : pystr -> pystr.
Variable unicode_upper : pystr -> pystr.
Variable float_of_str : pystr -> option spec_float.
Variable oracle : Type.
Variable generate_child_content_ext :
  payload -> oracle -> option ChildPageOutput * oracle.
Variable regenerate_section_ext :
  SectionName -> regen_args -> oracle -> option regen_dict * oracle.
Variable utcnow_ext : oracle -> datetime * oracle.
Variable set_iter : pyset -> list SectionName.
Variable args : settings.

(** A set of exceptions that holds the failures of the collaborators and
    the missing keys. *)
Variable R : exn -> bool.
Hypothesis R_collaborator : R CollaboratorError = true.
Hypothesis R_key : forall key,
  existsb (str_eqb key) indexed_keys = true -> R (KeyError key) = true.

Lemma raises_ret {A} (a : A) : raises R (ret a : M (world oracle) A).
Proof. intros w e H. discriminate H. Qed.

Lemma raises_bind {A B} (c : M (world oracle) A)
    (k : A -> M (world oracle) B) :
  raises R c -> (forall a, raises R (k a)) -> raises R (bind c k).
Proof.
  intros Hc Hk w e H. unfold bind in H. specialize (Hc w).
  destruct (c w) as [[a|e1] w1]; cbn [fst] in *.
  - now apply (Hk a w1).
  - inversion H. subst. now apply Hc.
Qed.

Lemma raises_emit (ev : event) : raises R (emit (oracle:=oracle) ev).
Proof. intros w e H. discriminate H. Qed.

Lemma raises_getitem {A} (key : pystr) (v : option A) :
  R (KeyError key) = true -> raises R (getitem (oracle:=oracle) key v).
Proof.
  intros Hk w e H. destruct v; [discriminate H|]. cbn in H. inversion H. now subst.
Qed.

Lemma raises_utcnow : raises R (utcnow utcnow_ext).
Proof.
  intros w e H. unfold utcnow in H. destruct (utcnow_ext (ext w)). discriminate H.
Qed.

Lemma raises_generate (p : payload) :
  raises R (generate_child_content generate_child_content_ext p).
Proof.
  intros w e H. unfold generate_child_content in H.
  destruct (generate_child_content_ext p (ext w)) as [[c|] o]; [discriminate H|].
  inversion H. exact R_collaborator.
Qed.

Lemma raises_regenerate (section : SectionName) (a : regen_args) :
  raises R (regenerate_section regenerate_section_ext section a).
Proof.
  intros w e H. unfold regenerate_section in H.
  destruct (regenerate_section_ext section a (ext w)) as [[d|] o]; [discriminate H|].
  inversion H. exact R_collaborator.
Qed.

Lemma raises_regen_one (a : regen_args) (section : SectionName) (c : ChildPageOutput) :
  raises R (regen_one regenerate_section_ext a section c).
Proof.
  unfold regen_one. apply raises_bind; [apply raises_regenerate|]. intros d.
  destruct section;
    (apply raises_bind;
     [apply raises_getitem, R_key; vm_compute; reflexivity
     | intros v; apply raises_ret]).
Qed.

Lemma raises_regen_sections (a : regen_args) (order : list SectionName) :
  forall c, raises R (regen_sections regenerate_section_ext a order c).
Proof.
  induction order as [|section order IH]; intros c; [apply raises_ret|].
  cbn [regen_sections]. apply raises_bind; [apply raises_regen_one | exact IH].
Qed.

Lemma raises_fix_loop (a : regen_args) (n : nat) : forall c issues,
  raises R (fix_loop regenerate_section_ext set_iter n a c issues).
Proof.
  induction n as [|n IH]; intros c issues; [apply raises_ret|].
  cbn [fix_loop]. destruct issues as [|i issues]; [apply raises_ret|].
  apply raises_bind; [|intros r; apply IH].
  unfold fix_pass. apply raises_bind; [apply raises_regen_sections|].
  intros c'. apply raises_ret.
Qed.

Lemma raises_repair (a : regen_args) (auto_fix : bool) (passes : Z) (c : ChildPageOutput) :
  raises R (repair regenerate_section_ext set_iter a auto_fix passes c).
Proof.
  unfold repair. destruct (validate_child_lengths c); [apply raises_ret|].
  destruct auto_fix; [apply raises_fix_loop | apply raises_ret].
Qed.

Lemma raises_build_faqs (l : list faq_dict) : forall idx e,
  build_faqs idx l = Raise e -> R e = true.
Proof.
  induction l as [|f l IH]; intros idx e H; [discriminate H|].
  cbn [build_faqs] in H.
  destruct (question f); [|inversion H; apply R_key; vm_compute; reflexivity].
  destruct (answer_html f); [|inversion H; apply R_key; vm_compute; reflexivity].
  destruct (build_faqs (S idx) l) eqn:E; [discriminate H|].
  inversion H. subst. now apply (IH (S idx)).
Qed.

Lemma raises_persist (from_code to_code from_label to_label : pystr)
    (factor : spec_float) (c : ChildPageOutput) (issues : list pystr) :
  raises R
    (persist unicode_lower utcnow_ext from_code to_code from_label to_label
       factor args c issues).
Proof.
  unfold persist. apply raises_bind; [apply raises_utcnow|]. intros now.
  apply raises_bind.
  - intros w e H. unfold lift, build_child_mongo_doc in H.
    destruct (build_faqs 0 (faqs c)) eqn:E; [discriminate H|].
    cbn in H. inversion H. subst. now apply (raises_build_faqs _ _ _ E).
  - intros doc. apply raises_bind.
    + destruct (html_out_dir args); [|apply raises_ret].
      apply raises_bind; [apply raises_emit|]. intros _.
      apply raises_bind; [apply raises_emit|]. intros _. apply raises_emit.
    + intros _. apply raises_bind; [|intros _; apply raises_ret].
      destruct (preview_only args); apply raises_emit.
Qed.

Lemma raises_process_pair (row_label col_label : pystr) (factor : spec_float) :
  raises R
    (process_pair unicode_lower unicode_upper generate_child_content_ext
       regenerate_section_ext utcnow_ext set_iter row_label col_label factor args).
Proof.
  unfold process_pair. apply raises_bind; [apply raises_generate|]. intros c.
  apply raises_bind; [apply raises_repair | intros r; apply raises_persist].
Qed.

Lemma raises_print_issues (issues : list pystr) :
  raises R (print_issues (oracle:=oracle) issues).
Proof.
  induction issues as [|i issues IH]; [apply raises_ret|].
  cbn [print_issues]. apply raises_bind; [apply raises_emit | intros _; exact IH].
Qed.

Lemma raises_lift {A} (r : result A) :
  (forall e, r = Raise e -> R e = true) -> raises R (lift (oracle:=oracle) r).
Proof. intros H w e He. destruct r as [a|x]; [discriminate He|]. inversion He. subst. now apply H. Qed.

Lemma raises_row_loop (row_label : label) (cells : list (pystr * cell)) :
  (forall e, label_strip row_label = Raise e -> R e = true) ->
  (forall col_label factor e, In (col_label, factor) cells ->
     float_of_cell float_of_str factor = Raise e -> is_blank factor = false ->
     R e = true) ->
  forall st,
  raises R
    (row_loop unicode_lower unicode_upper float_of_str generate_child_content_ext
       regenerate_section_ext utcnow_ext set_iter args row_label cells st).
Proof.
  intros Hl. induction cells as [|[col_label factor] rest IH]; intros Hc st;
    [apply raises_ret|].
  assert (IH' := IH (fun c f e Hin => Hc c f e (or_intror Hin))).
  cbn [row_loop]. destruct (is_blank factor) eqn:Hb; [apply IH'|].
  destruct (is_zero factor); [apply IH'|].
  destruct (str_eqb (strip (str_of_label row_label)) (strip col_label)); [apply IH'|].
  destruct (limit_on args && (limit_pairs args <? processed st + 1)%Z);
    [apply raises_ret|].
  apply raises_bind; [now apply raises_lift|]. intros from_label.
  apply raises_bind; [apply raises_emit|]. intros _.
  apply raises_bind.
  { apply raises_lift. intros e He. apply (Hc col_label factor e); auto. now left. }
  intros f.
  apply raises_bind; [apply raises_process_pair|]. intros r.
  destruct (fst r).
  - apply raises_bind; [apply raises_emit | intros _; apply IH'].
  - apply raises_bind; [apply raises_emit|]. intros _.
    apply raises_bind; [apply raises_print_issues | intros _; apply IH'].
Qed.

Lemma raises_table_loop (cols : list pystr) (rs : list (label * list cell)) :
  (forall row_label cells e, In (row_label, cells) rs ->
     label_strip row_label = Raise e -> R e = true) ->
  (forall row_label cells factor e, In (row_label, cells) rs -> In factor cells ->
     float_of_cell float_of_str factor = Raise e -> is_blank factor = false ->
     R e = true) ->
  forall st,
  raises R
    (table_loop unicode_lower unicode_upper float_of_str generate_child_content_ext
       regenerate_section_ext utcnow_ext set_iter args cols rs st).
Proof.
  induction rs as [|[row_label cells] rest IH]; intros Hl Hc st; [apply raises_ret|].
  cbn [table_loop]. apply raises_bind.
  - apply raises_row_loop.
    + intros e. apply (Hl row_label cells). now left.
    + intros c f e Hin. apply (Hc row_label cells); [now left|].
      now apply in_combine_r in Hin.
  - intros st'.
    destruct (limit_on args && (limit_pairs args <=? processed st')%Z);
      [apply raises_ret|].
    apply IH.
    + intros l c e Hin. apply (Hl l c). now right.
    + intros l c f e Hin. apply (Hc l c). now right.
Qed.

End Raises.

Lemma existsb_In {A} (f : A -> bool) (l : list A) (x : A) :
  In x l -> f x = true -> existsb f l = true.
Proof. intros H1 H2. apply existsb_exists. now exists x. Qed.



(** *** The region of a label *)

Lemma split_go_parts_infix (sep : pystr) (t : pystr) : forall skip cur,
  skip = 0%nat \/ cur = [] ->
  forall p, In p (split_go sep skip cur t) ->
  exists pre post, rev cur ++ t = pre ++ p ++ post.
Proof.
  induction t as [|c t IH]; intros skip cur Hs p Hp.
  - destruct Hp as [<-|[]]. exists [], []. now rewrite app_nil_r.
  - cbn [split_go] in Hp. destruct skip as [|k].
    + destruct (prefixb sep (c :: t)).
      * destruct Hp as [<-|Hp]; [now exists [], (c :: t)|].
        destruct (IH _ [] (or_intror eq_refl) p Hp) as [pre [post E]].
        cbn [rev app] in E. exists (rev cur ++ c :: pre), post.
        rewrite E, <- app_assoc. reflexivity.
      * destruct (IH _ (c :: cur) (or_introl eq_refl) p Hp) as [pre [post E]].
        exists pre, post. rewrite <- E. cbn [rev]. rewrite <- app_assoc. reflexivity.
    + destruct Hs as [Hs| ->]; [discriminate|].
      destruct (IH _ [] (or_intror eq_refl) p Hp) as [pre [post E]].
      cbn [rev app] in *. exists (c :: pre), post. now rewrite E.
Qed.

Lemma prefixb_app_false (p a b : pystr) :
  prefixb p (a ++ b) = false -> prefixb p a = false.
Proof.
  intros H. destruct (prefixb p a) eqn:E; [|reflexivity].
  now rewrite (prefixb_app _ _ b E) in H.
Qed.

Lemma contains_false_suffixes (sep s : pystr) :
  sep <> [] ->
  (forall a b, s = a ++ b -> b <> [] -> prefixb sep b = false) ->
  contains sep s = false.
Proof.
  intros Hsep. induction s as [|c s IH]; intros H.
  - destruct sep; [now contradiction Hsep | reflexivity].
  - rewrite contains_cons. rewrite (H [] (c :: s) eq_refl) by discriminate.
    cbn [orb]. apply IH. intros a b E Hb. apply (H (c :: a) b); [now rewrite E | exact Hb].
Qed.

Lemma split_go_parts_free (sep : pystr) (t : pystr) :
  sep <> [] ->
  forall skip cur,
  skip = 0%nat \/ cur = [] ->
  (forall a b, rev cur = a ++ b -> b <> [] -> prefixb sep (b ++ t) = false) ->
  forall p, In p (split_go sep skip cur t) -> contains sep p = false.
Proof.
  intros Hsep. induction t as [|c t IH]; intros skip cur Hs Hcur p Hp.
  - destruct Hp as [<-|[]]. apply contains_false_suffixes; [exact Hsep|].
    intros a b E Hb. specialize (Hcur a b E Hb). now rewrite app_nil_r in Hcur.
  - cbn [split_go] in Hp. destruct skip as [|k].
    + destruct (prefixb sep (c :: t)) eqn:Ep.
      * destruct Hp as [<-|Hp].
        -- apply contains_false_suffixes; [exact Hsep|]. intros a b E Hb.
           apply (prefixb_app_false _ _ (c :: t)). now apply (Hcur a b).
        -- apply (fun H => IH _ [] (or_intror eq_refl) H p Hp).
           intros a b E Hb. destruct a; destruct b; try discriminate E.
           now contradiction Hb.
      * apply (fun H => IH _ (c :: cur) (or_introl eq_refl) H p Hp).
        intros a b E Hb. cbn [rev] in E.
        destruct (exists_last Hb) as [b' [x Eb]]. subst b.
        rewrite app_assoc in E. apply app_inj_tail in E as [E ->].
        rewrite <- app_assoc. cbn [app].
        destruct b' as [|y b']; [exact Ep|].
        apply (Hcur a (y :: b') E). discriminate.
    + destruct Hs as [Hs| ->]; [discriminate|].
      apply (fun H => IH _ [] (or_intror eq_refl) H p Hp).
      intros a b E Hb. destruct a; destruct b; try discriminate E.
      now contradiction Hb.
Qed.

Lemma split_parts (sep s p : pystr) :
  sep <> [] -> In p (split sep s) ->
  contains sep p = false /\ exists pre post, s = pre ++ p ++ post.
Proof.
  intros Hsep Hp. unfold split in Hp. split.
  - apply (split_go_parts_free sep s Hsep 0%nat [] (or_introl eq_refl)); [|exact Hp].
    intros a b E Hb. destruct a; destruct b; try discriminate E. now contradiction Hb.
  - exact (split_go_parts_infix sep s 0%nat [] (or_introl eq_refl) p Hp).
Qed.

Lemma last_In {A} (l : list A) (d : A) : l <> [] -> In (last l d) l.
Proof.
  induction l as [|x l IH]; intros H; [now contradiction H|].
  destruct l as [|y l]; [now left|]. right. apply IH. discriminate.
Qed.

Lemma region_by_piece (sep name r : pystr) :
  sep <> [] -> region_by sep name = Some r ->
  r <> [] /\ strip r = r /\ contains sep name = true /\ contains sep r = false
  /\ exists pre post, name = pre ++ r ++ post.
Proof.
  intros Hsep H. unfold region_by in H.
  destruct (contains sep name) eqn:Ec; [|discriminate].
  destruct (2 <=? List.length (region_parts sep name))%nat eqn:El; [|discriminate].
  injection H as Hr.
  assert (Hin : In r (region_parts sep name)).
  { rewrite <- Hr. apply last_In. intros E. rewrite E in El. discriminate El. }
  unfold region_parts in Hin. apply in_map_iff in Hin as [p [Ep Hp]].
  apply filter_In in Hp as [Hp Hne].
  destruct (split_parts sep name p Hsep Hp) as [Hfree [pre [post E]]].
  destruct (strip_split p) as [ws1 [ws2 [Es _]]]. rewrite Ep in Es.
  repeat split.
  - intros E0. rewrite Ep, E0 in Hne. discriminate Hne.
  - rewrite <- Ep. apply strip_idem.
  - rewrite Es in Hfree. exact (contains_infix _ _ _ _ Hfree).
  - exists (pre ++ ws1), (ws2 ++ post). rewrite E, Es. now rewrite <- !app_assoc.
Qed.

(** X27: what [extract_region] returns.  A region is a non-empty piece of
    the label, without blanks at either end; one of the three dashes
    occurs in the stripped label and does not occur in the region. *)
Theorem extract_region_is_piece_of_label (label r : pystr) :
  extract_region label = Some r ->
  r <> []
  /\ strip r = r
  /\ (exists pre post, label = pre ++ r ++ post)
  /\ exists sep, In sep [EN_DASH; EM_DASH; HYPHEN_MINUS]
       /\ contains sep (strip label) = true /\ contains sep r = false.
Proof.
  intros H. unfold extract_region in H.
  apply extract_region_loop_some in H as [pre [sep [post [Es [Hr _]]]]].
  assert (Hin : In sep [EN_DASH; EM_DASH; HYPHEN_MINUS]).
  { rewrite Es. apply in_or_app. right. now left. }
  assert (Hsep : sep <> []).
  { intros E. subst sep. cbn in Hin. destruct Hin as [E|[E|[E|[]]]]; discriminate E. }
  destruct (region_by_piece sep (strip label) r Hsep Hr)
    as [H1 [H2 [H3 [H4 [a [b E]]]]]].
  destruct (strip_split label) as [ws1 [ws2 [El _]]].
  repeat split; [exact H1 | exact H2 | | exists sep; now repeat split].
  exists (ws1 ++ a), (b ++ ws2). rewrite El at 1. rewrite E. now rewrite <- !app_assoc.
Qed.

Lemma extract_region_is_piece_of_label_witness :
  exists pre post, u " Bigha-Uttarakhand-II " = pre ++ u "II" ++ post.
Proof.
  apply (extract_region_is_piece_of_label (u " Bigha-Uttarakhand-II ") (u "II")).
  vm_compute. reflexivity.
Defined.
